(** * Placement engine of the C++ placement service

    Shallow embedding of [placement_logic.h] and [placement_logic.cpp]
    (namespace [PlacementService]) and the properties of the engine
    [suggest_placements_cpp].

    Conventions of the embedding.
    - A C++ [double] is an exact rational ([Q]); the comparisons the
      source writes ([<], [<=], [>]) are the boolean comparisons of [Q].
      Rounding, infinities and NaN are outside the model.
    - A C++ [int] is a [Z]; the only cast from [double] to [int]
      ([static_cast<int>]) truncates toward zero.
    - [std::string] is [string]; [std::vector] is [list] (with [push_back]
      appending at the end); [std::optional] is [option].
    - [std::map<std::string, V>] is the Standard Library's sorted
      association list over strings ([FMapList] on [String_as_OT]): like
      [std::map] it keeps one value per key and is traversed in ascending
      key order.  [std::set<std::string>] is [FSetList] on the same order.
    - [std::set<double>] is a strictly ascending [list Q].
    - [std::sort] is library code.  The engine is embedded over any
      sorting function that meets its contract ([StdSort]);
      [LibstdcxxSort] is the one of GNU libstdc++, written after its
      headers.
    - Writes to [std::cout] and [std::cerr] are not modelled.

    [placement_logic.cpp] defines each of its four functions twice.  The
    first [suggest_placements_cpp] and [find_spot_in_container] (lines
    93-128) are placeholders that report "not implemented"; the embedding
    follows the second, complete definitions (lines 130-531).  The two
    texts of [boxes_overlap] are identical.  The first [is_stable] is kept
    as [is_stable_centre]. *)

From Stdlib Require Import ZArith QArith Qabs Lqa Lia.
From Stdlib Require Import List Bool String Ascii.
From Stdlib Require Import Permutation Sorted SetoidList.
From Stdlib Require Import OrderedTypeEx FMapList FMapFacts FSetList FSetFacts.
Import ListNotations.

Local Open Scope Q_scope.
Local Open Scope string_scope.
Local Open Scope list_scope.

Module SMap := FMapList.Make String_as_OT.
Module SMapF := FMapFacts.WFacts_fun String_as_OT SMap.
Module SSet := FSetList.Make String_as_OT.
Module SSetF := FSetFacts.WFacts_fun String_as_OT SSet.

(** ** Numbers *)

Definition double := Q.

(** [x <= y] and [x < y] on doubles. *)
Definition leb (x y : double) : bool := Qle_bool x y.
Definition ltb (x y : double) : bool := negb (Qle_bool y x).

(** [std::max(a, b)] is [(a < b) ? b : a]; [std::min(a, b)] is
    [(b < a) ? b : a]. *)
Definition std_max (a b : double) : double := if ltb a b then b else a.
Definition std_min (a b : double) : double := if ltb b a then b else a.

(** [static_cast<int>(x)]: truncation toward zero. *)
Definition to_int (x : double) : Z := Z.quot (Qnum x) (Zpos (Qden x)).

(** [const double COORD_TOLERANCE = 1e-6]. *)
Definition COORD_TOLERANCE : double := 1 # 1000000.

(** ** Data structures of [placement_logic.h] *)

Module Coordinates.
Record t := mk { width : double; depth : double; height : double }.
End Coordinates.

Module Position.
Record t := mk { startCoordinates : Coordinates.t; endCoordinates : Coordinates.t }.
End Position.

Module ItemData.
Record t := mk {
  itemId : string;
  name : string;
  width : double;
  depth : double;
  height : double;
  mass : double;
  priority : Z;
  expiryDate : option string;
  usageLimit : option Z;
  preferredZone : option string
}.
End ItemData.

Module ContainerData.
Record t := mk {
  containerId : string;
  zone : string;
  width : double;
  depth : double;
  height : double
}.
(** The value-initialised struct that [operator[]] of a map would create. *)
Definition default : t := mk "" "" 0 0 0.
End ContainerData.

Module PlacementInfo.
Record t := mk {
  itemId : string;
  containerId : string;
  position : Position.t;
  priority : Z
}.
End PlacementInfo.

Module PlacementResult.
Record t := mk {
  itemId : string;
  containerId : string;
  position : Position.t
}.
End PlacementResult.

Module RearrangementStep.
Record t := mk {
  step : Z;
  action : string;
  itemId : string;
  fromContainer : option string;
  fromPosition : option Position.t;
  toContainer : string;
  toPosition : Position.t
}.
End RearrangementStep.

Module PlacementOutput.
Record t := mk {
  success : bool;
  error : option string;
  placements : list PlacementResult.t;
  rearrangements : list RearrangementStep.t;
  failedItemIds : list string
}.
End PlacementOutput.

(** [using Orientation = std::tuple<double, double, double>]. *)
Definition Orientation : Type := double * double * double.

(** Short names for the corners of a box. *)
Definition sw (p : Position.t) := Coordinates.width (Position.startCoordinates p).
Definition sd (p : Position.t) := Coordinates.depth (Position.startCoordinates p).
Definition sh (p : Position.t) := Coordinates.height (Position.startCoordinates p).
Definition ew (p : Position.t) := Coordinates.width (Position.endCoordinates p).
Definition ed (p : Position.t) := Coordinates.depth (Position.endCoordinates p).
Definition eh (p : Position.t) := Coordinates.height (Position.endCoordinates p).

(** ** Geometry primitives *)

(** [boxes_overlap], placement_logic.cpp lines 130-143 (and the identical
    text at lines 25-38). *)
Definition boxes_overlap (pos1 pos2 : Position.t) : bool :=
  let no_overlap_w := leb (ew pos1) (sw pos2 + COORD_TOLERANCE)
                      || leb (ew pos2) (sw pos1 + COORD_TOLERANCE) in
  let no_overlap_d := leb (ed pos1) (sd pos2 + COORD_TOLERANCE)
                      || leb (ed pos2) (sd pos1 + COORD_TOLERANCE) in
  let no_overlap_h := leb (eh pos1) (sh pos2 + COORD_TOLERANCE)
                      || leb (eh pos2) (sh pos1 + COORD_TOLERANCE) in
  negb (no_overlap_w || no_overlap_d || no_overlap_h).

(** The body of the support loop of the second [is_stable] (lines 161-176):
    does [existing_placement] support the candidate? *)
Definition supports (candidate_pos : Position.t) (existing_placement : PlacementInfo.t) : bool :=
  let q := PlacementInfo.position existing_placement in
  if ltb (Qabs (eh q - sh candidate_pos)) COORD_TOLERANCE then
    let overlap_w := negb (leb (ew candidate_pos) (sw q + COORD_TOLERANCE)
                           || leb (ew q) (sw candidate_pos + COORD_TOLERANCE)) in
    let overlap_d := negb (leb (ed candidate_pos) (sd q + COORD_TOLERANCE)
                           || leb (ed q) (sd candidate_pos + COORD_TOLERANCE)) in
    overlap_w && overlap_d
  else false.

(** [is_stable], lines 146-178: the definition that comes last in the file
    and the one [find_spot_in_container] below is written against.  The loop
    sets [supported] at the first supporting placement and breaks. *)
Definition is_stable (candidate_pos : Position.t) (container : ContainerData.t)
    (current_placements_in_container : list PlacementInfo.t) : bool :=
  if ltb (Qabs (sh candidate_pos)) COORD_TOLERANCE then true
  else existsb (supports candidate_pos) current_placements_in_container.

(** The loop body of the first [is_stable] (lines 65-81): the centre of the
    candidate's base lies within the footprint of the placement below. *)
Definition supports_centre (candidate_pos : Position.t) (existing_placement : PlacementInfo.t) : bool :=
  let q := PlacementInfo.position existing_placement in
  let candidate_base_center_w :=
    sw candidate_pos + (ew candidate_pos - sw candidate_pos) / 2 in
  let candidate_base_center_d :=
    sd candidate_pos + (ed candidate_pos - sd candidate_pos) / 2 in
  if ltb (Qabs (eh q - sh candidate_pos)) COORD_TOLERANCE then
    let center_within_w := leb (sw q - COORD_TOLERANCE) candidate_base_center_w
                           && leb candidate_base_center_w (ew q + COORD_TOLERANCE) in
    let center_within_d := leb (sd q - COORD_TOLERANCE) candidate_base_center_d
                           && leb candidate_base_center_d (ed q + COORD_TOLERANCE) in
    center_within_w && center_within_d
  else false.

(** The first [is_stable] of the file, lines 51-89 ("centre within
    footprint"); superseded by the definition above. *)
Definition is_stable_centre (candidate_pos : Position.t) (container : ContainerData.t)
    (current_placements_in_container : list PlacementInfo.t) : bool :=
  if ltb (Qabs (sh candidate_pos)) COORD_TOLERANCE then true
  else existsb (supports_centre candidate_pos) current_placements_in_container.

(** ** Spot finder *)

(** A [for] loop whose body either [continue]s ([None]) or [return]s a
    value ([Some]): the result of the first iteration that returns. *)
Fixpoint first_some {A B : Type} (body : A -> option B) (l : list A) : option B :=
  match l with
  | [] => None
  | x :: l' => match body x with
               | Some y => Some y
               | None => first_some body l'
               end
  end.

(** The values of [i] in [for (int i = 0; i < n; ++i)]. *)
Definition int_range (n : Z) : list Z := map Z.of_nat (seq 0 (Z.to_nat n)).

(** [std::set<double>::insert]: the set stays ascending and an element
    equivalent to one already present is not inserted. *)
Fixpoint set_insert (x : double) (s : list double) : list double :=
  match s with
  | [] => [x]
  | y :: s' => if ltb x y then x :: s
               else if ltb y x then y :: set_insert x s'
               else s
  end.

(** Lines 212-228: the floor and the tops of the placed items, without
    near-duplicates, in ascending order. *)
Definition base_heights (current_placements_in_container : list PlacementInfo.t) : list double :=
  fold_left
    (fun base_height_set placed_item =>
       let top := eh (PlacementInfo.position placed_item) in
       let found_close :=
         existsb (fun h => ltb (Qabs (top - h)) (COORD_TOLERANCE * 10)) base_height_set in
       if found_close then base_height_set else set_insert top base_height_set)
    current_placements_in_container [0].

(** Lines 198-202. *)
Definition orientations (item_req : ItemData.t) : list Orientation :=
  let w := ItemData.width item_req in
  let d := ItemData.depth item_req in
  let h := ItemData.height item_req in
  [ (w, d, h); (w, h, d); (d, w, h); (d, h, w); (h, w, d); (h, d, w) ].

(** Lines 276-308: the candidate at [(start_w, start_d, start_h)] and its
    three checks. *)
Definition candidate (start_w start_d start_h item_w item_d item_h : double) : Position.t :=
  Position.mk (Coordinates.mk start_w start_d start_h)
              (Coordinates.mk (start_w + item_w) (start_d + item_d) (start_h + item_h)).

Definition check_candidate (container : ContainerData.t)
    (current_placements_in_container : list PlacementInfo.t)
    (orientation : Orientation) (candidate_pos : Position.t)
    : option (Position.t * Orientation) :=
  if ltb (ContainerData.width container + COORD_TOLERANCE) (ew candidate_pos)
     || ltb (ContainerData.depth container + COORD_TOLERANCE) (ed candidate_pos)
     || ltb (ContainerData.height container + COORD_TOLERANCE) (eh candidate_pos)
  then None
  else if existsb (fun existing_placement =>
                     boxes_overlap candidate_pos (PlacementInfo.position existing_placement))
                  current_placements_in_container
  then None
  else if negb (is_stable candidate_pos container current_placements_in_container)
  then None
  else Some (candidate_pos, orientation).

(** [find_spot_in_container], lines 191-318. *)
Definition find_spot_in_container (item_req : ItemData.t) (container : ContainerData.t)
    (current_placements_in_container : list PlacementInfo.t) (is_high_priority : bool)
    : option (Position.t * Orientation) :=
  let cw := ContainerData.width container in
  let cd := ContainerData.depth container in
  let ch := ContainerData.height container in
  let width_increment := std_max (cw / 25) (2 # 100) in
  let depth_increment := std_max (cd / 25) (2 # 100) in
  let num_w_steps := Z.add (to_int (cw / width_increment)) 2 in
  let num_d_steps := Z.add (to_int (cd / depth_increment)) 2 in
  let possible_base_heights := base_heights current_placements_in_container in
  first_some
    (fun orientation : Orientation =>
       let '(item_w, item_d, item_h) := orientation in
       if ltb (cw + COORD_TOLERANCE) item_w
          || ltb (cd + COORD_TOLERANCE) item_d
          || ltb (ch + COORD_TOLERANCE) item_h
       then None
       else
         first_some
           (fun start_h =>
              if ltb (ch + COORD_TOLERANCE) (start_h + item_h) then None
              else
                first_some
                  (fun d_idx =>
                     let start_d :=
                       if is_high_priority
                       then inject_Z d_idx * depth_increment
                       else cd - inject_Z (Z.add d_idx 1) * depth_increment in
                     let start_d := std_max 0 (std_min start_d (cd - item_d)) in
                     if ltb (cd + COORD_TOLERANCE) (start_d + item_d) then None
                     else
                       first_some
                         (fun w_idx =>
                            let start_w := inject_Z w_idx * width_increment in
                            let start_w := std_max 0 (std_min start_w (cw - item_w)) in
                            if ltb (cw + COORD_TOLERANCE) (start_w + item_w) then None
                            else
                              check_candidate container current_placements_in_container
                                orientation
                                (candidate start_w start_d start_h item_w item_d item_h))
                         (int_range num_w_steps))
                  (int_range num_d_steps))
           possible_base_heights)
    (orientations item_req).

(** ** The contract of [std::sort] *)

(** What the C++ standard asks of a comparator: a strict weak ordering. *)
Record strict_weak_order {A : Type} (comp : A -> A -> bool) : Prop := {
  swo_irrefl : forall a, comp a a = false;
  swo_trans : forall a b c, comp a b = true -> comp b c = true -> comp a c = true;
  swo_incomparable : forall a b c, comp a b = false -> comp b c = false -> comp a c = false
}.

(** Sorted with respect to [comp], as [std::is_sorted] reads it: no later
    element compares before an earlier one. *)
Definition sorted_wrt {A : Type} (comp : A -> A -> bool) (l : list A) : Prop :=
  StronglySorted (fun a b => comp b a = false) l.

(** [std::sort] is library code; the standard fixes what it returns only up
    to this contract: the range is rearranged (a permutation) and comes out
    sorted with respect to the comparator.  The order in which it leaves
    equivalent elements is not specified ([std::stable_sort] is the
    algorithm that keeps it).  The engine is embedded over any sorting
    function that meets the contract. *)
Class StdSort := {
  std_sort : (ItemData.t -> ItemData.t -> bool) -> list ItemData.t -> list ItemData.t;
  std_sort_permutation : forall comp l, Permutation l (std_sort comp l);
  std_sort_sorted : forall comp l, strict_weak_order comp -> sorted_wrt comp (std_sort comp l)
}.

(** ** Phase orchestrator *)

(** The lambda of line 338: [a.priority > b.priority]. *)
Definition higher_priority_first (a b : ItemData.t) : bool :=
  Z.ltb (ItemData.priority b) (ItemData.priority a).

(** Lines 336-340. *)
Definition sorted_incoming_items `{StdSort} (items_to_place_input : list ItemData.t)
    : list ItemData.t :=
  std_sort higher_priority_first items_to_place_input.

(** Lines 343-348. *)
Definition make_containers_map (containers_input : list ContainerData.t)
    : SMap.t ContainerData.t :=
  fold_left (fun containers_map c => SMap.add (ContainerData.containerId c) c containers_map)
            containers_input (SMap.empty ContainerData.t).

Definition make_container_ids (containers_input : list ContainerData.t) : list string :=
  map ContainerData.containerId containers_input.

(** [containers_map[container_id]] read as a value.  Every id the loops
    pass is a key of the map ([containers_map_has_ids] below), so the
    subscript never inserts. *)
Definition container_at (container_id : string) (containers_map : SMap.t ContainerData.t)
    : ContainerData.t :=
  match SMap.find container_id containers_map with
  | Some c => c
  | None => ContainerData.default
  end.

(** [simulation_placements[container_id]]: the vector stored under the
    key, and the map after the subscript, which holds an empty vector under
    the key when there was none. *)
Definition subscript (container_id : string) (m : SMap.t (list PlacementInfo.t))
    : list PlacementInfo.t * SMap.t (list PlacementInfo.t) :=
  match SMap.find container_id m with
  | Some v => (v, m)
  | None => ([], SMap.add container_id [] m)
  end.

(** The mutable state of the engine between Phase 0 and Phase 4. *)
Record Sim := mkSim {
  simulation_placements : SMap.t (list PlacementInfo.t);
  processed_item_ids : SSet.t;
  final_placements_map : SMap.t PlacementResult.t
}.

(** Lines 361-370: the live placements seed the final map. *)
Definition seed_final_placements (current_db_placements : SMap.t (list PlacementInfo.t))
    : SMap.t PlacementResult.t :=
  fold_left
    (fun final_map (pair : string * list PlacementInfo.t) =>
       let container_id := fst pair in
       fold_left
         (fun final_map placement_info =>
            SMap.add (PlacementInfo.itemId placement_info)
                     (PlacementResult.mk (PlacementInfo.itemId placement_info) container_id
                                         (PlacementInfo.position placement_info))
                     final_map)
         (snd pair) final_map)
    (SMap.elements current_db_placements) (SMap.empty PlacementResult.t).

(** The container loops of Phase 1 (lines 389-418) and Phase 3 (lines
    460-485) have the same body; Phase 1 guards it with the zone test
    ([eligible]), Phase 3 takes every container.  The result says whether
    the item was placed ([break]) and gives the state after the loop. *)
Fixpoint place_in_containers (eligible : ContainerData.t -> bool)
    (containers_map : SMap.t ContainerData.t) (item_req : ItemData.t) (is_high_prio : bool)
    (container_ids : list string) (st : Sim) : bool * Sim :=
  match container_ids with
  | [] => (false, st)
  | container_id :: rest =>
      let container := container_at container_id containers_map in
      if eligible container then
        let '(current_in_container, sim1) := subscript container_id (simulation_placements st) in
        match find_spot_in_container item_req container current_in_container is_high_prio with
        | Some (found_pos, found_ori) =>
            (true,
             mkSim
               (SMap.add container_id
                  (current_in_container ++
                   [PlacementInfo.mk (ItemData.itemId item_req) container_id found_pos
                                     (ItemData.priority item_req)])
                  sim1)
               (SSet.add (ItemData.itemId item_req) (processed_item_ids st))
               (SMap.add (ItemData.itemId item_req)
                  (PlacementResult.mk (ItemData.itemId item_req) container_id found_pos)
                  (final_placements_map st)))
        | None =>
            place_in_containers eligible containers_map item_req is_high_prio rest
              (mkSim sim1 (processed_item_ids st) (final_placements_map st))
        end
      else place_in_containers eligible containers_map item_req is_high_prio rest st
  end.

(** [item_req.priority >= 75]. *)
Definition is_high_prio (item_req : ItemData.t) : bool :=
  Z.leb 75 (ItemData.priority item_req).

(** One iteration of the Phase 1 loop, lines 379-425; the second component
    is [items_requiring_placement_pass_2]. *)
Definition phase1_step (containers_map : SMap.t ContainerData.t) (container_ids : list string)
    (acc : Sim * list ItemData.t) (item_req : ItemData.t) : Sim * list ItemData.t :=
  let '(st, pass_2) := acc in
  if SSet.mem (ItemData.itemId item_req) (processed_item_ids st) then acc
  else
    let '(placed_in_phase1, st') :=
      match ItemData.preferredZone item_req with
      | Some pref_zone =>
          place_in_containers
            (fun container => String.eqb (ContainerData.zone container) pref_zone)
            containers_map item_req (is_high_prio item_req) container_ids st
      | None => (false, st)
      end in
    if placed_in_phase1 then (st', pass_2) else (st', pass_2 ++ [item_req]).

Definition phase1 (containers_map : SMap.t ContainerData.t) (container_ids : list string)
    (sorted_items : list ItemData.t) (st : Sim) : Sim * list ItemData.t :=
  fold_left (phase1_step containers_map container_ids) sorted_items (st, []).

(** Phase 2, lines 428-446, is a placeholder: the backlog is copied to the
    Phase 3 list and nothing else happens. *)
Definition phase2 (items_requiring_placement_pass_2 : list ItemData.t) : list ItemData.t :=
  items_requiring_placement_pass_2.

(** One iteration of the Phase 3 loop, lines 452-496. *)
Definition phase3_step (containers_map : SMap.t ContainerData.t) (container_ids : list string)
    (acc : Sim * PlacementOutput.t) (item_req : ItemData.t) : Sim * PlacementOutput.t :=
  let '(st, output) := acc in
  if SSet.mem (ItemData.itemId item_req) (processed_item_ids st) then acc
  else
    let '(placed_in_phase3, st') :=
      place_in_containers (fun _ => true) containers_map item_req (is_high_prio item_req)
                          container_ids st in
    if placed_in_phase3 then (st', output)
    else
      (mkSim (simulation_placements st')
             (SSet.add (ItemData.itemId item_req) (processed_item_ids st'))
             (final_placements_map st'),
       PlacementOutput.mk
         false
         (match PlacementOutput.error output with
          | Some e => Some e
          | None => Some "Placement failed for one or more items."
          end)
         (PlacementOutput.placements output)
         (PlacementOutput.rearrangements output)
         (PlacementOutput.failedItemIds output ++ [ItemData.itemId item_req])).

Definition phase3 (containers_map : SMap.t ContainerData.t) (container_ids : list string)
    (items_requiring_placement_pass_3 : list ItemData.t) (st : Sim) (output : PlacementOutput.t)
    : Sim * PlacementOutput.t :=
  fold_left (phase3_step containers_map container_ids) items_requiring_placement_pass_3
            (st, output).

(** Lines 504-516: the final map in key order, without the failed ids. *)
Definition collect_placements (final_placements_map : SMap.t PlacementResult.t)
    (failedItemIds : list string) : list PlacementResult.t :=
  map snd
      (filter (fun pair : string * PlacementResult.t =>
                 negb (existsb (String.eqb (fst pair)) failedItemIds))
              (SMap.elements final_placements_map)).

(** Lines 522-524: each id followed by [", "] unless it is the last one. *)
Fixpoint append_failed_ids (failedItemIds : list string) : string :=
  match failedItemIds with
  | [] => ""
  | id :: rest =>
      String.append (String.append id (match rest with [] => "" | _ :: _ => ", " end))
                    (append_failed_ids rest)
  end.

(** Lines 520-527. *)
Definition final_error (output : PlacementOutput.t) : option string :=
  match PlacementOutput.failedItemIds output with
  | [] => PlacementOutput.error output
  | _ :: _ =>
      Some (String.append "Placement incomplete. Failed items: "
                          (append_failed_ids (PlacementOutput.failedItemIds output)))
  end.

(** [suggest_placements_cpp], lines 323-531. *)
Definition suggest_placements_cpp `{StdSort}
    (items_to_place_input : list ItemData.t)
    (containers_input : list ContainerData.t)
    (current_db_placements : SMap.t (list PlacementInfo.t)) : PlacementOutput.t :=
  let output := PlacementOutput.mk true None [] [] [] in
  let sorted_items := sorted_incoming_items items_to_place_input in
  let containers_map := make_containers_map containers_input in
  let container_ids := make_container_ids containers_input in
  let st0 := mkSim current_db_placements SSet.empty
                   (seed_final_placements current_db_placements) in
  let '(st1, items_requiring_placement_pass_2) :=
    phase1 containers_map container_ids sorted_items st0 in
  let items_requiring_placement_pass_3 := phase2 items_requiring_placement_pass_2 in
  let '(st3, output) :=
    phase3 containers_map container_ids items_requiring_placement_pass_3 st1 output in
  PlacementOutput.mk
    (PlacementOutput.success output)
    (final_error output)
    (collect_placements (final_placements_map st3) (PlacementOutput.failedItemIds output))
    (PlacementOutput.rearrangements output)
    (PlacementOutput.failedItemIds output).


(** ** A stable sorting function that meets the contract of [std::sort] *)

Section InsertionSort.
Context {A : Type}.
Variable goes_before : A -> A -> bool.

(** Insert [x] in front of the first element it goes before. *)
Fixpoint insert_by (x : A) (l : list A) : list A :=
  match l with
  | [] => [x]
  | y :: l' => if goes_before x y then x :: l else y :: insert_by x l'
  end.

Definition insertion_sort_by (l : list A) : list A := fold_right insert_by [] l.

Lemma insert_by_permutation (x : A) (l : list A) : Permutation (x :: l) (insert_by x l).
Proof.
  induction l as [|y l IH]; simpl.
  - apply Permutation_refl.
  - destruct (goes_before x y).
    + apply Permutation_refl.
    + eapply perm_trans; [apply perm_swap|]. now apply perm_skip.
Qed.

Lemma insertion_sort_by_permutation (l : list A) : Permutation l (insertion_sort_by l).
Proof.
  induction l as [|x l IH]; simpl.
  - apply perm_nil.
  - eapply perm_trans; [apply perm_skip, IH|]. apply insert_by_permutation.
Qed.

Variable le : A -> A -> Prop.
Hypothesis le_trans : forall a b c, le a b -> le b c -> le a c.
Hypothesis goes_before_le : forall x y, goes_before x y = true -> le x y.
Hypothesis goes_after_le : forall x y, goes_before x y = false -> le y x.

Lemma insert_by_sorted (x : A) (l : list A) :
  StronglySorted le l -> StronglySorted le (insert_by x l).
Proof.
  induction 1 as [|y l Hs IH Hall]; simpl.
  - constructor; [constructor | constructor].
  - destruct (goes_before x y) eqn:E.
    + constructor; [now constructor|].
      constructor; [now apply goes_before_le|].
      eapply Forall_impl; [|exact Hall]. intros z Hz.
      eapply le_trans; [apply goes_before_le, E | exact Hz].
    + constructor; [exact IH|].
      eapply Permutation_Forall; [apply insert_by_permutation|].
      constructor; [now apply goes_after_le | exact Hall].
Qed.

Lemma insertion_sort_by_sorted (l : list A) : StronglySorted le (insertion_sort_by l).
Proof.
  induction l as [|x l IH]; simpl; [constructor | now apply insert_by_sorted].
Qed.

End InsertionSort.

Lemma swo_asym {A : Type} (comp : A -> A -> bool) :
  strict_weak_order comp -> forall a b, comp a b = true -> comp b a = false.
Proof.
  intros H a b Hab. destruct (comp b a) eqn:E; [|reflexivity].
  rewrite <- (swo_irrefl comp H a). symmetry. now apply (swo_trans comp H a b a).
Qed.

(** Insertion sort that leaves equivalent elements in input order. *)
Definition stable_sort {A : Type} (comp : A -> A -> bool) : list A -> list A :=
  insertion_sort_by (fun x y => negb (comp y x)).

Lemma stable_sort_sorted {A : Type} (comp : A -> A -> bool) (l : list A) :
  strict_weak_order comp -> sorted_wrt comp (stable_sort comp l).
Proof.
  intros H. apply insertion_sort_by_sorted.
  - intros a b c Hab Hbc. now apply (swo_incomparable comp H c b a).
  - intros x y E. now apply negb_true_iff in E.
  - intros x y E. apply negb_false_iff in E. now apply swo_asym.
Qed.

Definition StableStdSort : StdSort :=
  Build_StdSort stable_sort
    (fun comp l => insertion_sort_by_permutation _ l)
    (fun comp l => stable_sort_sorted comp l).

(** ** [std::sort] as libstdc++ implements it *)

(** The sorting function of GNU libstdc++ (GCC 12, [bits/stl_algo.h] and
    [bits/stl_heap.h]; the line numbers below are those of these two
    headers): an introsort.  Ranges of more than [_S_threshold] elements
    are split around a median of three, with a heap sort once the depth
    limit is used up, and an insertion sort finishes the vector.

    The vector is a list and an iterator an index into it.  The source
    leaves several loops unguarded, relying on the elements it has put in
    place to stop them; the model ends such a loop when it would leave the
    vector, which a comparator that is a strict weak ordering never makes
    it do.  Loops that are not structural take the number of rounds they
    can need at most as fuel. *)
Module Libstdcxx.
Section Sort.
Local Open Scope nat_scope.
Context {A : Type}.
Variable comp : A -> A -> bool.

(** [*it = x]. *)
Fixpoint assign (i : nat) (x : A) (l : list A) : list A :=
  match l, i with
  | [], _ => []
  | _ :: l', 0 => x :: l'
  | y :: l', S i' => y :: assign i' x l'
  end.

(** [comp(it1, it2)] on two iterators. *)
Definition comp_iter (l : list A) (i j : nat) : bool :=
  match nth_error l i, nth_error l j with
  | Some x, Some y => comp x y
  | _, _ => false
  end.

(** [std::iter_swap]. *)
Definition iter_swap (i j : nat) (l : list A) : list A :=
  match nth_error l i, nth_error l j with
  | Some x, Some y => assign j x (assign i y l)
  | _, _ => l
  end.

(** [__move_median_to_first], stl_algo.h 82-100. *)
Definition move_median_to_first (result a b c : nat) (l : list A) : list A :=
  if comp_iter l a b then
    if comp_iter l b c then iter_swap result b l
    else if comp_iter l a c then iter_swap result c l
    else iter_swap result a l
  else if comp_iter l a c then iter_swap result a l
  else if comp_iter l b c then iter_swap result c l
  else iter_swap result b l.

(** [while (comp(first, pivot)) ++first;] *)
Fixpoint scan_up (fuel : nat) (l : list A) (pivot first : nat) : nat :=
  match fuel with
  | 0 => first
  | S fuel' => if comp_iter l first pivot then scan_up fuel' l pivot (S first) else first
  end.

(** [while (comp(pivot, last)) --last;] *)
Fixpoint scan_down (l : list A) (pivot last : nat) : nat :=
  match last with
  | 0 => 0
  | S last' => if comp_iter l pivot last then scan_down l pivot last' else last
  end.

(** [__unguarded_partition], stl_algo.h 1861-1877. *)
Fixpoint unguarded_partition_loop (fuel first last pivot : nat) (l : list A) : nat * list A :=
  match fuel with
  | 0 => (first, l)
  | S fuel' =>
      let first := scan_up (List.length l - first) l pivot first in
      let last := last - 1 in
      let last := scan_down l pivot last in
      if first <? last
      then unguarded_partition_loop fuel' (S first) last pivot (iter_swap first last l)
      else (first, l)
  end.

Definition unguarded_partition (first last pivot : nat) (l : list A) : nat * list A :=
  unguarded_partition_loop (S last) first last pivot l.

(** [__unguarded_partition_pivot], stl_algo.h 1883-1890. *)
Definition unguarded_partition_pivot (first last : nat) (l : list A) : nat * list A :=
  let mid := first + (last - first) / 2 in
  unguarded_partition (first + 1) last first
    (move_median_to_first first (first + 1) mid (last - 1) l).

(** [__push_heap], stl_heap.h 135-148. *)
Fixpoint push_heap_loop (fuel holeIndex topIndex : nat) (value : A) (l : list A) : list A :=
  match fuel with
  | 0 => assign holeIndex value l
  | S fuel' =>
      let parent := (holeIndex - 1) / 2 in
      match nth_error l parent with
      | Some p =>
          if (topIndex <? holeIndex) && comp p value
          then push_heap_loop fuel' parent topIndex value (assign holeIndex p l)
          else assign holeIndex value l
      | None => assign holeIndex value l
      end
  end.

Definition push_heap (holeIndex topIndex : nat) (value : A) (l : list A) : list A :=
  push_heap_loop holeIndex holeIndex topIndex value l.

(** The loop of [__adjust_heap], stl_heap.h 229-237. *)
Fixpoint adjust_heap_loop (fuel holeIndex secondChild len : nat) (l : list A)
    : nat * nat * list A :=
  match fuel with
  | 0 => (holeIndex, secondChild, l)
  | S fuel' =>
      if secondChild <? (len - 1) / 2 then
        let secondChild' := 2 * (secondChild + 1) in
        let secondChild' :=
          if comp_iter l secondChild' (secondChild' - 1) then secondChild' - 1
          else secondChild' in
        match nth_error l secondChild' with
        | Some child => adjust_heap_loop fuel' secondChild' secondChild' len
                                         (assign holeIndex child l)
        | None => (holeIndex, secondChild, l)
        end
      else (holeIndex, secondChild, l)
  end.

(** [__adjust_heap], stl_heap.h 224-249. *)
Definition adjust_heap (holeIndex len : nat) (value : A) (l : list A) : list A :=
  let topIndex := holeIndex in
  let '(holeIndex, secondChild, l) := adjust_heap_loop len holeIndex holeIndex len l in
  let '(holeIndex, l) :=
    if Nat.even len && (secondChild =? (len - 2) / 2) then
      let secondChild := 2 * (secondChild + 1) in
      match nth_error l (secondChild - 1) with
      | Some child => (secondChild - 1, assign holeIndex child l)
      | None => (holeIndex, l)
      end
    else (holeIndex, l) in
  push_heap holeIndex topIndex value l.

(** [__pop_heap], stl_heap.h 254-267, on the heap [[0, last)]. *)
Definition pop_heap (last result : nat) (l : list A) : list A :=
  match nth_error l result, nth_error l 0 with
  | Some value, Some top => adjust_heap 0 last value (assign result top l)
  | _, _ => l
  end.

(** [__make_heap], stl_heap.h 340-361. *)
Definition make_heap_step (parent len : nat) (l : list A) : list A :=
  match nth_error l parent with
  | Some value => adjust_heap parent len value l
  | None => l
  end.

Fixpoint make_heap_loop (parent len : nat) (l : list A) : list A :=
  match parent with
  | 0 => make_heap_step 0 len l
  | S parent' => make_heap_loop parent' len (make_heap_step parent len l)
  end.

Definition make_heap (last : nat) (l : list A) : list A :=
  if last <? 2 then l else make_heap_loop ((last - 2) / 2) last l.

(** [__sort_heap], stl_heap.h 419-427. *)
Fixpoint sort_heap (last : nat) (l : list A) : list A :=
  match last with
  | 0 => l
  | S last' => if 1 <? last then sort_heap last' (pop_heap last' last' l) else l
  end.

(** [__heap_select], stl_algo.h 1625-1634. *)
Definition heap_select (middle last : nat) (l : list A) : list A :=
  fold_left (fun l i => if comp_iter l i 0 then pop_heap middle i l else l)
            (seq middle (last - middle)) (make_heap middle l).

(** [__partial_sort], stl_algo.h 1895-1902, on the range [[first, last)] of
    the vector. *)
Definition partial_sort (first middle last : nat) (l : list A) : list A :=
  let range := firstn (last - first) (skipn first l) in
  firstn first l
  ++ sort_heap (middle - first) (heap_select (middle - first) (last - first) range)
  ++ skipn last l.

(** [_S_threshold], stl_algo.h 1838. *)
Definition S_threshold : nat := 16.

(** [__introsort_loop], stl_algo.h 1908-1925. *)
Fixpoint introsort_loop (depth_limit first last : nat) (l : list A) : list A :=
  if S_threshold <? last - first then
    match depth_limit with
    | 0 => partial_sort first last last l
    | S depth_limit' =>
        let '(cut, l) := unguarded_partition_pivot first last l in
        introsort_loop depth_limit' first cut (introsort_loop depth_limit' cut last l)
    end
  else l.

(** The loop of [__unguarded_linear_insert], stl_algo.h 1789-1794. *)
Fixpoint linear_insert_loop (val : A) (last : nat) (l : list A) : list A :=
  match last with
  | 0 => assign 0 val l
  | S next =>
      match nth_error l next with
      | Some y => if comp val y then linear_insert_loop val next (assign last y l)
                  else assign last val l
      | None => assign last val l
      end
  end.

(** [__unguarded_linear_insert], stl_algo.h 1782-1796. *)
Definition unguarded_linear_insert (last : nat) (l : list A) : list A :=
  match nth_error l last with
  | Some val => linear_insert_loop val last l
  | None => l
  end.

(** Lines 1811-1813 of [__insertion_sort]. *)
Definition move_to_first (first i : nat) (l : list A) : list A :=
  match nth_error l i with
  | Some val =>
      firstn first l ++ val :: firstn (i - first) (skipn first l) ++ skipn (i + 1) l
  | None => l
  end.

(** [__insertion_sort], stl_algo.h 1802-1820. *)
Definition insertion_sort (first last : nat) (l : list A) : list A :=
  if first =? last then l
  else
    fold_left (fun l i => if comp_iter l i first then move_to_first first i l
                          else unguarded_linear_insert i l)
              (seq (first + 1) (last - (first + 1))) l.

(** [__unguarded_insertion_sort], stl_algo.h 1826-1832. *)
Definition unguarded_insertion_sort (first last : nat) (l : list A) : list A :=
  fold_left (fun l i => unguarded_linear_insert i l) (seq first (last - first)) l.

(** [__final_insertion_sort], stl_algo.h 1844-1855. *)
Definition final_insertion_sort (first last : nat) (l : list A) : list A :=
  if S_threshold <? last - first then
    unguarded_insertion_sort (first + S_threshold) last
      (insertion_sort first (first + S_threshold) l)
  else insertion_sort first last l.

(** [__sort], stl_algo.h 1932-1942, on the whole vector. *)
Definition sort (l : list A) : list A :=
  let first := 0 in
  let last := List.length l in
  if first =? last then l
  else final_insertion_sort first last
         (introsort_loop (Nat.log2 (last - first) * 2) first last l).


(** *** The vector operations *)








Lemma assign_replaces (a y : A) (j : nat) (l : list A) :
  nth_error l j = Some y -> Permutation (a :: l) (y :: assign j a l).
Proof.
  revert j. induction l as [|b l IH]; intros [|j] H; simpl in *; try discriminate.
  - injection H as ->. apply perm_swap.
  - eapply perm_trans; [apply perm_swap|].
    eapply perm_trans; [apply perm_skip, (IH j H)|]. apply perm_swap.
Qed.

Lemma iter_swap_permutation (i j : nat) (l : list A) : Permutation (iter_swap i j l) l.
Proof.
  unfold iter_swap.
  destruct (nth_error l i) as [x|] eqn:Ei; [|apply Permutation_refl].
  destruct (nth_error l j) as [y|] eqn:Ej; [|apply Permutation_refl].
  revert i j Ei Ej. induction l as [|a l IH]; intros [|i] [|j] Ei Ej; simpl in *;
    try discriminate.
  - injection Ei as ->. apply Permutation_refl.
  - injection Ei as ->. symmetry. now apply assign_replaces.
  - injection Ej as ->. symmetry. now apply assign_replaces.
  - apply perm_skip. now apply IH.
Qed.



(** *** The partition *)

Lemma comp_iter_out_l (l : list A) (i j : nat) : List.length l <= i -> comp_iter l i j = false.
Proof.
  intros H. unfold comp_iter. apply nth_error_None in H. now rewrite H.
Qed.

(** [scan_up] stops at the end of the vector at the latest: more fuel than
    the elements left changes nothing. *)
Lemma scan_up_fuel (l : list A) (pivot : nat) (fuel1 fuel2 first : nat) :
  List.length l - first <= fuel1 -> List.length l - first <= fuel2 ->
  scan_up fuel1 l pivot first = scan_up fuel2 l pivot first.
Proof.
  revert fuel2 first. induction fuel1 as [|fuel1 IH]; intros [|fuel2] first H1 H2; simpl;
    try reflexivity.
  - rewrite comp_iter_out_l by lia. reflexivity.
  - rewrite comp_iter_out_l by lia. reflexivity.
  - destruct (comp_iter l first pivot); [|reflexivity]. apply IH; lia.
Qed.

Lemma scan_down_le (l : list A) (pivot last : nat) : scan_down l pivot last <= last.
Proof.
  induction last as [|last IH]; simpl; [lia|].
  destruct (comp_iter l pivot (S last)); lia.
Qed.

Lemma length_iter_swap (i j : nat) (l : list A) : List.length (iter_swap i j l) = List.length l.
Proof. apply Permutation_length, iter_swap_permutation. Qed.

(** Each round of [__unguarded_partition] lowers [last]: more rounds than
    [last] are never taken. *)
Lemma unguarded_partition_loop_fuel (pivot : nat) (fuel1 fuel2 first last : nat) (l : list A) :
  last < fuel1 -> last < fuel2 ->
  unguarded_partition_loop fuel1 first last pivot l =
  unguarded_partition_loop fuel2 first last pivot l.
Proof.
  revert fuel2 first last l.
  induction fuel1 as [|fuel1 IH]; intros [|fuel2] first last l H1 H2; try lia.
  cbn [unguarded_partition_loop].
  set (first' := scan_up (List.length l - first) l pivot first).
  set (last' := scan_down l pivot (last - 1)).
  pose proof (scan_down_le l pivot (last - 1)) as Hle. fold last' in Hle.
  destruct (first' <? last') eqn:E; [|reflexivity].
  apply Nat.ltb_lt in E. apply IH; lia.
Qed.



(** *** The heap *)


(** The hole of [__push_heap] rises at every round: more rounds than its
    index are never taken. *)
Lemma push_heap_loop_fuel (topIndex : nat) (value : A) (fuel1 fuel2 holeIndex : nat)
    (l : list A) :
  holeIndex <= fuel1 -> holeIndex <= fuel2 ->
  push_heap_loop fuel1 holeIndex topIndex value l =
  push_heap_loop fuel2 holeIndex topIndex value l.
Proof.
  revert fuel2 holeIndex l.
  induction fuel1 as [|fuel1 IH]; intros [|fuel2] holeIndex l H1 H2;
    cbn [push_heap_loop]; try reflexivity.
  - replace (topIndex <? holeIndex) with false by (symmetry; apply Nat.ltb_ge; lia).
    now destruct (nth_error l ((holeIndex - 1) / 2)).
  - replace (topIndex <? holeIndex) with false by (symmetry; apply Nat.ltb_ge; lia).
    now destruct (nth_error l ((holeIndex - 1) / 2)).
  - destruct (nth_error l ((holeIndex - 1) / 2)) as [p|]; [|reflexivity].
    destruct (topIndex <? holeIndex) eqn:E; [|reflexivity].
    destruct (comp p value); [|reflexivity]. cbn [andb].
    apply Nat.ltb_lt in E. pose proof (Nat.Div0.mul_div_le (holeIndex - 1) 2).
    apply IH; lia.
Qed.

(** The second child of [__adjust_heap] grows at every round and stays
    below [len]: more rounds than [len - secondChild] are never taken. *)
Lemma adjust_heap_loop_fuel (len : nat) (fuel1 fuel2 holeIndex secondChild : nat)
    (l : list A) :
  len - secondChild <= fuel1 -> len - secondChild <= fuel2 ->
  adjust_heap_loop fuel1 holeIndex secondChild len l =
  adjust_heap_loop fuel2 holeIndex secondChild len l.
Proof.
  revert fuel2 holeIndex secondChild l.
  pose proof (Nat.Div0.mul_div_le (len - 1) 2) as Hdiv.
  induction fuel1 as [|fuel1 IH]; intros [|fuel2] holeIndex secondChild l H1 H2;
    cbn [adjust_heap_loop]; try reflexivity.
  - replace (secondChild <? (len - 1) / 2) with false
      by (symmetry; apply Nat.ltb_ge; lia).
    reflexivity.
  - replace (secondChild <? (len - 1) / 2) with false
      by (symmetry; apply Nat.ltb_ge; lia).
    reflexivity.
  - destruct (secondChild <? (len - 1) / 2) eqn:E; [|reflexivity].
    apply Nat.ltb_lt in E.
    destruct (comp_iter l (2 * (secondChild + 1)) (2 * (secondChild + 1) - 1));
      (destruct (nth_error l _); [apply IH; lia | reflexivity]).
Qed.











(** *** The introsort loop *)



(** *** The insertion *)

























(** *** The laws of [std::sort] *)




End Sort.

(** Two vectors of numbered keys, sorted by descending key, and what the
    [std::sort] of libstdc++ returns for them, as the numbers of the
    elements.  The second vector uses up the depth limit, so that part of
    it goes through the heap sort: without the limit the elements would
    come out in another order. *)
Section Examples.
Local Open Scope nat_scope.

Definition by_descending_key (a b : nat * nat) : bool := snd b <? snd a.

Definition keys_35 : list nat :=
  [5; 3; 9; 3; 5; 1; 9; 7; 3; 5; 5; 2; 8; 8; 1; 4; 6; 3; 5; 9; 0; 2; 7; 7; 5; 3; 1;
   8; 6; 4; 2; 9; 5; 5; 3].

Definition keys_100 : list nat :=
  [1956; 1999; 1963; 1997; 1959; 1995; 1964; 1993; 1954; 1991; 1965; 1989; 1959;
   1987; 1965; 1985; 1957; 1983; 1966; 1981; 1960; 1980; 1979; 1979; 1954; 1955;
   1956; 1956; 1957; 1958; 1958; 1959; 1960; 1960; 1961; 1962; 1962; 1963; 1964;
   1964; 1965; 1966; 1955; 1961; 1957; 1961; 1955; 1962; 1958; 1963; 2000; 1998;
   1996; 1994; 1992; 1990; 1988; 1986; 1984; 1982; 1980; 1980; 1966; 1967; 1967;
   1968; 1968; 1969; 1968; 1969; 1969; 1970; 1970; 1971; 1970; 1971; 1971; 1972;
   1972; 1973; 1972; 1973; 1973; 1974; 1974; 1975; 1974; 1975; 1975; 1976; 1976;
   1977; 1976; 1977; 1977; 1978; 1978; 1979; 1978; 1967].

Example sort_35_keys :
  map fst (sort by_descending_key (combine (seq 0 35) keys_35)) =
  [2; 19; 6; 31; 27; 12; 13; 23; 22; 7; 16; 28; 24; 18; 0; 10; 9; 32; 4; 33; 15;
   29; 25; 34; 17; 8; 3; 1; 21; 11; 30; 26; 14; 5; 20].
Proof. vm_compute. reflexivity. Qed.

Example sort_100_keys_through_heap_sort :
  let vector := combine (seq 0 100) keys_100 in
  map fst (sort by_descending_key vector) =
  [50; 1; 51; 3; 52; 5; 53; 7; 54; 9; 55; 11; 56; 13; 57; 15; 58; 17; 59; 19; 21;
   61; 60; 22; 23; 97; 96; 98; 95; 93; 91; 94; 92; 89; 90; 85; 87; 88; 83; 86; 84;
   82; 79; 81; 77; 78; 80; 73; 75; 76; 71; 72; 74; 67; 69; 70; 65; 66; 68; 99; 63;
   64; 18; 41; 62; 10; 14; 40; 38; 39; 6; 49; 2; 37; 47; 35; 36; 43; 45; 34; 20;
   32; 33; 12; 4; 31; 29; 48; 30; 44; 16; 28; 27; 26; 0; 25; 42; 46; 24; 8] /\
  final_insertion_sort by_descending_key 0 100
    (introsort_loop by_descending_key 1000 0 100 vector) <>
  sort by_descending_key vector.
Proof.
  split; [vm_compute; reflexivity|].
  intros H. vm_compute in H. discriminate H.
Qed.

End Examples.

End Libstdcxx.


(** ** Specification-side notions *)

(** Strictly positive overlap of the [(w, d)] projections and of the
    heights, written on the propositions of [Q]. *)
Definition wd_overlap (a b : Position.t) : Prop :=
  ~ (ew a <= sw b + COORD_TOLERANCE \/ ew b <= sw a + COORD_TOLERANCE) /\
  ~ (ed a <= sd b + COORD_TOLERANCE \/ ed b <= sd a + COORD_TOLERANCE).

Definition h_overlap (a b : Position.t) : Prop :=
  ~ (eh a <= sh b + COORD_TOLERANCE \/ eh b <= sh a + COORD_TOLERANCE).

(** [joined(ids, sep)]: the ids with [sep] between consecutive ones. *)
Definition joined (ids : list string) (sep : string) : string := String.concat sep ids.

(** The sort keeps the input order of ties: for every priority, the items
    of that priority come out in the order they came in. *)
Definition keeps_input_order_of_ties (input output : list ItemData.t) : Prop :=
  forall p : Z,
    filter (fun x => Z.eqb (ItemData.priority x) p) output =
    filter (fun x => Z.eqb (ItemData.priority x) p) input.

(** [l1] is [l2] with some elements left out: the elements of [l1] occur
    in [l2] in the same order. *)
Inductive subsequence {A : Type} : list A -> list A -> Prop :=
| subsequence_nil : subsequence [] []
| subsequence_skip x l1 l2 : subsequence l1 l2 -> subsequence l1 (x :: l2)
| subsequence_keep x l1 l2 : subsequence l1 l2 -> subsequence (x :: l1) (x :: l2).

(** The vector a simulation map holds for a container; empty when the map
    has no entry for it. *)
Definition placements_in (container_id : string) (m : SMap.t (list PlacementInfo.t))
    : list PlacementInfo.t :=
  match SMap.find container_id m with
  | Some v => v
  | None => []
  end.

(** What [place_in_containers] commits for an item once it has a spot. *)
Definition new_placement (item_req : ItemData.t) (container_id : string) (pos : Position.t)
    : PlacementInfo.t :=
  PlacementInfo.mk (ItemData.itemId item_req) container_id pos (ItemData.priority item_req).

Definition new_result (item_req : ItemData.t) (container_id : string) (pos : Position.t)
    : PlacementResult.t :=
  PlacementResult.mk (ItemData.itemId item_req) container_id pos.

(** The live placements as public results: one per placement of the
    current map, under the container id it is filed under. *)
Definition as_result (container_id : string) (info : PlacementInfo.t) : PlacementResult.t :=
  PlacementResult.mk (PlacementInfo.itemId info) container_id (PlacementInfo.position info).

Definition live_results (current : SMap.t (list PlacementInfo.t)) : list PlacementResult.t :=
  flat_map (fun pair : string * list PlacementInfo.t => map (as_result (fst pair)) (snd pair))
           (SMap.elements current).

Definition live_item_ids (current : SMap.t (list PlacementInfo.t)) : list string :=
  map PlacementResult.itemId (live_results current).

(** [in_bounds(pos, container)]: the box lies in the cavity within the
    tolerance on every axis. *)
Definition in_bounds (pos : Position.t) (container : ContainerData.t) : Prop :=
  (- COORD_TOLERANCE <= sw pos /\ - COORD_TOLERANCE <= sd pos /\ - COORD_TOLERANCE <= sh pos) /\
  (ew pos <= ContainerData.width container + COORD_TOLERANCE /\
   ed pos <= ContainerData.depth container + COORD_TOLERANCE /\
   eh pos <= ContainerData.height container + COORD_TOLERANCE).

(** A box of positive extent on every axis. *)
Definition positive_box (pos : Position.t) : Prop :=
  sw pos < ew pos /\ sd pos < ed pos /\ sh pos < eh pos.

Definition positive_item (item : ItemData.t) : Prop :=
  0 < ItemData.width item /\ 0 < ItemData.depth item /\ 0 < ItemData.height item.

(** The placements of a vector other than the one of item [id]. *)
Definition others_in (id : string) (infos : list PlacementInfo.t) : list PlacementInfo.t :=
  filter (fun q => negb (String.eqb (PlacementInfo.itemId q) id)) infos.

(** The input invariants on the containers and the current placements:
    container ids are unique, item ids are unique, every placement is filed
    under a container of the request, lies within it, has positive extent,
    and overlaps no other placement of its container. *)
Definition valid_current (containers : list ContainerData.t)
    (current : SMap.t (list PlacementInfo.t)) : Prop :=
  NoDup (map ContainerData.containerId containers) /\
  NoDup (live_item_ids current) /\
  forall container_id infos,
    SMap.MapsTo container_id infos current ->
    exists c,
      In c containers /\ ContainerData.containerId c = container_id /\
      (forall p, In p infos ->
                 in_bounds (PlacementInfo.position p) c /\
                 positive_box (PlacementInfo.position p)) /\
      (forall p q, In p infos -> In q infos ->
                   PlacementInfo.itemId p <> PlacementInfo.itemId q ->
                   boxes_overlap (PlacementInfo.position p) (PlacementInfo.position q) = false).

(** Every current placement rests on the floor or on another placement of
    its container. *)
Definition stable_current (containers : list ContainerData.t)
    (current : SMap.t (list PlacementInfo.t)) : Prop :=
  forall container_id infos c p,
    SMap.MapsTo container_id infos current ->
    In c containers -> ContainerData.containerId c = container_id ->
    In p infos ->
    is_stable (PlacementInfo.position p) c (others_in (PlacementInfo.itemId p) infos) = true.

(** The input invariants on the incoming items: positive dimensions, and
    ids that no current placement carries. *)
Definition valid_items (items : list ItemData.t) (current : SMap.t (list PlacementInfo.t))
    : Prop :=
  forall item, In item items ->
               positive_item item /\ ~ In (ItemData.itemId item) (live_item_ids current).

(** A result read as a placement of the simulation (the priority plays no
    part in the geometry). *)
Definition as_info (r : PlacementResult.t) : PlacementInfo.t :=
  PlacementInfo.mk (PlacementResult.itemId r) (PlacementResult.containerId r)
                   (PlacementResult.position r) 50.

(** The other final placements in the container of [r]. *)
Definition others_of (r : PlacementResult.t) (placements : list PlacementResult.t)
    : list PlacementInfo.t :=
  map as_info
      (filter (fun r' => String.eqb (PlacementResult.containerId r') (PlacementResult.containerId r)
                         && negb (String.eqb (PlacementResult.itemId r') (PlacementResult.itemId r)))
              placements).

(** The three geometric invariants on the placements of an output. *)
Definition no_overlap_within_containers (placements : list PlacementResult.t) : Prop :=
  forall r1 r2,
    In r1 placements -> In r2 placements ->
    PlacementResult.containerId r1 = PlacementResult.containerId r2 ->
    PlacementResult.itemId r1 <> PlacementResult.itemId r2 ->
    boxes_overlap (PlacementResult.position r1) (PlacementResult.position r2) = false.

Definition all_in_bounds (containers : list ContainerData.t)
    (placements : list PlacementResult.t) : Prop :=
  forall r, In r placements ->
            exists c, In c containers /\
                      ContainerData.containerId c = PlacementResult.containerId r /\
                      in_bounds (PlacementResult.position r) c.

Definition all_stable (containers : list ContainerData.t)
    (placements : list PlacementResult.t) : Prop :=
  forall r, In r placements ->
            exists c, In c containers /\
                      ContainerData.containerId c = PlacementResult.containerId r /\
                      is_stable (PlacementResult.position r) c (others_of r placements) = true.

Definition box (w0 d0 h0 w1 d1 h1 : double) : Position.t :=
  Position.mk (Coordinates.mk w0 d0 h0) (Coordinates.mk w1 d1 h1).

(** ** Notions used in the proofs *)

(** The two ways the container loop ends.  [unchanged]: no spot anywhere,
    and the state is as before up to empty entries of the simulation map.
    [committed]: a spot in one container, written to the three parts of
    the state. *)
Definition unchanged (st st' : Sim) : Prop :=
  processed_item_ids st' = processed_item_ids st /\
  final_placements_map st' = final_placements_map st /\
  forall k, placements_in k (simulation_placements st') =
            placements_in k (simulation_placements st).

Definition committed (containers_map : SMap.t ContainerData.t) (item_req : ItemData.t)
    (container_ids : list string) (st st' : Sim) : Prop :=
  exists container_id pos ori,
    In container_id container_ids /\
    find_spot_in_container item_req (container_at container_id containers_map)
      (placements_in container_id (simulation_placements st)) (is_high_prio item_req)
    = Some (pos, ori) /\
    processed_item_ids st' = SSet.add (ItemData.itemId item_req) (processed_item_ids st) /\
    final_placements_map st' =
      SMap.add (ItemData.itemId item_req) (new_result item_req container_id pos)
               (final_placements_map st) /\
    placements_in container_id (simulation_placements st') =
      placements_in container_id (simulation_placements st)
      ++ [new_placement item_req container_id pos] /\
    forall k, k <> container_id ->
              placements_in k (simulation_placements st') =
              placements_in k (simulation_placements st).

Definition place_outcome (containers_map : SMap.t ContainerData.t) (item_req : ItemData.t)
    (container_ids : list string) (st : Sim) (placed : bool) (st' : Sim) : Prop :=
  if placed then committed containers_map item_req container_ids st st'
  else unchanged st st'.

(** The output after an item has failed in Phase 3 (lines 488-494). *)
Definition failed_output (output : PlacementOutput.t) (item_req : ItemData.t)
    : PlacementOutput.t :=
  PlacementOutput.mk false
    (match PlacementOutput.error output with
     | Some e => Some e
     | None => Some "Placement failed for one or more items."
     end)
    (PlacementOutput.placements output)
    (PlacementOutput.rearrangements output)
    (PlacementOutput.failedItemIds output ++ [ItemData.itemId item_req]).

(** The state after that item has been marked processed (line 490). *)
Definition mark_processed (item_req : ItemData.t) (st : Sim) : Sim :=
  mkSim (simulation_placements st)
        (SSet.add (ItemData.itemId item_req) (processed_item_ids st))
        (final_placements_map st).

Inductive phase1_outcome (containers_map : SMap.t ContainerData.t)
    (container_ids : list string) (st : Sim) (pass_2 : list ItemData.t)
    (item_req : ItemData.t) : Sim * list ItemData.t -> Prop :=
| phase1_skipped :
    SSet.In (ItemData.itemId item_req) (processed_item_ids st) ->
    phase1_outcome containers_map container_ids st pass_2 item_req (st, pass_2)
| phase1_placed st' :
    ~ SSet.In (ItemData.itemId item_req) (processed_item_ids st) ->
    committed containers_map item_req container_ids st st' ->
    phase1_outcome containers_map container_ids st pass_2 item_req (st', pass_2)
| phase1_queued st' :
    ~ SSet.In (ItemData.itemId item_req) (processed_item_ids st) ->
    unchanged st st' ->
    phase1_outcome containers_map container_ids st pass_2 item_req (st', pass_2 ++ [item_req]).

Inductive phase3_outcome (containers_map : SMap.t ContainerData.t)
    (container_ids : list string) (st : Sim) (output : PlacementOutput.t)
    (item_req : ItemData.t) : Sim * PlacementOutput.t -> Prop :=
| phase3_skipped :
    SSet.In (ItemData.itemId item_req) (processed_item_ids st) ->
    phase3_outcome containers_map container_ids st output item_req (st, output)
| phase3_placed st' :
    ~ SSet.In (ItemData.itemId item_req) (processed_item_ids st) ->
    committed containers_map item_req container_ids st st' ->
    phase3_outcome containers_map container_ids st output item_req (st', output)
| phase3_failed st' :
    ~ SSet.In (ItemData.itemId item_req) (processed_item_ids st) ->
    unchanged st st' ->
    phase3_outcome containers_map container_ids st output item_req
      (mark_processed item_req st', failed_output output item_req).

(** The output record between the iterations of Phase 3: either untouched,
    or marked failed with an error and at least one failed id. *)
Definition output_consistent (output : PlacementOutput.t) : Prop :=
  PlacementOutput.rearrangements output = [] /\
  PlacementOutput.placements output = [] /\
  ((PlacementOutput.failedItemIds output = [] /\
    PlacementOutput.success output = true /\
    PlacementOutput.error output = None) \/
   (PlacementOutput.failedItemIds output <> [] /\
    PlacementOutput.success output = false)).

(** Every entry of the final map is filed under the id it carries. *)
Definition key_ok (final : SMap.t PlacementResult.t) : Prop :=
  forall k v, SMap.MapsTo k v final -> PlacementResult.itemId v = k.

(** What is known of the processed ids: each is in the final map or among
    the failed ones. *)
Definition accounted (st : Sim) (failed : list string) : Prop :=
  key_ok (final_placements_map st) /\
  forall id, SSet.In id (processed_item_ids st) ->
             SMap.In id (final_placements_map st) \/ In id failed.

(** After Phase 1 an item is in the final map or in the backlog. *)
Definition covered1 (acc : Sim * list ItemData.t) (a : ItemData.t) : Prop :=
  SMap.In (ItemData.itemId a) (final_placements_map (fst acc)) \/ In a (snd acc).

(** After Phase 3 an item is in the final map or among the failed ids. *)
Definition covered3 (acc : Sim * PlacementOutput.t) (a : ItemData.t) : Prop :=
  SMap.In (ItemData.itemId a) (final_placements_map (fst acc)) \/
  In (ItemData.itemId a) (PlacementOutput.failedItemIds (snd acc)).

(** A result filed in the final map under its item id. *)
Definition add_result (final : SMap.t PlacementResult.t) (r : PlacementResult.t)
    : SMap.t PlacementResult.t :=
  SMap.add (PlacementResult.itemId r) r final.

(** What holds of the state between any two steps of Phases 1 and 3.
    Stability is kept when it held at entry ([stable_at_entry]); the other
    parts do not depend on it. *)
Record sim_inv (containers : list ContainerData.t) (live : list string)
    (stable_at_entry : Prop) (st : Sim) (failed : list string) : Prop := {
  inv_container : forall k p,
    In p (placements_in k (simulation_placements st)) -> In k (make_container_ids containers);
  inv_geometry : forall k p,
    In p (placements_in k (simulation_placements st)) ->
    in_bounds (PlacementInfo.position p) (container_at k (make_containers_map containers)) /\
    positive_box (PlacementInfo.position p);
  inv_overlap : forall k p q,
    In p (placements_in k (simulation_placements st)) ->
    In q (placements_in k (simulation_placements st)) ->
    PlacementInfo.itemId p <> PlacementInfo.itemId q ->
    boxes_overlap (PlacementInfo.position p) (PlacementInfo.position q) = false;
  inv_stable : stable_at_entry -> forall k p,
    In p (placements_in k (simulation_placements st)) ->
    is_stable (PlacementInfo.position p) (container_at k (make_containers_map containers))
              (others_in (PlacementInfo.itemId p) (placements_in k (simulation_placements st)))
    = true;
  inv_key : key_ok (final_placements_map st);
  inv_sim_final : forall k p,
    In p (placements_in k (simulation_placements st)) ->
    SMap.MapsTo (PlacementInfo.itemId p) (as_result k p) (final_placements_map st);
  inv_final_sim : forall id r,
    SMap.MapsTo id r (final_placements_map st) ->
    exists p,
      In p (placements_in (PlacementResult.containerId r) (simulation_placements st)) /\
      as_result (PlacementResult.containerId r) p = r;
  inv_ids : forall id,
    SMap.In id (final_placements_map st) -> In id live \/ SSet.In id (processed_item_ids st);
  inv_failed : forall id,
    In id failed ->
    SSet.In id (processed_item_ids st) /\ ~ SMap.In id (final_placements_map st)
}.

(** ** Concrete scenarios *)

(** Floor fit in an empty container. *)
Definition s1_C1 : ContainerData.t := ContainerData.mk "C1" "Z1" 10 10 10.
Definition s1_A : ItemData.t := ItemData.mk "A" "A" 2 3 1 0 50 None None (Some "Z1").

(** A low-priority item in the preferred container of a high-priority one. *)
Definition s4_C1 : ContainerData.t := ContainerData.mk "C1" "Z1" 4 4 4.
Definition s4_C2 : ContainerData.t := ContainerData.mk "C2" "Z2" 4 4 4.
Definition s4_L : PlacementInfo.t := PlacementInfo.mk "L" "C1" (box 0 0 0 4 4 1) 10.
Definition s4_H : ItemData.t := ItemData.mk "H" "H" 4 4 2 0 90 None None (Some "Z1").
Definition s4_current : SMap.t (list PlacementInfo.t) :=
  SMap.add "C1" [s4_L] (SMap.empty _).

(** The same item with high priority; stacking on a full floor; a
    container too small for the item; a preferred zone no container has. *)
Definition s2_A : ItemData.t := ItemData.mk "A" "A" 2 3 1 0 80 None None (Some "Z1").
Definition s3_B : PlacementInfo.t := PlacementInfo.mk "B" "C1" (box 0 0 0 4 4 1) 50.
Definition s3_A : ItemData.t := ItemData.mk "A" "A" 2 2 1 0 80 None None None.
Definition s5_C1 : ContainerData.t := ContainerData.mk "C1" "Z1" 1 1 1.
Definition s5_A : ItemData.t := ItemData.mk "A" "A" 2 2 2 0 50 None None None.
Definition s6_C1 : ContainerData.t := ContainerData.mk "C1" "Z1" 5 5 5.
Definition s6_C2 : ContainerData.t := ContainerData.mk "C2" "Z2" 5 5 5.
Definition s6_A : ItemData.t := ItemData.mk "A" "A" 1 1 1 0 50 None None (Some "Z3").

(** A current placement that hangs in mid-air, alone in its container. *)
Definition air_X : PlacementInfo.t := PlacementInfo.mk "X" "C1" (box 0 0 5 1 1 6) 50.
Definition air_current : SMap.t (list PlacementInfo.t) :=
  SMap.add "C1" [air_X] (SMap.empty _).

(** An item with a dimension that is not positive, and a current placement
    filed under a container that is not part of the request. *)
Definition flat_item : ItemData.t := ItemData.mk "F" "F" 0 1 1 0 50 None None None.
Definition dangling_current : SMap.t (list PlacementInfo.t) :=
  SMap.add "C9" [PlacementInfo.mk "X" "C9" (box 0 0 0 1 1 1) 50] (SMap.empty _).



(** ** Tolerance equality of [placement_logic.h] *)

(** [Coordinates::operator==] and [operator!=], lines 30-37. *)
Definition Coordinates_eqb (a b : Coordinates.t) : bool :=
  ltb (Qabs (Coordinates.width a - Coordinates.width b)) COORD_TOLERANCE
  && ltb (Qabs (Coordinates.depth a - Coordinates.depth b)) COORD_TOLERANCE
  && ltb (Qabs (Coordinates.height a - Coordinates.height b)) COORD_TOLERANCE.

Definition Coordinates_neqb (a b : Coordinates.t) : bool := negb (Coordinates_eqb a b).

(** [Position::operator==] and [operator!=], lines 46-52. *)
Definition Position_eqb (a b : Position.t) : bool :=
  Coordinates_eqb (Position.startCoordinates a) (Position.startCoordinates b)
  && Coordinates_eqb (Position.endCoordinates a) (Position.endCoordinates b).

Definition Position_neqb (a b : Position.t) : bool := negb (Position_eqb a b).

(** ** The worker of [main.cpp]: connection string and current placements *)

(** What [std::getenv] answers for the five variables the worker reads:
    [None] is the null pointer of an unset variable. *)
Module Env.
Record t := mk {
  DB_HOST : option string;
  DB_PORT : option string;
  DB_NAME : option string;
  DB_USER : option string;
  DB_PASSWORD : option string
}.
End Env.

(** [std::string::back] and [std::string::pop_back] (on a non-empty
    string; the source calls them behind an emptiness test). *)
Fixpoint string_back (s : string) : option ascii :=
  match s with
  | EmptyString => None
  | String a EmptyString => Some a
  | String _ s' => string_back s'
  end.

Fixpoint string_pop_back (s : string) : string :=
  match s with
  | EmptyString => EmptyString
  | String _ EmptyString => EmptyString
  | String a s' => String a (string_pop_back s')
  end.

Definition string_empty (s : string) : bool :=
  match s with EmptyString => true | String _ _ => false end.

(** [if (value) connection_string += key + std::string(value) + " "]. *)
Definition append_setting (key : string) (value : option string) (connection_string : string)
    : string :=
  match value with
  | Some v => String.append connection_string (String.append (String.append key v) " ")
  | None => connection_string
  end.

Definition default_connection_string : string :=
  "dbname=placement_db user=placement_user password=secret host=localhost port=5432".

(** [get_db_connection_string], main.cpp lines 21-45. *)
Definition get_db_connection_string (env : Env.t) : string :=
  let connection_string := "" in
  let connection_string := append_setting "host=" (Env.DB_HOST env) connection_string in
  let connection_string := append_setting "port=" (Env.DB_PORT env) connection_string in
  let connection_string := append_setting "dbname=" (Env.DB_NAME env) connection_string in
  let connection_string := append_setting "user=" (Env.DB_USER env) connection_string in
  let connection_string := append_setting "password=" (Env.DB_PASSWORD env) connection_string in
  if string_empty connection_string then default_connection_string
  else if negb (string_empty connection_string)
          && match string_back connection_string with
             | Some c => Ascii.eqb c " "
             | None => false
             end
  then string_pop_back connection_string
  else connection_string.

(** [txn.quote] is library code: it is a parameter of the functions that
    call it.  The database answers a query with rows: the function [exec]
    from the text of the query to its rows stands for [txn.exec]. *)

(** A row of the query of [fetch_current_placements], with its columns
    already converted ([row[...].as<T>()]). *)
Module PlacementRow.
Record t := mk {
  containerId_fk : string;
  itemId_fk : string;
  start_w : double;
  start_d : double;
  start_h : double;
  end_w : double;
  end_d : double;
  end_h : double;
  priority : Z
}.
End PlacementRow.

(** Lines 60-67: the quoted container ids, a comma after each but the
    last. *)
Fixpoint container_id_list (quote : string -> string)
    (relevant_containers : list ContainerData.t) : string :=
  match relevant_containers with
  | [] => ""
  | c :: rest =>
      String.append
        (String.append (quote (ContainerData.containerId c))
                       (match rest with [] => "" | _ :: _ => "," end))
        (container_id_list quote rest)
  end.

(** The two raw string literals of lines 71-80. *)
Definition fetch_sql_head : string := "
        SELECT
            p.containerId_fk, p.itemId_fk,
            p.start_w, p.start_d, p.start_h,
            p.end_w, p.end_d, p.end_h,
            COALESCE(i.priority, 50) as priority -- Default priority if item somehow missing?
        FROM placements p
        LEFT JOIN items i ON p.itemId_fk = i.itemId
        WHERE p.containerId_fk IN (".

Definition fetch_sql_tail : string := ");
    ".

Definition fetch_sql (quote : string -> string) (relevant_containers : list ContainerData.t)
    : string :=
  String.append fetch_sql_head
    (String.append (container_id_list quote relevant_containers) fetch_sql_tail).

(** The [PlacementInfo] built from a row, lines 86-100. *)
Definition info_of_row (row : PlacementRow.t) : PlacementInfo.t :=
  PlacementInfo.mk
    (PlacementRow.itemId_fk row)
    (PlacementRow.containerId_fk row)
    (Position.mk
       (Coordinates.mk (PlacementRow.start_w row) (PlacementRow.start_d row)
                       (PlacementRow.start_h row))
       (Coordinates.mk (PlacementRow.end_w row) (PlacementRow.end_d row)
                       (PlacementRow.end_h row)))
    (PlacementRow.priority row).

(** Lines 85-103: the rows filed under their container id, in row order. *)
Definition group_rows (rows : list PlacementRow.t) : SMap.t (list PlacementInfo.t) :=
  fold_left
    (fun current_placements row =>
       let container_id := PlacementRow.containerId_fk row in
       let '(v, m) := subscript container_id current_placements in
       SMap.add container_id (v ++ [info_of_row row]) m)
    rows (SMap.empty _).

(** [fetch_current_placements], main.cpp lines 49-107.  With no relevant
    container the function returns before the query. *)
Definition fetch_current_placements (quote : string -> string)
    (exec : string -> list PlacementRow.t) (relevant_containers : list ContainerData.t)
    : SMap.t (list PlacementInfo.t) :=
  match relevant_containers with
  | [] => SMap.empty _
  | _ :: _ => group_rows (exec (fetch_sql quote relevant_containers))
  end.

(** The calls [store_placement_results] and [main] make on a transaction,
    with the parameters they pass. *)
Inductive SqlParam : Type :=
| PString (s : string)
| PInt (n : Z)
| PDouble (x : double)
| POptString (s : option string)
| POptDouble (x : option double).

Inductive TxnCall : Type :=
| exec0 (sql : string)
| prepare (name sql : string)
| exec_prepared (name : string) (params : list SqlParam)
| exec_params (sql : string) (params : list SqlParam)
| exec_query (sql : string)
| commit.

(** The raw string literals of lines 124-129 and 144-156. *)
Definition insert_placements_sql : string := "
            INSERT INTO job_results_placements (
                job_id, item_id_fk, container_id_fk,
                start_w, start_d, start_h, end_w, end_d, end_h
            ) VALUES ($1, $2, $3, $4, $5, $6, $7, $8, $9);
        ".

Definition insert_rearrangements_sql : string := "
            INSERT INTO job_results_rearrangements (
                job_id, step, action, item_id,
                from_container,
                from_pos_start_w, from_pos_start_d, from_pos_start_h,
                from_pos_end_w, from_pos_end_d, from_pos_end_h,
                to_container,
                to_pos_start_w, to_pos_start_d, to_pos_start_h,
                to_pos_end_w, to_pos_end_d, to_pos_end_h
            ) VALUES ($1, $2, $3, $4, $5, $6, $7, $8, $9, $10, $11, $12, $13, $14, $15, $16, $17, $18);
        ".

(** Lines 133-139: the parameters of one placement row. *)
Definition placement_params (job_id : string) (p : PlacementResult.t) : list SqlParam :=
  [ PString job_id; PString (PlacementResult.itemId p); PString (PlacementResult.containerId p);
    PDouble (sw (PlacementResult.position p)); PDouble (sd (PlacementResult.position p));
    PDouble (sh (PlacementResult.position p));
    PDouble (ew (PlacementResult.position p)); PDouble (ed (PlacementResult.position p));
    PDouble (eh (PlacementResult.position p)) ].

(** Lines 159-178: the parameters of one rearrangement row; the six
    coordinates of the origin are absent when [fromPosition] is. *)
Definition rearrangement_params (job_id : string) (r : RearrangementStep.t) : list SqlParam :=
  let from := RearrangementStep.fromPosition r in
  [ PString job_id; PInt (RearrangementStep.step r); PString (RearrangementStep.action r);
    PString (RearrangementStep.itemId r);
    POptString (RearrangementStep.fromContainer r);
    POptDouble (option_map sw from); POptDouble (option_map sd from);
    POptDouble (option_map sh from);
    POptDouble (option_map ew from); POptDouble (option_map ed from);
    POptDouble (option_map eh from);
    PString (RearrangementStep.toContainer r);
    PDouble (sw (RearrangementStep.toPosition r)); PDouble (sd (RearrangementStep.toPosition r));
    PDouble (sh (RearrangementStep.toPosition r));
    PDouble (ew (RearrangementStep.toPosition r)); PDouble (ed (RearrangementStep.toPosition r));
    PDouble (eh (RearrangementStep.toPosition r)) ].

(** [store_placement_results], main.cpp lines 110-184, as the list of the
    calls it makes on the transaction, in order. *)
Definition store_placement_results (quote : string -> string) (job_id : string)
    (results : PlacementOutput.t) : list TxnCall :=
  [ exec0 (String.append "DELETE FROM job_results_placements WHERE job_id = " (quote job_id));
    exec0 (String.append "DELETE FROM job_results_rearrangements WHERE job_id = "
                         (quote job_id)) ]
  ++ (match PlacementOutput.placements results with
      | [] => []
      | _ :: _ =>
          prepare "insert_placement" insert_placements_sql
          :: map (fun p => exec_prepared "insert_placement" (placement_params job_id p))
                 (PlacementOutput.placements results)
      end)
  ++ (match PlacementOutput.rearrangements results with
      | [] => []
      | _ :: _ =>
          prepare "insert_rearrangement" insert_rearrangements_sql
          :: map (fun r => exec_prepared "insert_rearrangement" (rearrangement_params job_id r))
                 (PlacementOutput.rearrangements results)
      end).

(** Lines 285-290 of [main]: the status update of a processed job. *)
Definition update_sql : string :=
  "UPDATE placement_jobs SET status = $1, error_message = $2, updated_at = NOW() WHERE job_id = $3".

Definition final_status (placement_results : PlacementOutput.t) : string :=
  if PlacementOutput.success placement_results then "COMPLETED" else "FAILED".

(** The query [fetch_current_placements] sends, when it sends one. *)
Definition fetch_calls (quote : string -> string) (relevant_containers : list ContainerData.t)
    : list TxnCall :=
  match relevant_containers with
  | [] => []
  | _ :: _ => [exec_query (fetch_sql quote relevant_containers)]
  end.

(** Steps 2 to 6 of the processing of one job in [main] (lines 266-297),
    for a request already parsed into [request_items] and
    [request_containers], on the path where nothing throws: the calls made
    on the processing transaction, in order, and the result of the
    engine. *)
Definition process_job `{StdSort} (quote : string -> string)
    (exec : string -> list PlacementRow.t) (current_job_id : string)
    (request_items : list ItemData.t) (request_containers : list ContainerData.t)
    : list TxnCall * PlacementOutput.t :=
  let current_placements := fetch_current_placements quote exec request_containers in
  let placement_results :=
    suggest_placements_cpp request_items request_containers current_placements in
  (fetch_calls quote request_containers
   ++ store_placement_results quote current_job_id placement_results
   ++ [ exec_params update_sql
          [ PString (final_status placement_results);
            POptString (PlacementOutput.error placement_results);
            PString current_job_id ];
        commit ],
   placement_results).

(** ** Further notions used in the statements *)

(** An orientation that is not skipped at line 240: it is within the
    container, up to the tolerance, on every axis. *)
Definition orientation_fits (container : ContainerData.t) (orientation : Orientation) : Prop :=
  let '(item_w, item_d, item_h) := orientation in
  item_w <= ContainerData.width container + COORD_TOLERANCE /\
  item_d <= ContainerData.depth container + COORD_TOLERANCE /\
  item_h <= ContainerData.height container + COORD_TOLERANCE.

(** An item none of whose orientations is within the container. *)
Definition fits_nowhere_in (item : ItemData.t) (container : ContainerData.t) : Prop :=
  forall orientation, In orientation (orientations item) -> ~ orientation_fits container orientation.

(** The first depth the search tries in a container for an extent
    [item_d]: the front for a high-priority item, one depth step before
    the back wall otherwise, clamped (lines 258-263 at [d_idx = 0]). *)
Definition first_depth (container : ContainerData.t) (item_d : double) (is_high_priority : bool)
    : double :=
  let cd := ContainerData.depth container in
  let depth_increment := std_max (cd / 25) (2 # 100) in
  std_max 0 (std_min (if is_high_priority
                      then inject_Z 0 * depth_increment
                      else cd - inject_Z (Z.add 0 1) * depth_increment)
                     (cd - item_d)).

(** The container the loop of [place_in_containers] stops at: the first
    one, in the order of [container_ids], that is eligible and where the
    finder has a spot for the item in the given simulation. *)
Fixpoint first_fit (eligible : ContainerData.t -> bool)
    (containers_map : SMap.t ContainerData.t) (item_req : ItemData.t)
    (container_ids : list string) (simulation : SMap.t (list PlacementInfo.t))
    : option (string * Position.t) :=
  match container_ids with
  | [] => None
  | container_id :: rest =>
      let container := container_at container_id containers_map in
      match (if eligible container
             then find_spot_in_container item_req container
                    (placements_in container_id simulation) (is_high_prio item_req)
             else None) with
      | Some (pos, _) => Some (container_id, pos)
      | None => first_fit eligible containers_map item_req rest simulation
      end
  end.

(** A placement of the output that the engine made for an incoming item:
    it carries the item's id, sits in a container of the request and spans
    one of the six orientations of the item. *)
Definition placed_by_engine (items : list ItemData.t) (containers : list ContainerData.t)
    (r : PlacementResult.t) : Prop :=
  exists item iw id ih,
    In item items /\ PlacementResult.itemId r = ItemData.itemId item /\
    In (PlacementResult.containerId r) (make_container_ids containers) /\
    In (iw, id, ih) (orientations item) /\
    ew (PlacementResult.position r) = sw (PlacementResult.position r) + iw /\
    ed (PlacementResult.position r) = sd (PlacementResult.position r) + id /\
    eh (PlacementResult.position r) = sh (PlacementResult.position r) + ih.

(** The four nested loops of [find_spot_in_container], innermost first,
    as functions of their own (used to reason about the search one loop at
    a time; [find_spot_in_container_as_loops] relates them to the
    function). *)
Definition width_loop (container : ContainerData.t) (placed : list PlacementInfo.t)
    (orientation : Orientation) (item_w item_d item_h start_d start_h : double)
    : option (Position.t * Orientation) :=
  let cw := ContainerData.width container in
  let width_increment := std_max (cw / 25) (2 # 100) in
  first_some
    (fun w_idx =>
       let start_w := std_max 0 (std_min (inject_Z w_idx * width_increment) (cw - item_w)) in
       if ltb (cw + COORD_TOLERANCE) (start_w + item_w) then None
       else check_candidate container placed orientation
              (candidate start_w start_d start_h item_w item_d item_h))
    (int_range (Z.add (to_int (cw / width_increment)) 2)).

Definition depth_loop (container : ContainerData.t) (placed : list PlacementInfo.t)
    (is_high_priority : bool) (orientation : Orientation)
    (item_w item_d item_h start_h : double) : option (Position.t * Orientation) :=
  let cd := ContainerData.depth container in
  let depth_increment := std_max (cd / 25) (2 # 100) in
  first_some
    (fun d_idx =>
       let start_d :=
         std_max 0 (std_min (if is_high_priority
                             then inject_Z d_idx * depth_increment
                             else cd - inject_Z (Z.add d_idx 1) * depth_increment)
                            (cd - item_d)) in
       if ltb (cd + COORD_TOLERANCE) (start_d + item_d) then None
       else width_loop container placed orientation item_w item_d item_h start_d start_h)
    (int_range (Z.add (to_int (cd / depth_increment)) 2)).

Definition height_loop (container : ContainerData.t) (placed : list PlacementInfo.t)
    (is_high_priority : bool) (orientation : Orientation) (item_w item_d item_h : double)
    : option (Position.t * Orientation) :=
  first_some
    (fun start_h =>
       if ltb (ContainerData.height container + COORD_TOLERANCE) (start_h + item_h) then None
       else depth_loop container placed is_high_priority orientation item_w item_d item_h start_h)
    (base_heights placed).

Definition orientation_loop_body (container : ContainerData.t) (placed : list PlacementInfo.t)
    (is_high_priority : bool) (orientation : Orientation) : option (Position.t * Orientation) :=
  let '(item_w, item_d, item_h) := orientation in
  if ltb (ContainerData.width container + COORD_TOLERANCE) item_w
     || ltb (ContainerData.depth container + COORD_TOLERANCE) item_d
     || ltb (ContainerData.height container + COORD_TOLERANCE) item_h
  then None
  else height_loop container placed is_high_priority orientation item_w item_d item_h.

(** * Properties *)

(** ** Comparisons *)

Lemma leb_le (x y : double) : leb x y = true <-> x <= y.
Proof. apply Qle_bool_iff. Qed.

Lemma leb_gt (x y : double) : leb x y = false <-> y < x.
Proof.
  unfold leb. split; intros H.
  - apply Qnot_le_lt. intros Hle. apply Qle_bool_iff in Hle. congruence.
  - destruct (Qle_bool x y) eqn:E; [|reflexivity].
    apply Qle_bool_iff in E. exfalso. now apply (Qlt_not_le y x).
Qed.

Lemma ltb_lt (x y : double) : ltb x y = true <-> x < y.
Proof. unfold ltb. rewrite negb_true_iff. apply leb_gt. Qed.

Lemma ltb_ge (x y : double) : ltb x y = false <-> y <= x.
Proof. unfold ltb. rewrite negb_false_iff. apply leb_le. Qed.

Lemma std_max_lower (a b : double) : a <= std_max a b.
Proof.
  unfold std_max. destruct (ltb a b) eqn:E.
  - apply ltb_lt in E. now apply Qlt_le_weak.
  - apply Qle_refl.
Qed.

(** ** Loops *)

Lemma fold_left_invariant {A B : Type} (P : B -> Prop) (f : B -> A -> B) (l : list A) :
  forall b, P b -> (forall b a, In a l -> P b -> P (f b a)) -> P (fold_left f l b).
Proof.
  induction l as [|x l IH]; simpl; intros b Hb Hstep; [exact Hb|].
  apply IH.
  - apply Hstep; [now left | exact Hb].
  - intros b' a Ha. apply Hstep. now right.
Qed.

Lemma first_some_found {A B : Type} (body : A -> option B) (l : list A) (y : B) :
  first_some body l = Some y -> exists x, In x l /\ body x = Some y.
Proof.
  induction l as [|x l IH]; simpl; [discriminate|].
  destruct (body x) as [y'|] eqn:E.
  - intros [= <-]. exists x. auto.
  - intros H. destruct (IH H) as (x' & Hin & Hx'). exists x'. auto.
Qed.

(** ** Geometry *)

Lemma supports_true_iff (pos : Position.t) (q : PlacementInfo.t) :
  supports pos q = true <->
  Qabs (eh (PlacementInfo.position q) - sh pos) < COORD_TOLERANCE /\
  wd_overlap pos (PlacementInfo.position q).
Proof.
  unfold supports, wd_overlap.
  destruct (ltb (Qabs (eh (PlacementInfo.position q) - sh pos)) COORD_TOLERANCE) eqn:E.
  - apply ltb_lt in E.
    rewrite andb_true_iff, !negb_true_iff, !orb_false_iff, !leb_gt.
    split.
    + intros [[H1 H2] [H3 H4]]. split; [exact E|].
      split; intros [H|H]; lra.
    + intros [_ [Hw Hd]]. repeat split; apply Qnot_le_lt; tauto.
  - split; [discriminate|]. intros [H _]. apply ltb_lt in H. congruence.
Qed.

Lemma is_stable_true_iff (pos : Position.t) (c : ContainerData.t) (placed : list PlacementInfo.t) :
  is_stable pos c placed = true <->
  Qabs (sh pos) < COORD_TOLERANCE \/
  exists q, In q placed /\
            Qabs (eh (PlacementInfo.position q) - sh pos) < COORD_TOLERANCE /\
            wd_overlap pos (PlacementInfo.position q).
Proof.
  unfold is_stable. destruct (ltb (Qabs (sh pos)) COORD_TOLERANCE) eqn:E.
  - apply ltb_lt in E. tauto.
  - rewrite existsb_exists. split.
    + intros (q & Hin & Hq). right. exists q. split; [exact Hin|].
      now apply supports_true_iff.
    + intros [H | (q & Hin & Hq)].
      * apply ltb_lt in H. congruence.
      * exists q. split; [exact Hin|]. now apply supports_true_iff.
Qed.

Lemma boxes_overlap_true_iff (a b : Position.t) :
  boxes_overlap a b = true <-> wd_overlap a b /\ h_overlap a b.
Proof.
  unfold boxes_overlap, wd_overlap, h_overlap.
  rewrite negb_true_iff, !orb_false_iff, !leb_gt. split.
  - intros [[[H1 H2] [H3 H4]] [H5 H6]].
    repeat split; intros [H|H]; lra.
  - intros [[Hw Hd] Hh]. repeat split; apply Qnot_le_lt; tauto.
Qed.

Lemma boxes_overlap_sym (a b : Position.t) : boxes_overlap a b = boxes_overlap b a.
Proof.
  unfold boxes_overlap.
  rewrite (orb_comm (leb (ew a) _)), (orb_comm (leb (ed a) _)), (orb_comm (leb (eh a) _)).
  reflexivity.
Qed.

(** C2.  [is_stable] answers true exactly when the candidate starts on the
    floor (within the tolerance) or some placed item has its top at the
    candidate's base (within the tolerance) and a [(w, d)] projection that
    overlaps the candidate's with positive area; that overlap is the width
    and depth part of [boxes_overlap]; and the criterion is not the "centre
    of the base within the footprint" test of the superseded definition,
    which rejects a candidate this one accepts. *)
Theorem C2_is_stable_floor_or_support :
  (forall pos c placed,
      is_stable pos c placed = true <->
      Qabs (sh pos) < COORD_TOLERANCE \/
      exists q, In q placed /\
                Qabs (eh (PlacementInfo.position q) - sh pos) < COORD_TOLERANCE /\
                wd_overlap pos (PlacementInfo.position q)) /\
  (forall a b, boxes_overlap a b = true <-> wd_overlap a b /\ h_overlap a b) /\
  (exists pos c placed,
      is_stable pos c placed = true /\ is_stable_centre pos c placed = false).
Proof.
  split; [exact is_stable_true_iff|].
  split; [exact boxes_overlap_true_iff|].
  exists (box 3 3 1 5 5 2), s4_C1, [PlacementInfo.mk "Q" "C1" (box 0 0 0 (7 # 2) (7 # 2) 1) 50].
  split; reflexivity.
Qed.

(** ** The sorted list of incoming items *)


Lemma sorted_incoming_items_nil `{StdSort} : sorted_incoming_items [] = [].
Proof.
  unfold sorted_incoming_items. apply Permutation_nil, std_sort_permutation.
Qed.

Lemma sorted_incoming_items_singleton `{StdSort} (x : ItemData.t) :
  sorted_incoming_items [x] = [x].
Proof.
  unfold sorted_incoming_items. apply Permutation_length_1_inv, std_sort_permutation.
Qed.

(** The engine depends on the sorting function through the sorted list only. *)
Lemma suggest_placements_cpp_sorted (S1 S2 : StdSort) items containers current :
  @sorted_incoming_items S1 items = @sorted_incoming_items S2 items ->
  @suggest_placements_cpp S1 items containers current =
  @suggest_placements_cpp S2 items containers current.
Proof. unfold suggest_placements_cpp. intros ->. reflexivity. Qed.

(** The stable insertion sort keeps the input order of ties. *)
Lemma stable_sort_keeps_ties (items : list ItemData.t) :
  keeps_input_order_of_ties items (@sorted_incoming_items StableStdSort items).
Proof.
  intros p. unfold sorted_incoming_items. cbn [std_sort StableStdSort].
  unfold stable_sort, insertion_sort_by.
  induction items as [|x items IH]; [reflexivity|].
  cbn [fold_right filter]. rewrite <- IH.
  generalize (fold_right (insert_by (fun x y => negb (higher_priority_first y x))) [] items).
  intros l. induction l as [|y l IHl]; [reflexivity|].
  cbn [insert_by]. unfold higher_priority_first at 1.
  destruct (Z.ltb (ItemData.priority x) (ItemData.priority y)) eqn:E; cbn [negb].
  - cbn [filter]. rewrite IHl. apply Z.ltb_lt in E.
    destruct (Z.eqb_spec (ItemData.priority x) p), (Z.eqb_spec (ItemData.priority y) p);
      try reflexivity. lia.
  - reflexivity.
Qed.

(** ** Scenarios *)

(** C3, as the code has it.  One empty container C1 (10, 10, 10) in zone
    Z1 and one item A (2, 3, 1) of priority 50 preferring Z1: the engine
    succeeds, proposes no rearrangement and places A in C1 at
    (0, 7, 0)-(2, 10, 1).  That spot is the first of the search order: the
    first orientation (2, 3, 1), the first base height 0, the first depth
    candidate (the depth step is 0.4, the candidate 9.6, and its clamp to
    [10 - 3] gives 7) and the first width candidate 0 already pass the
    checks. *)
Theorem C3_floor_fit_at_back :
  forall S : StdSort,
    suggest_placements_cpp [s1_A] [s1_C1] (SMap.empty _) =
      PlacementOutput.mk true None [PlacementResult.mk "A" "C1" (box 0 7 0 2 10 1)] [] [] /\
    find_spot_in_container s1_A s1_C1 [] (is_high_prio s1_A) =
      Some (box 0 7 0 2 10 1, (2, 3, 1)) /\
    (hd_error (orientations s1_A) = Some (2, 3, 1) /\
     hd_error (base_heights []) = Some 0 /\
     check_candidate s1_C1 [] (2, 3, 1) (candidate 0 7 0 2 3 1) =
       Some (box 0 7 0 2 10 1, (2, 3, 1))) /\
    (std_max (10 / 25) (2 # 100) == 4 # 10 /\
     10 - inject_Z (0 + 1) * std_max (10 / 25) (2 # 100) == 96 # 10 /\
     std_max 0 (std_min (10 - inject_Z (0 + 1) * std_max (10 / 25) (2 # 100)) (10 - 3)) = 7 /\
     std_max 0 (std_min (inject_Z 0 * std_max (10 / 25) (2 # 100)) (10 - 2)) = 0).
Proof.
  intros S. split.
  - rewrite (suggest_placements_cpp_sorted S StableStdSort)
      by now rewrite !sorted_incoming_items_singleton.
    vm_compute. reflexivity.
  - repeat split; vm_compute; reflexivity.
Qed.

(** C3, as stated, fails: the placement of A is not (0,0,0)-(2,3,1). *)
Lemma C3_not_at_origin :
  PlacementOutput.placements
    (@suggest_placements_cpp StableStdSort [s1_A] [s1_C1] (SMap.empty _))
  <> [PlacementResult.mk "A" "C1" (box 0 0 0 2 3 1)].
Proof. vm_compute. intros H. discriminate H. Qed.

(** C4, as the code has it.  With L (4, 4, 1) at the bottom of C1 and H
    (4, 4, 2) of priority 90 preferring the zone of C1, Phase 1 stacks H on
    top of L: the output has no rearrangement step, L stays in C1 at
    (0,0,0)-(4,4,1), H is placed in C1 at (0,0,1)-(4,4,3), and nothing goes
    to C2. *)
Theorem C4_stacked_without_rearrangement :
  forall S : StdSort,
    suggest_placements_cpp [s4_H] [s4_C1; s4_C2] s4_current =
      PlacementOutput.mk true None
        [PlacementResult.mk "H" "C1" (box 0 0 1 4 4 3);
         PlacementResult.mk "L" "C1" (box 0 0 0 4 4 1)]
        [] [].
Proof.
  intros S.
  rewrite (suggest_placements_cpp_sorted S StableStdSort)
    by now rewrite !sorted_incoming_items_singleton.
  vm_compute. reflexivity.
Qed.

(** C4, as stated, fails: the output has no rearrangement step at all. *)
Lemma C4_no_move_step :
  ~ exists r : RearrangementStep.t,
      PlacementOutput.rearrangements
        (@suggest_placements_cpp StableStdSort [s4_H] [s4_C1; s4_C2] s4_current) = [r] /\
      RearrangementStep.step r = 1%Z /\
      RearrangementStep.action r = "move" /\
      RearrangementStep.fromContainer r = Some "C1" /\
      RearrangementStep.toContainer r = "C2".
Proof. intros (r & H & _). vm_compute in H. discriminate H. Qed.

(** The other reference scenarios, evaluated on the embedding. *)

Example scenario_high_priority_front :
  @suggest_placements_cpp StableStdSort [s2_A] [s1_C1] (SMap.empty _) =
    PlacementOutput.mk true None [PlacementResult.mk "A" "C1" (box 0 0 0 2 3 1)] [] [].
Proof. vm_compute. reflexivity. Qed.

Example scenario_stacking :
  @suggest_placements_cpp StableStdSort [s3_A] [s4_C1] (SMap.add "C1" [s3_B] (SMap.empty _)) =
    PlacementOutput.mk true None
      [PlacementResult.mk "A" "C1" (box 0 0 1 2 2 2);
       PlacementResult.mk "B" "C1" (box 0 0 0 4 4 1)] [] [].
Proof. vm_compute. reflexivity. Qed.

Example scenario_hard_failure :
  @suggest_placements_cpp StableStdSort [s5_A] [s5_C1] (SMap.empty _) =
    PlacementOutput.mk false (Some "Placement incomplete. Failed items: A") [] [] ["A"].
Proof. vm_compute. reflexivity. Qed.

Example scenario_zone_miss :
  @suggest_placements_cpp StableStdSort [s6_A] [s6_C1; s6_C2] (SMap.empty _) =
    PlacementOutput.mk true None [PlacementResult.mk "A" "C1" (box 0 4 0 1 5 1)] [] [].
Proof. vm_compute. reflexivity. Qed.

(** ** The containers map *)

Lemma fold_add_keeps_keys (containers : list ContainerData.t) :
  forall (m : SMap.t ContainerData.t) k,
    SMap.In k m \/ In k (make_container_ids containers) ->
    SMap.In k (fold_left (fun m c => SMap.add (ContainerData.containerId c) c m) containers m).
Proof.
  induction containers as [|c containers IH]; intros m k; simpl.
  - intros [H | []]. exact H.
  - intros H. apply IH. rewrite SMapF.add_in_iff. tauto.
Qed.

(** Every id the container loops pass to [containers_map[...]] is a key of
    the map. *)
Lemma containers_map_has_ids (containers : list ContainerData.t) (k : string) :
  In k (make_container_ids containers) -> SMap.In k (make_containers_map containers).
Proof. intros H. apply fold_add_keeps_keys. now right. Qed.

(** ** The container loop *)

Lemma subscript_spec (k : string) (m : SMap.t (list PlacementInfo.t)) :
  fst (subscript k m) = placements_in k m /\
  forall k', placements_in k' (snd (subscript k m)) = placements_in k' m.
Proof.
  unfold subscript, placements_in. destruct (SMap.find k m) as [v|] eqn:E; simpl.
  - split; [reflexivity|]. intros k'. reflexivity.
  - split; [reflexivity|]. intros k'.
    destruct (string_dec k k') as [->|Hne].
    + rewrite SMapF.add_eq_o by reflexivity. now rewrite E.
    + now rewrite SMapF.add_neq_o by exact Hne.
Qed.

Lemma placements_in_add_same k v (m : SMap.t (list PlacementInfo.t)) :
  placements_in k (SMap.add k v m) = v.
Proof. unfold placements_in. now rewrite SMapF.add_eq_o by reflexivity. Qed.

Lemma placements_in_add_other k k' v (m : SMap.t (list PlacementInfo.t)) :
  k <> k' -> placements_in k' (SMap.add k v m) = placements_in k' m.
Proof. intros Hne. unfold placements_in. now rewrite SMapF.add_neq_o by exact Hne. Qed.

Lemma place_in_containers_outcome eligible containers_map item_req container_ids :
  forall st,
    place_outcome containers_map item_req container_ids st
      (fst (place_in_containers eligible containers_map item_req (is_high_prio item_req)
              container_ids st))
      (snd (place_in_containers eligible containers_map item_req (is_high_prio item_req)
              container_ids st)).
Proof.
  induction container_ids as [|cid rest IH]; intros st; simpl.
  - repeat split.
  - destruct (eligible (container_at cid containers_map)).
    + pose proof (subscript_spec cid (simulation_placements st)) as [Hcur Hsim].
      destruct (subscript cid (simulation_placements st)) as [cur sim1]. simpl in Hcur, Hsim.
      subst cur.
      destruct (find_spot_in_container item_req (container_at cid containers_map)
                  (placements_in cid (simulation_placements st)) (is_high_prio item_req))
        as [[pos ori]|] eqn:Espot; simpl.
      * exists cid, pos, ori. simpl. repeat split.
        -- now left.
        -- exact Espot.
        -- apply placements_in_add_same.
        -- intros k Hk. rewrite placements_in_add_other by congruence. apply Hsim.
      * specialize (IH (mkSim sim1 (processed_item_ids st) (final_placements_map st))).
        destruct (place_in_containers eligible containers_map item_req
                    (is_high_prio item_req) rest _) as [[|] st']; simpl in IH |- *.
        -- destruct IH as (c & pos & ori & Hin & Hspot & Hp & Hf & Hs & Ho).
           exists c, pos, ori. repeat split; auto.
           ++ now right.
           ++ rewrite <- Hsim. exact Hspot.
           ++ rewrite Hs. now rewrite Hsim.
           ++ intros k Hk. rewrite Ho by exact Hk. apply Hsim.
        -- destruct IH as (Hp & Hf & Hs). repeat split; auto.
           intros k. rewrite Hs. apply Hsim.
    + specialize (IH st).
      destruct (place_in_containers eligible containers_map item_req
                  (is_high_prio item_req) rest st) as [[|] st']; simpl in IH |- *.
      * destruct IH as (c & pos & ori & Hin & IH). exists c, pos, ori. split; [now right|exact IH].
      * exact IH.
Qed.

(** ** The item loops *)

Lemma not_mem_not_In (x : string) (s : SSet.t) : SSet.mem x s = false -> ~ SSet.In x s.
Proof. intros E H. apply SSetF.mem_iff in H. congruence. Qed.

Lemma phase1_step_outcome containers_map container_ids st pass_2 item_req :
  phase1_outcome containers_map container_ids st pass_2 item_req
    (phase1_step containers_map container_ids (st, pass_2) item_req).
Proof.
  unfold phase1_step.
  destruct (SSet.mem (ItemData.itemId item_req) (processed_item_ids st)) eqn:Emem.
  - apply phase1_skipped. now apply SSetF.mem_iff.
  - apply not_mem_not_In in Emem.
    destruct (ItemData.preferredZone item_req) as [pref_zone|].
    + pose proof (place_in_containers_outcome
                    (fun container => String.eqb (ContainerData.zone container) pref_zone)
                    containers_map item_req container_ids st) as Ho.
      destruct (place_in_containers _ containers_map item_req (is_high_prio item_req)
                  container_ids st) as [[|] st']; simpl in Ho.
      * now apply phase1_placed.
      * now apply phase1_queued.
    + apply phase1_queued; [exact Emem|]. repeat split.
Qed.

Lemma phase3_step_outcome containers_map container_ids st output item_req :
  phase3_outcome containers_map container_ids st output item_req
    (phase3_step containers_map container_ids (st, output) item_req).
Proof.
  unfold phase3_step.
  destruct (SSet.mem (ItemData.itemId item_req) (processed_item_ids st)) eqn:Emem.
  - apply phase3_skipped. now apply SSetF.mem_iff.
  - apply not_mem_not_In in Emem.
    pose proof (place_in_containers_outcome (fun _ => true)
                  containers_map item_req container_ids st) as Ho.
    destruct (place_in_containers _ containers_map item_req (is_high_prio item_req)
                container_ids st) as [[|] st']; simpl in Ho.
    + now apply phase3_placed.
    + now apply (phase3_failed _ _ _ _ _ st').
Qed.

(** ** Shape of the output *)

Lemma phase3_output_consistent containers_map container_ids items st output :
  output_consistent output ->
  output_consistent (snd (phase3 containers_map container_ids items st output)).
Proof.
  intros H0. unfold phase3.
  apply (fold_left_invariant (fun acc => output_consistent (snd acc))); [exact H0|].
  intros [st' out'] item _ Hacc. simpl in Hacc.
  destruct (phase3_step_outcome containers_map container_ids st' out' item); simpl; try exact Hacc.
  destruct Hacc as (Hr & Hp & _). repeat split; try assumption.
  right. split; [|reflexivity]. simpl.
  destruct (PlacementOutput.failedItemIds out'); discriminate.
Qed.

Lemma phase3_from_fresh_output containers_map container_ids items st :
  output_consistent
    (snd (phase3 containers_map container_ids items st (PlacementOutput.mk true None [] [] []))).
Proof.
  apply phase3_output_consistent. repeat split. left. repeat split.
Qed.

Lemma string_append_empty_r (s : string) : String.append s "" = s.
Proof. induction s as [|a s IH]; simpl; [reflexivity | now rewrite IH]. Qed.

Lemma string_append_assoc (s1 s2 s3 : string) :
  String.append (String.append s1 s2) s3 = String.append s1 (String.append s2 s3).
Proof. induction s1 as [|a s1 IH]; simpl; [reflexivity | now rewrite IH]. Qed.

(** The loop that builds the error message joins the ids with [", "]. *)
Lemma append_failed_ids_joined (ids : list string) : append_failed_ids ids = joined ids ", ".
Proof.
  unfold joined. induction ids as [|id rest IH]; [reflexivity|].
  cbn [append_failed_ids String.concat]. rewrite IH. destruct rest as [|id' rest].
  - cbn [String.concat]. now rewrite !string_append_empty_r.
  - now rewrite string_append_assoc.
Qed.

(** C8.  Whatever the input, [success] is true exactly when
    [failedItemIds] is empty; with [success] false the error is "Placement
    incomplete. Failed items: " followed by the failed ids joined with
    ", "; with [success] true there is no error. *)
Theorem C8_success_and_error_message :
  forall (S : StdSort) items containers current,
    let out := suggest_placements_cpp items containers current in
    PlacementOutput.success out =
      match PlacementOutput.failedItemIds out with [] => true | _ :: _ => false end /\
    PlacementOutput.error out =
      if PlacementOutput.success out then None
      else Some (String.append "Placement incomplete. Failed items: "
                               (joined (PlacementOutput.failedItemIds out) ", ")).
Proof.
  intros S items containers current. unfold suggest_placements_cpp.
  destruct (phase1 _ _ _ _) as [st1 pass_2].
  pose proof (phase3_from_fresh_output (make_containers_map containers)
                (make_container_ids containers) (phase2 pass_2) st1) as H.
  destruct (phase3 _ _ _ _ _) as [st3 output].
  cbn [snd] in H. cbv zeta.
  cbn [PlacementOutput.success PlacementOutput.error PlacementOutput.failedItemIds].
  destruct H as (_ & _ & [(Hf & Hs & He) | (Hf & Hs)]).
  - unfold final_error. rewrite Hf, Hs. auto.
  - unfold final_error. rewrite Hs.
    destruct (PlacementOutput.failedItemIds output) as [|id rest] eqn:E; [congruence|].
    split; [reflexivity|]. now rewrite append_failed_ids_joined.
Qed.

(** C10.  Whatever the input, the output has no rearrangement step: the
    Phase 2 placeholder hands the backlog to Phase 3 as it is and nothing
    writes to [output.rearrangements]. *)
Theorem C10_rearrangements_always_empty :
  forall (S : StdSort) items containers current,
    PlacementOutput.rearrangements (suggest_placements_cpp items containers current) = [] /\
    forall backlog, phase2 backlog = backlog.
Proof.
  intros S items containers current. split; [|reflexivity].
  unfold suggest_placements_cpp.
  destruct (phase1 _ _ _ _) as [st1 pass_2].
  pose proof (phase3_from_fresh_output (make_containers_map containers)
                (make_container_ids containers) (phase2 pass_2) st1) as H.
  destruct (phase3 _ _ _ _ _) as [st3 output].
  cbn [snd] in H. cbn [PlacementOutput.rearrangements]. apply H.
Qed.

(** ** The final map and the placements of the output *)

Lemma elements_In_MapsTo {V : Type} (m : SMap.t V) (k : string) (v : V) :
  In (k, v) (SMap.elements m) <-> SMap.MapsTo k v m.
Proof.
  rewrite SMapF.elements_mapsto_iff, InA_alt. split.
  - intros H. exists (k, v). split; [|exact H]. split; reflexivity.
  - intros ([k' v'] & [Hk Hv] & Hin). simpl in Hk, Hv. unfold SMap.E.eq in Hk.
    now subst.
Qed.

Lemma existsb_eqb_In (k : string) (l : list string) :
  existsb (String.eqb k) l = true <-> In k l.
Proof.
  rewrite existsb_exists. split.
  - intros (x & Hin & Hx). apply String.eqb_eq in Hx. now subst.
  - intros H. exists k. split; [exact H | apply String.eqb_refl].
Qed.

Lemma In_collect_placements final failed (r : PlacementResult.t) :
  In r (collect_placements final failed) <->
  exists k, SMap.MapsTo k r final /\ ~ In k failed.
Proof.
  unfold collect_placements. rewrite in_map_iff. split.
  - intros ([k v] & Hv & Hin). simpl in Hv. subst v.
    apply filter_In in Hin as [Hin Hk]. simpl in Hk.
    exists k. split; [now apply elements_In_MapsTo|].
    apply negb_true_iff in Hk. intros Hf. apply existsb_eqb_In in Hf. congruence.
  - intros (k & Hm & Hf). exists (k, r). split; [reflexivity|].
    apply filter_In. split; [now apply elements_In_MapsTo|]. simpl.
    apply negb_true_iff. destruct (existsb (String.eqb k) failed) eqn:E; [|reflexivity].
    now apply existsb_eqb_In in E.
Qed.

Lemma key_ok_add k v final :
  key_ok final -> PlacementResult.itemId v = k -> key_ok (SMap.add k v final).
Proof.
  intros Hok Hv k' v' Hm. apply SMapF.add_mapsto_iff in Hm as [[Hk Hvv] | [Hk Hm]].
  - unfold SMap.E.eq in Hk. now subst.
  - now apply Hok.
Qed.

Lemma key_ok_seed current : key_ok (seed_final_placements current).
Proof.
  unfold seed_final_placements.
  apply (fold_left_invariant key_ok).
  - intros k v Hm. now apply SMapF.empty_mapsto_iff in Hm.
  - intros final [cid infos] _ Hok. simpl.
    apply (fold_left_invariant key_ok); [exact Hok|].
    intros final' info _ Hok'. now apply key_ok_add.
Qed.

Lemma fold_left_covers {A B : Type} (P : B -> Prop) (C : B -> A -> Prop) (f : B -> A -> B) :
  (forall b a, P b -> P (f b a)) ->
  (forall b a, P b -> C (f b a) a) ->
  (forall b a a', P b -> C b a' -> C (f b a) a') ->
  forall l b, P b ->
    P (fold_left f l b) /\
    (forall a, In a l -> C (fold_left f l b) a) /\
    (forall a, C b a -> C (fold_left f l b) a).
Proof.
  intros HP Hnew Hkeep. induction l as [|x l IH]; intros b Hb; simpl.
  - split; [exact Hb|]. split; [intros a []| auto].
  - destruct (IH (f b x) (HP b x Hb)) as (H1 & H2 & H3).
    split; [exact H1|]. split.
    + intros a [<-|Ha]; [apply H3, Hnew, Hb | now apply H2].
    + intros a Ha. apply H3. now apply Hkeep.
Qed.

Lemma committed_in_final containers_map item_req container_ids st st' :
  committed containers_map item_req container_ids st st' ->
  SMap.In (ItemData.itemId item_req) (final_placements_map st').
Proof.
  intros (c & pos & ori & Hin & Hspot & Hp & Hf & Hs & Hother).
  rewrite Hf. apply SMapF.add_in_iff. now left.
Qed.

Lemma accounted_committed containers_map item_req container_ids st st' failed :
  committed containers_map item_req container_ids st st' ->
  accounted st failed -> accounted st' failed.
Proof.
  intros (c & pos & ori & Hin & Hspot & Hp & Hf & Hs & Hother) [Hok Hacc].
  unfold accounted. rewrite Hf. split.
  - now apply key_ok_add.
  - intros id Hid. rewrite Hp in Hid. apply SSetF.add_iff in Hid as [Hid | Hid].
    + unfold SSet.E.eq in Hid. subst id. left. apply SMapF.add_in_iff. now left.
    + destruct (Hacc id Hid) as [H|H]; [left | now right].
      apply SMapF.add_in_iff. now right.
Qed.

Lemma accounted_unchanged st st' failed :
  unchanged st st' -> accounted st failed -> accounted st' failed.
Proof.
  intros (Hp & Hf & Hs) Hacc. unfold accounted. now rewrite Hp, Hf.
Qed.

Lemma final_map_grows_committed containers_map item_req container_ids st st' id :
  committed containers_map item_req container_ids st st' ->
  SMap.In id (final_placements_map st) -> SMap.In id (final_placements_map st').
Proof.
  intros (c & pos & ori & Hin & Hspot & Hp & Hf & Hs & Hother) H.
  rewrite Hf. apply SMapF.add_in_iff. now right.
Qed.

(** ** Every incoming item is placed or declared failed *)

Lemma phase1_covers containers_map container_ids items st :
  accounted st [] ->
  let r := phase1 containers_map container_ids items st in
  accounted (fst r) [] /\ (forall a, In a items -> covered1 r a).
Proof.
  intros Hst. unfold phase1.
  destruct (fold_left_covers (fun acc => accounted (fst acc) []) covered1
              (phase1_step containers_map container_ids)) with (l := items) (b := (st, @nil ItemData.t))
    as (H1 & H2 & _); auto.
  - intros [s p2] a Hacc. simpl in Hacc.
    destruct (phase1_step_outcome containers_map container_ids s p2 a) as [Hin | s' Hn Ho | s' Hn Ho];
      simpl.
    + exact Hacc.
    + eapply accounted_committed; eauto.
    + eapply accounted_unchanged; eauto.
  - intros [s p2] a Hacc. simpl in Hacc. unfold covered1.
    destruct (phase1_step_outcome containers_map container_ids s p2 a) as [Hin | s' Hn Ho | s' Hn Ho];
      simpl.
    + destruct Hacc as [_ Hacc]. destruct (Hacc _ Hin) as [H|[]]. now left.
    + left. eapply committed_in_final; eauto.
    + right. apply in_or_app. right. now left.
  - intros [s p2] a a' Hacc. unfold covered1.
    destruct (phase1_step_outcome containers_map container_ids s p2 a) as [Hin | s' Hn Ho | s' Hn Ho];
      simpl; intros [H|H]; auto.
    + left. eapply final_map_grows_committed; eauto.
    + left. destruct Ho as (_ & Hf & _). now rewrite Hf.
    + right. apply in_or_app. now left.
Qed.

Lemma phase3_covers containers_map container_ids items st output :
  accounted st (PlacementOutput.failedItemIds output) ->
  let r := phase3 containers_map container_ids items st output in
  accounted (fst r) (PlacementOutput.failedItemIds (snd r)) /\
  (forall a, In a items -> covered3 r a) /\
  (forall a, covered3 (st, output) a -> covered3 r a).
Proof.
  intros Hst. unfold phase3.
  apply (fold_left_covers
           (fun acc => accounted (fst acc) (PlacementOutput.failedItemIds (snd acc))) covered3
           (phase3_step containers_map container_ids)); auto.
  - intros [s out] a Hacc. simpl in Hacc.
    destruct (phase3_step_outcome containers_map container_ids s out a) as [Hin | s' Hn Ho | s' Hn Ho];
      simpl.
    + exact Hacc.
    + eapply accounted_committed; eauto.
    + apply (accounted_unchanged _ _ _ Ho) in Hacc. destruct Hacc as [Hok Hacc].
      split; [exact Hok|]. simpl. intros id Hid.
      apply SSetF.add_iff in Hid as [Hid | Hid].
      * unfold SSet.E.eq in Hid. subst id. right. apply in_or_app. right. now left.
      * destruct (Hacc id Hid) as [H|H]; [now left|]. right. apply in_or_app. now left.
  - intros [s out] a Hacc. simpl in Hacc. unfold covered3.
    destruct (phase3_step_outcome containers_map container_ids s out a) as [Hin | s' Hn Ho | s' Hn Ho];
      simpl.
    + destruct Hacc as [_ Hacc]. exact (Hacc _ Hin).
    + left. eapply committed_in_final; eauto.
    + right. apply in_or_app. right. now left.
  - intros [s out] a a' Hacc. unfold covered3.
    destruct (phase3_step_outcome containers_map container_ids s out a) as [Hin | s' Hn Ho | s' Hn Ho];
      simpl; intros [H|H]; auto.
    + left. eapply final_map_grows_committed; eauto.
    + left. destruct Ho as (_ & Hf & _). now rewrite Hf.
    + right. apply in_or_app. now left.
Qed.

Lemma accounted_initial current :
  accounted (mkSim current SSet.empty (seed_final_placements current)) [].
Proof.
  split; simpl; [apply key_ok_seed|].
  intros id Hid. now apply SSetF.empty_iff in Hid.
Qed.

Lemma In_itemIds_collect final failed id :
  key_ok final ->
  (In id (map PlacementResult.itemId (collect_placements final failed)) <->
   SMap.In id final /\ ~ In id failed).
Proof.
  intros Hok. rewrite in_map_iff. split.
  - intros (r & Hid & Hr). apply In_collect_placements in Hr as (k & Hm & Hf).
    rewrite (Hok _ _ Hm) in Hid. subst k. split; [now exists r | exact Hf].
  - intros [[r Hm] Hf]. exists r. split; [now apply (Hok id r)|].
    apply In_collect_placements. now exists id.
Qed.

(** C7.  Whatever the input, the id of every incoming item is among the
    item ids of [placements] or in [failedItemIds], and never in both. *)
Theorem C7_placed_or_failed_never_both :
  forall (S : StdSort) items containers current,
    let out := suggest_placements_cpp items containers current in
    Forall
      (fun item =>
         let id := ItemData.itemId item in
         (In id (map PlacementResult.itemId (PlacementOutput.placements out)) \/
          In id (PlacementOutput.failedItemIds out)) /\
         ~ (In id (map PlacementResult.itemId (PlacementOutput.placements out)) /\
            In id (PlacementOutput.failedItemIds out)))
      items.
Proof.
  intros S items containers current. unfold suggest_placements_cpp.
  pose proof (phase1_covers (make_containers_map containers) (make_container_ids containers)
                (sorted_incoming_items items) _ (accounted_initial current)) as [Hacc1 Hcov1].
  destruct (phase1 _ _ _ _) as [st1 pass_2]. simpl in Hacc1, Hcov1.
  pose proof (phase3_covers (make_containers_map containers) (make_container_ids containers)
                (phase2 pass_2) st1 (PlacementOutput.mk true None [] [] []) Hacc1)
    as (Hacc3 & Hcov3 & Hkeep3).
  destruct (phase3 _ _ _ _ _) as [st3 output]. simpl in Hacc3, Hcov3, Hkeep3.
  cbv zeta. cbn [PlacementOutput.placements PlacementOutput.failedItemIds].
  apply Forall_forall. intros item Hitem.
  assert (Hc : covered3 (st3, output) item).
  { apply (Permutation_in _ (std_sort_permutation higher_priority_first items)) in Hitem.
    destruct (Hcov1 item Hitem) as [H|H].
    - apply Hkeep3. now left.
    - now apply Hcov3. }
  destruct Hacc3 as [Hok _]. rewrite (In_itemIds_collect _ _ _ Hok).
  split; [|tauto].
  destruct (in_dec string_dec (ItemData.itemId item) (PlacementOutput.failedItemIds output))
    as [Hf|Hf]; [now right|].
  destruct Hc as [Hc|Hc]; [left; now split | now right].
Qed.

(** ** The seed of the final map *)

Lemma fold_left_flat_map {A B C : Type} (f : C -> B -> C) (g : A -> list B) (l : list A) :
  forall c, fold_left f (flat_map g l) c = fold_left (fun c x => fold_left f (g x) c) l c.
Proof.
  induction l as [|x l IH]; intros c; simpl; [reflexivity|].
  now rewrite fold_left_app, IH.
Qed.

Lemma fold_left_through_map {A B C : Type} (f : C -> B -> C) (g : A -> B) (l : list A) :
  forall c, fold_left f (map g l) c = fold_left (fun c x => f c (g x)) l c.
Proof. induction l as [|x l IH]; intros c; simpl; [reflexivity | apply IH]. Qed.

Lemma fold_left_same {A B : Type} (f g : B -> A -> B) (l : list A) :
  (forall b a, f b a = g b a) -> forall b, fold_left f l b = fold_left g l b.
Proof.
  intros Hfg. induction l as [|x l IH]; intros b; simpl; [reflexivity|].
  now rewrite Hfg, IH.
Qed.

Lemma seed_final_placements_flat current :
  seed_final_placements current = fold_left add_result (live_results current) (SMap.empty _).
Proof.
  unfold seed_final_placements, live_results. rewrite fold_left_flat_map.
  apply fold_left_same. intros final [cid infos]. simpl.
  now rewrite fold_left_through_map.
Qed.

(** A map filled from a list of values with pairwise distinct keys holds
    exactly those values, each under its key. *)
Lemma MapsTo_fold_add {V : Type} (key : V -> string) (l : list V) :
  forall m,
    NoDup (map key l) ->
    (forall r, In r l -> ~ SMap.In (key r) m) ->
    forall k v,
      SMap.MapsTo k v (fold_left (fun m r => SMap.add (key r) r m) l m) <->
      SMap.MapsTo k v m \/ (In v l /\ k = key v).
Proof.
  induction l as [|r l IH]; intros m Hnd Hfresh k v; simpl.
  - tauto.
  - inversion Hnd as [|? ? Hr Hnd']; subst.
    rewrite IH; [|exact Hnd'|].
    + rewrite SMapF.add_mapsto_iff. unfold SMap.E.eq. split.
      * intros [[[Hk Hv] | [Hk Hm]] | [Hin Hk]]; subst; auto.
      * intros [Hm | [[Hv | Hin] Hk]]; subst; auto.
        left. destruct (string_dec (key r) k) as [He|Hne]; [|auto].
        exfalso. apply (Hfresh r); [now left|]. rewrite He. now exists v.
    + intros r' Hr' Hin. apply SMapF.add_in_iff in Hin as [He|Hin].
      * apply Hr. unfold SMap.E.eq in He. rewrite He. now apply in_map.
      * apply (Hfresh r'); [now right | exact Hin].
Qed.

Lemma MapsTo_fold_add_result (l : list PlacementResult.t) :
  NoDup (map PlacementResult.itemId l) ->
  forall k v,
    SMap.MapsTo k v (fold_left add_result l (SMap.empty _)) <->
    In v l /\ k = PlacementResult.itemId v.
Proof.
  intros Hnd k v. unfold add_result.
  rewrite (MapsTo_fold_add PlacementResult.itemId l (SMap.empty _) Hnd).
  - rewrite SMapF.empty_mapsto_iff. tauto.
  - intros r _ Hin. now apply SMapF.empty_in_iff in Hin.
Qed.

Lemma NoDup_keys_elements {V : Type} (m : SMap.t V) : NoDup (map fst (SMap.elements m)).
Proof.
  pose proof (SMap.elements_3w m) as H.
  induction H as [|[k v] l Hnot _ IH]; simpl; constructor; [|exact IH].
  intros Hin. apply Hnot. apply in_map_iff in Hin as ([k' v'] & Hk & Hin). simpl in Hk. subst k'.
  apply InA_alt. exists (k, v'). split; [reflexivity | exact Hin].
Qed.

Lemma NoDup_values_elements (final : SMap.t PlacementResult.t) :
  key_ok final -> NoDup (map snd (SMap.elements final)).
Proof.
  intros Hok. apply (NoDup_map_inv PlacementResult.itemId).
  rewrite map_map.
  rewrite (map_ext_in _ fst); [apply NoDup_keys_elements|].
  intros [k v] Hin. simpl. apply Hok. now apply elements_In_MapsTo.
Qed.

Lemma collect_placements_none_failed final :
  collect_placements final [] = map snd (SMap.elements final).
Proof.
  unfold collect_placements. rewrite forallb_filter_id; [reflexivity|].
  apply forallb_forall. reflexivity.
Qed.

Lemma seed_permutation current :
  NoDup (live_item_ids current) ->
  Permutation (map snd (SMap.elements (seed_final_placements current))) (live_results current).
Proof.
  intros Hnd. apply NoDup_Permutation.
  - apply NoDup_values_elements, key_ok_seed.
  - now apply (NoDup_map_inv PlacementResult.itemId).
  - intros r. rewrite in_map_iff. split.
    + intros ([k v] & Hv & Hin). simpl in Hv. subst v.
      apply elements_In_MapsTo in Hin. rewrite seed_final_placements_flat in Hin.
      now apply MapsTo_fold_add_result in Hin.
    + intros Hin. exists (PlacementResult.itemId r, r). split; [reflexivity|].
      apply elements_In_MapsTo. rewrite seed_final_placements_flat.
      now apply MapsTo_fold_add_result.
Qed.

(** C9.  With no incoming item and a current map whose item ids are
    pairwise distinct, the output holds exactly the live placements, each
    with its item id, container id and position unchanged, no
    rearrangement, no failed id, no error and [success] true. *)
Theorem C9_empty_request_returns_live_placements :
  forall (S : StdSort) containers current,
    NoDup (live_item_ids current) ->
    let out := suggest_placements_cpp [] containers current in
    Permutation (PlacementOutput.placements out) (live_results current) /\
    PlacementOutput.rearrangements out = [] /\
    PlacementOutput.success out = true /\
    PlacementOutput.error out = None /\
    PlacementOutput.failedItemIds out = [].
Proof.
  intros S containers current Hnd.
  unfold suggest_placements_cpp. rewrite sorted_incoming_items_nil.
  cbn [phase1 phase2 phase3 fold_left final_placements_map final_error
       PlacementOutput.placements PlacementOutput.rearrangements PlacementOutput.success
       PlacementOutput.error PlacementOutput.failedItemIds].
  rewrite collect_placements_none_failed.
  split; [now apply seed_permutation | repeat split].
Qed.

(** C9 at the current map of the stacking scenario. *)
Lemma C9_witness :
  NoDup (live_item_ids s4_current) /\
  let out := @suggest_placements_cpp StableStdSort [] [s4_C1; s4_C2] s4_current in
  Permutation (PlacementOutput.placements out) (live_results s4_current) /\
  PlacementOutput.rearrangements out = [] /\
  PlacementOutput.success out = true /\
  PlacementOutput.error out = None /\
  PlacementOutput.failedItemIds out = [].
Proof.
  assert (H : NoDup (live_item_ids s4_current)).
  { vm_compute. constructor; [intros [] | constructor]. }
  split; [exact H|].
  apply (C9_empty_request_returns_live_placements StableStdSort [s4_C1; s4_C2] s4_current H).
Defined.

(** ** Soundness of the spot finder *)

Lemma In_set_insert (x h : double) (s : list double) :
  In h (set_insert x s) -> h = x \/ In h s.
Proof.
  induction s as [|y s IH]; simpl.
  - intros [<-|[]]. now left.
  - destruct (ltb x y); [|destruct (ltb y x)]; simpl.
    + intros [<-|H]; auto.
    + intros [<-|H]; auto. destruct (IH H); auto.
    + intros [<-|H]; auto.
Qed.

Lemma In_base_heights (placed : list PlacementInfo.t) (h : double) :
  In h (base_heights placed) ->
  h = 0 \/ exists p, In p placed /\ h = eh (PlacementInfo.position p).
Proof.
  unfold base_heights.
  apply (fold_left_invariant
           (fun s => In h s -> h = 0 \/ exists p, In p placed /\ h = eh (PlacementInfo.position p))).
  - intros [<-|[]]. now left.
  - intros s p Hp IH. cbv beta zeta.
    match goal with |- context [if ?b then _ else _] => destruct b end; [exact IH|].
    intros Hin. apply In_set_insert in Hin as [->|Hin]; [|auto].
    right. now exists p.
Qed.

Lemma std_max_zero_nonneg (x : double) : 0 <= std_max 0 x.
Proof. apply std_max_lower. Qed.

(** What a passed candidate satisfies, in propositions. *)
Lemma check_candidate_sound container placed ori cand pos ori' :
  check_candidate container placed ori cand = Some (pos, ori') ->
  pos = cand /\
  (ew pos <= ContainerData.width container + COORD_TOLERANCE /\
   ed pos <= ContainerData.depth container + COORD_TOLERANCE /\
   eh pos <= ContainerData.height container + COORD_TOLERANCE) /\
  (forall p, In p placed -> boxes_overlap pos (PlacementInfo.position p) = false) /\
  is_stable pos container placed = true.
Proof.
  unfold check_candidate.
  destruct (_ || _ || _) eqn:Eb; [discriminate|].
  destruct (existsb _ placed) eqn:Eo; [discriminate|].
  destruct (is_stable cand container placed) eqn:Es; [|discriminate].
  simpl. intros [= <- _].
  apply orb_false_iff in Eb as [Eb Eh]. apply orb_false_iff in Eb as [Ew Ed].
  apply ltb_ge in Ew, Ed, Eh.
  repeat split; auto.
  intros p Hp. destruct (boxes_overlap cand (PlacementInfo.position p)) eqn:E; [|reflexivity].
  assert (existsb (fun q => boxes_overlap cand (PlacementInfo.position q)) placed = true)
    by (apply existsb_exists; now exists p).
  congruence.
Qed.

(** A spot returned by the finder: it is in bounds above, starts at a
    non-negative width and depth and at a base height, spans one
    orientation of the item, overlaps nothing and is stable. *)
Lemma find_spot_in_container_sound item container placed high pos ori :
  find_spot_in_container item container placed high = Some (pos, ori) ->
  (0 <= sw pos /\ 0 <= sd pos /\ In (sh pos) (base_heights placed)) /\
  (exists iw id ih, In (iw, id, ih) (orientations item) /\
                    ew pos = sw pos + iw /\ ed pos = sd pos + id /\ eh pos = sh pos + ih) /\
  (ew pos <= ContainerData.width container + COORD_TOLERANCE /\
   ed pos <= ContainerData.depth container + COORD_TOLERANCE /\
   eh pos <= ContainerData.height container + COORD_TOLERANCE) /\
  (forall p, In p placed -> boxes_overlap pos (PlacementInfo.position p) = false) /\
  is_stable pos container placed = true.
Proof.
  unfold find_spot_in_container. intros H.
  apply first_some_found in H as ([[iw id] ih] & Hori & H).
  destruct (_ || _ || _); [discriminate|].
  apply first_some_found in H as (start_h & Hh & H).
  destruct (ltb _ (start_h + ih)); [discriminate|].
  apply first_some_found in H as (d_idx & _ & H).
  destruct (ltb _ (_ + id)); [discriminate|].
  apply first_some_found in H as (w_idx & _ & H).
  destruct (ltb _ (_ + iw)); [discriminate|].
  apply check_candidate_sound in H as (-> & Hb & Hov & Hst).
  split; [|split; [|split; [exact Hb | split; [exact Hov | exact Hst]]]].
  - unfold candidate, sw, sd, sh. simpl.
    split; [apply std_max_zero_nonneg | split; [apply std_max_zero_nonneg | exact Hh]].
  - exists iw, id, ih. split; [exact Hori|]. repeat split.
Qed.

(** ** The geometric invariants of the simulation *)

Lemma is_stable_mono pos c c' (l1 l2 : list PlacementInfo.t) :
  (forall q, In q l1 -> In q l2) ->
  is_stable pos c l1 = true -> is_stable pos c' l2 = true.
Proof.
  intros Hsub. rewrite !is_stable_true_iff.
  intros [H | (q & Hin & Hq)]; [now left|]. right. exists q. auto.
Qed.

Lemma In_others_in id q infos :
  In q (others_in id infos) <-> In q infos /\ PlacementInfo.itemId q <> id.
Proof.
  unfold others_in. rewrite filter_In, negb_true_iff. split; intros [H1 H2]; split; auto.
  - intros He. apply String.eqb_eq in He. congruence.
  - destruct (String.eqb_spec (PlacementInfo.itemId q) id); [contradiction | reflexivity].
Qed.

Lemma container_at_make containers c :
  NoDup (map ContainerData.containerId containers) ->
  In c containers ->
  container_at (ContainerData.containerId c) (make_containers_map containers) = c.
Proof.
  intros Hnd Hin. unfold container_at, make_containers_map.
  assert (Hm : SMap.MapsTo (ContainerData.containerId c) c
                 (fold_left (fun m r => SMap.add (ContainerData.containerId r) r m)
                            containers (SMap.empty _))).
  { apply MapsTo_fold_add; auto.
    intros r _ H. now apply SMapF.empty_in_iff in H. }
  apply SMapF.find_mapsto_iff in Hm. now rewrite Hm.
Qed.

Lemma orientation_positive item iw id ih :
  positive_item item -> In (iw, id, ih) (orientations item) -> 0 < iw /\ 0 < id /\ 0 < ih.
Proof.
  intros (Hw & Hd & Hh) Hin. unfold orientations in Hin. simpl in Hin.
  repeat (destruct Hin as [[= <- <- <-] | Hin]; [auto|]). destruct Hin.
Qed.

Lemma COORD_TOLERANCE_positive : 0 < COORD_TOLERANCE.
Proof. reflexivity. Qed.

Section SimulationInvariant.

Variable containers : list ContainerData.t.
Variable live : list string.
Variable stable_at_entry : Prop.

Let containers_map := make_containers_map containers.
Let container_ids := make_container_ids containers.

Lemma sim_inv_unchanged st st' failed :
  unchanged st st' -> sim_inv containers live stable_at_entry st failed -> sim_inv containers live stable_at_entry st' failed.
Proof.
  intros (Hp & Hf & Hs) [H1 H2 H3 H4 H5 H6 H7 H8 H9].
  constructor; intros; rewrite ?Hs, ?Hp, ?Hf in *; eauto.
Qed.

Lemma sim_inv_failed st failed item :
  ~ In (ItemData.itemId item) live ->
  ~ SSet.In (ItemData.itemId item) (processed_item_ids st) ->
  sim_inv containers live stable_at_entry st failed ->
  sim_inv containers live stable_at_entry (mark_processed item st)
          (failed ++ [ItemData.itemId item]).
Proof.
  intros Hlive Hproc [H1 H2 H3 H4 H5 H6 H7 H8 H9].
  constructor; simpl; eauto.
  - intros id Hid. destruct (H8 id Hid); auto. right. apply SSetF.add_iff. now right.
  - intros id Hid. apply in_app_or in Hid as [Hid | [<- | []]].
    + destruct (H9 id Hid) as [Hp Hn]. split; [|exact Hn]. apply SSetF.add_iff. now right.
    + split; [apply SSetF.add_iff; now left|].
      intros Hin. destruct (H8 _ Hin); contradiction.
Qed.

Lemma sim_inv_committed st st' failed item :
  positive_item item ->
  ~ In (ItemData.itemId item) live ->
  ~ SSet.In (ItemData.itemId item) (processed_item_ids st) ->
  committed containers_map item container_ids st st' ->
  sim_inv containers live stable_at_entry st failed -> sim_inv containers live stable_at_entry st' failed.
Proof.
  intros Hpos Hlive Hproc (cid & pos & ori & Hcid & Hspot & Hp & Hf & Hs & Hother)
         [H1 H2 H3 H4 H5 H6 H7 H8 H9].
  apply find_spot_in_container_sound in Hspot
    as ((Hsw & Hsd & Hsh) & (iw & id & ih & Hori & Hew & Hed & Heh) & Hb & Hov & Hst).
  destruct (orientation_positive _ _ _ _ Hpos Hori) as (Hiw & Hid & Hih).
  pose proof COORD_TOLERANCE_positive as Heps.
  set (n := new_placement item cid pos) in *.
  set (l := placements_in cid (simulation_placements st)) in *.
  assert (Hfresh_final : ~ SMap.In (ItemData.itemId item) (final_placements_map st)).
  { intros Hin. destruct (H8 _ Hin); contradiction. }
  assert (Hfresh : forall k p, In p (placements_in k (simulation_placements st)) ->
                               PlacementInfo.itemId p <> ItemData.itemId item).
  { intros k p Hin He. apply Hfresh_final. rewrite <- He.
    exists (as_result k p). now apply H6. }
  assert (Hcases : forall k p, In p (placements_in k (simulation_placements st')) ->
                               In p (placements_in k (simulation_placements st)) \/
                               (k = cid /\ p = n)).
  { intros k p Hin. destruct (string_dec k cid) as [->|Hne].
    - rewrite Hs in Hin. apply in_app_or in Hin as [Hin | [<- | []]]; auto.
    - rewrite Hother in Hin by exact Hne. now left. }
  assert (Hgrow : forall k p, In p (placements_in k (simulation_placements st)) ->
                              In p (placements_in k (simulation_placements st'))).
  { intros k p Hin. destruct (string_dec k cid) as [->|Hne].
    - rewrite Hs. apply in_or_app. now left.
    - now rewrite Hother by exact Hne. }
  assert (Hn_in : In n (placements_in cid (simulation_placements st'))).
  { rewrite Hs. apply in_or_app. right. now left. }
  constructor.
  - intros k p Hin. destruct (Hcases k p Hin) as [Hold | [-> _]]; eauto.
  - intros k p Hin. destruct (Hcases k p Hin) as [Hold | [-> ->]]; [eauto|].
    simpl. split.
    + split; [|exact Hb]. repeat split; try lra.
      apply In_base_heights in Hsh as [-> | (q & Hq & ->)]; [lra|].
      destruct (H2 cid q Hq) as [[(_ & _ & Hqs) _] (_ & _ & Hqh)]. lra.
    + unfold positive_box. rewrite Hew, Hed, Heh. repeat split; lra.
  - intros k p q Hp' Hq' Hne.
    destruct (Hcases k p Hp') as [Hpo | [Hk1 Hp1]], (Hcases k q Hq') as [Hqo | [Hk2 Hq1]].
    + eauto.
    + subst k q. simpl. rewrite boxes_overlap_sym. now apply Hov.
    + subst k p. simpl. now apply Hov.
    + subst p q. contradiction.
  - intros Hentry k p Hin. destruct (Hcases k p Hin) as [Hold | [-> ->]].
    + eapply is_stable_mono; [|exact (H4 Hentry k p Hold)].
      intros q Hq. apply In_others_in in Hq as [Hq Hne]. apply In_others_in. auto.
    + simpl. eapply is_stable_mono; [|exact Hst].
      intros q Hq. apply In_others_in. split; [now apply Hgrow|]. now apply (Hfresh cid).
  - rewrite Hf. now apply key_ok_add.
  - intros k p Hin. rewrite Hf. destruct (Hcases k p Hin) as [Hold | [-> ->]].
    + apply SMapF.add_mapsto_iff. right. split; [|now apply H6].
      intros He. apply (Hfresh k p Hold). now symmetry.
    + apply SMapF.add_mapsto_iff. left. split; reflexivity.
  - intros id' r Hm. rewrite Hf in Hm.
    apply SMapF.add_mapsto_iff in Hm as [[_ <-] | [_ Hm]].
    + exists n. split; [exact Hn_in | reflexivity].
    + destruct (H7 _ _ Hm) as (p & Hin & Hr). exists p. split; [now apply Hgrow | exact Hr].
  - intros id' Hin. rewrite Hf in Hin. rewrite Hp.
    apply SMapF.add_in_iff in Hin as [<- | Hin].
    + right. apply SSetF.add_iff. now left.
    + destruct (H8 _ Hin); auto. right. apply SSetF.add_iff. now right.
  - intros id' Hfl. destruct (H9 id' Hfl) as [Hpr Hn]. rewrite Hp, Hf. split.
    + apply SSetF.add_iff. now right.
    + intros Hin. apply SMapF.add_in_iff in Hin as [He | Hin]; [|contradiction].
      unfold SMap.E.eq in He. subst id'. contradiction.
Qed.

End SimulationInvariant.

(** ** The invariants at entry *)

Lemma In_placements_in_MapsTo (current : SMap.t (list PlacementInfo.t)) k p :
  In p (placements_in k current) ->
  exists infos, SMap.MapsTo k infos current /\ In p infos /\ placements_in k current = infos.
Proof.
  unfold placements_in. destruct (SMap.find k current) as [infos|] eqn:E; [|intros []].
  intros Hin. exists infos. split; [now apply SMapF.find_mapsto_iff | auto].
Qed.

Lemma MapsTo_placements_in (current : SMap.t (list PlacementInfo.t)) k infos :
  SMap.MapsTo k infos current -> placements_in k current = infos.
Proof.
  intros Hm. apply SMapF.find_mapsto_iff in Hm. unfold placements_in. now rewrite Hm.
Qed.

Lemma In_live_results current r :
  In r (live_results current) <->
  exists k infos p, SMap.MapsTo k infos current /\ In p infos /\ r = as_result k p.
Proof.
  unfold live_results. rewrite in_flat_map. split.
  - intros ([k infos] & Hel & Hin). simpl in Hin.
    apply in_map_iff in Hin as (p & <- & Hp).
    exists k, infos, p. split; [now apply elements_In_MapsTo | auto].
  - intros (k & infos & p & Hm & Hp & ->). exists (k, infos).
    split; [now apply elements_In_MapsTo|]. simpl. now apply in_map.
Qed.

Lemma MapsTo_seed current id r :
  NoDup (live_item_ids current) ->
  (SMap.MapsTo id r (seed_final_placements current) <->
   In r (live_results current) /\ id = PlacementResult.itemId r).
Proof.
  intros Hnd. rewrite seed_final_placements_flat. now apply MapsTo_fold_add_result.
Qed.

Lemma sim_inv_initial containers current :
  valid_current containers current ->
  sim_inv containers (live_item_ids current) (stable_current containers current)
          (mkSim current SSet.empty (seed_final_placements current)) [].
Proof.
  intros (Hcs & Hnd & Hval).
  constructor; simpl.
  - intros k p Hin. apply In_placements_in_MapsTo in Hin as (infos & Hm & Hp & _).
    destruct (Hval k infos Hm) as (c & Hc & <- & _).
    unfold make_container_ids. now apply in_map.
  - intros k p Hin. apply In_placements_in_MapsTo in Hin as (infos & Hm & Hp & _).
    destruct (Hval k infos Hm) as (c & Hc & <- & Hgeo & _).
    rewrite container_at_make by assumption. now apply Hgeo.
  - intros k p q Hp Hq Hne.
    apply In_placements_in_MapsTo in Hp as (infos & Hm & Hp & He). rewrite He in Hq.
    destruct (Hval k infos Hm) as (c & _ & _ & _ & Hov). now apply Hov.
  - intros Hstable k p Hin. apply In_placements_in_MapsTo in Hin as (infos & Hm & Hp & He).
    rewrite He. destruct (Hval k infos Hm) as (c & Hc & <- & _).
    rewrite container_at_make by assumption.
    now apply (Hstable (ContainerData.containerId c) infos c p).
  - apply key_ok_seed.
  - intros k p Hin. apply In_placements_in_MapsTo in Hin as (infos & Hm & Hp & _).
    apply MapsTo_seed; [exact Hnd|]. split; [|reflexivity].
    apply In_live_results. now exists k, infos, p.
  - intros id r Hm. apply MapsTo_seed in Hm as [Hin _]; [|exact Hnd].
    apply In_live_results in Hin as (k & infos & p & Hm & Hp & ->). simpl.
    exists p. split; [|reflexivity]. now rewrite (MapsTo_placements_in _ _ _ Hm).
  - intros id [r Hm]. left. apply MapsTo_seed in Hm as [Hin ->]; [|exact Hnd].
    unfold live_item_ids. now apply in_map.
  - intros id [].
Qed.

(** ** The invariants through the phases *)

Lemma phase1_sim_inv containers live entry items st :
  (forall a, In a items -> positive_item a /\ ~ In (ItemData.itemId a) live) ->
  sim_inv containers live entry st [] ->
  let r := phase1 (make_containers_map containers) (make_container_ids containers) items st in
  sim_inv containers live entry (fst r) [] /\ (forall x, In x (snd r) -> In x items).
Proof.
  intros Hitems Hst. unfold phase1.
  apply (fold_left_invariant
           (fun acc => sim_inv containers live entry (fst acc) [] /\
                       (forall x, In x (snd acc) -> In x items))).
  - split; [exact Hst | intros x []].
  - intros [s p2] a Ha [Hinv Hsub]. simpl in Hinv, Hsub.
    destruct (Hitems a Ha) as [Hpos Hlive].
    destruct (phase1_step_outcome (make_containers_map containers)
                (make_container_ids containers) s p2 a) as [Hin | s' Hn Ho | s' Hn Ho]; simpl.
    + auto.
    + split; [|exact Hsub]. eapply sim_inv_committed; eauto.
    + split; [eapply sim_inv_unchanged; eauto|].
      intros x Hx. apply in_app_or in Hx as [Hx | [<- | []]]; auto.
Qed.

Lemma phase3_sim_inv containers live entry items st output :
  (forall a, In a items -> positive_item a /\ ~ In (ItemData.itemId a) live) ->
  sim_inv containers live entry st (PlacementOutput.failedItemIds output) ->
  let r := phase3 (make_containers_map containers) (make_container_ids containers) items st
                  output in
  sim_inv containers live entry (fst r) (PlacementOutput.failedItemIds (snd r)).
Proof.
  intros Hitems Hst. unfold phase3.
  apply (fold_left_invariant
           (fun acc => sim_inv containers live entry (fst acc)
                               (PlacementOutput.failedItemIds (snd acc)))).
  - exact Hst.
  - intros [s out] a Ha Hinv. simpl in Hinv.
    destruct (Hitems a Ha) as [Hpos Hlive].
    destruct (phase3_step_outcome (make_containers_map containers)
                (make_container_ids containers) s out a) as [Hin | s' Hn Ho | s' Hn Ho]; simpl.
    + exact Hinv.
    + eapply sim_inv_committed; eauto.
    + apply sim_inv_failed; [exact Hlive | | eapply sim_inv_unchanged; eauto].
      destruct Ho as (Hp & _). now rewrite Hp.
Qed.

(** ** The invariants on the output *)

Lemma output_invariants containers live entry st failed :
  NoDup (map ContainerData.containerId containers) ->
  sim_inv containers live entry st failed ->
  let placements := collect_placements (final_placements_map st) failed in
  no_overlap_within_containers placements /\
  all_in_bounds containers placements /\
  (entry -> all_stable containers placements).
Proof.
  intros Hcs [H1 H2 H3 H4 H5 H6 H7 H8 H9] placements.
  assert (Hback : forall r, In r placements ->
            exists p, In p (placements_in (PlacementResult.containerId r)
                                          (simulation_placements st)) /\
                      as_result (PlacementResult.containerId r) p = r).
  { intros r Hr. apply In_collect_placements in Hr as (k & Hm & _). eauto. }
  assert (Hforth : forall k p, In p (placements_in k (simulation_placements st)) ->
                               In (as_result k p) placements).
  { intros k p Hp. apply In_collect_placements. exists (PlacementInfo.itemId p).
    split; [now apply H6|]. intros Hf. destruct (H9 _ Hf) as [_ Hn]. apply Hn.
    exists (as_result k p). now apply H6. }
  assert (Hcont : forall k p, In p (placements_in k (simulation_placements st)) ->
            exists c, In c containers /\ ContainerData.containerId c = k /\
                      container_at k (make_containers_map containers) = c).
  { intros k p Hp. apply H1 in Hp. unfold make_container_ids in Hp.
    apply in_map_iff in Hp as (c & <- & Hc). exists c.
    split; [exact Hc | split; [reflexivity | now apply container_at_make]]. }
  split; [|split].
  - intros r1 r2 Hr1 Hr2 Hsame Hne.
    destruct (Hback r1 Hr1) as (p1 & Hp1 & E1), (Hback r2 Hr2) as (p2 & Hp2 & E2).
    rewrite <- Hsame in Hp2. rewrite <- E1, <- E2. simpl.
    apply (H3 _ p1 p2 Hp1 Hp2). rewrite <- E1, <- E2 in Hne. exact Hne.
  - intros r Hr. destruct (Hback r Hr) as (p & Hp & E).
    destruct (Hcont _ p Hp) as (c & Hc & Hid & Hat). exists c.
    split; [exact Hc | split; [exact Hid|]].
    rewrite <- E. simpl. rewrite <- Hat. now apply H2.
  - intros Hentry r Hr. destruct (Hback r Hr) as (p & Hp & E).
    destruct (Hcont _ p Hp) as (c & Hc & Hid & Hat). exists c.
    split; [exact Hc | split; [exact Hid|]].
    pose proof (H4 Hentry _ p Hp) as Hst. apply is_stable_true_iff in Hst. apply is_stable_true_iff.
    assert (Epos : PlacementResult.position r = PlacementInfo.position p)
      by (rewrite <- E; reflexivity).
    assert (Eid : PlacementResult.itemId r = PlacementInfo.itemId p)
      by (rewrite <- E; reflexivity).
    rewrite Epos.
    destruct Hst as [Hfloor | (q & Hq & Hnear & Hwd)]; [now left|]. right.
    apply In_others_in in Hq as [Hq Hne].
    exists (as_info (as_result (PlacementResult.containerId r) q)). split; [|now split].
    unfold others_of. apply in_map. apply filter_In. split; [now apply Hforth|].
    simpl. rewrite String.eqb_refl. simpl. apply negb_true_iff.
    apply String.eqb_neq. rewrite Eid. exact Hne.
Qed.

(** C1, with stability where it holds at entry.  When the containers
    have unique ids, the current placements have unique item ids, lie in
    containers of the request, are in bounds, of positive extent and
    pairwise non-overlapping, and the incoming items have positive
    dimensions and ids of their own, then the final placements of each
    container are pairwise non-overlapping and every final placement is
    within its container's cavity up to the tolerance; when, in addition,
    every current placement is stable against the others of its container,
    every final placement is stable against the other final placements of
    its container. *)
Theorem C1_output_placements_disjoint_in_bounds_stable :
  forall (S : StdSort) items containers current,
    valid_current containers current ->
    valid_items items current ->
    let out := suggest_placements_cpp items containers current in
    no_overlap_within_containers (PlacementOutput.placements out) /\
    all_in_bounds containers (PlacementOutput.placements out) /\
    (stable_current containers current ->
     all_stable containers (PlacementOutput.placements out)).
Proof.
  intros S items containers current Hval Hitems.
  assert (Hsorted : forall a, In a (sorted_incoming_items items) ->
                              positive_item a /\ ~ In (ItemData.itemId a) (live_item_ids current)).
  { intros a Ha. apply Hitems.
    apply (Permutation_in _ (Permutation_sym (std_sort_permutation higher_priority_first items))).
    exact Ha. }
  unfold suggest_placements_cpp.
  pose proof (phase1_sim_inv containers (live_item_ids current)
                (stable_current containers current) (sorted_incoming_items items) _
                Hsorted (sim_inv_initial containers current Hval)) as [Hinv1 Hsub].
  destruct (phase1 _ _ _ _) as [st1 pass_2]. simpl in Hinv1, Hsub.
  pose proof (phase3_sim_inv containers (live_item_ids current)
                (stable_current containers current) (phase2 pass_2) st1
                (PlacementOutput.mk true None [] [] [])
                (fun a Ha => Hsorted a (Hsub a Ha)) Hinv1) as Hinv3.
  destruct (phase3 _ _ _ _ _) as [st3 output]. simpl in Hinv3.
  cbv zeta. cbn [PlacementOutput.placements].
  destruct Hval as (Hcs & _). exact (output_invariants _ _ _ _ _ Hcs Hinv3).
Qed.

(** ** The invariants on concrete inputs *)

Lemma MapsTo_single {V : Type} (k0 : string) (v0 : V) (k : string) (v : V) :
  SMap.MapsTo k v (SMap.add k0 v0 (SMap.empty V)) -> k = k0 /\ v = v0.
Proof.
  intros H. apply SMapF.add_mapsto_iff in H as [[Hk Hv] | [_ H]].
  - unfold SMap.E.eq in Hk. now subst.
  - now apply SMapF.empty_mapsto_iff in H.
Qed.

Lemma NoDup_single {A : Type} (x : A) : NoDup [x].
Proof. constructor; [intros [] | constructor]. Qed.

Ltac concrete_geometry :=
  unfold in_bounds, positive_box, positive_item, sw, sd, sh, ew, ed, eh, COORD_TOLERANCE;
  cbn; repeat split; lra.

Lemma air_current_valid : valid_current [s1_C1] air_current.
Proof.
  split; [apply NoDup_single | split; [apply NoDup_single|]].
  intros k infos Hm. apply MapsTo_single in Hm as [-> ->].
  exists s1_C1. split; [now left | split; [reflexivity | split]].
  - intros p [<- | []]. concrete_geometry.
  - intros p q [<- | []] [<- | []] Hne. contradiction.
Qed.

Lemma s4_current_valid : valid_current [s4_C1; s4_C2] s4_current.
Proof.
  split; [|split; [apply NoDup_single|]].
  - constructor; [intros [H | []]; discriminate H | apply NoDup_single].
  - intros k infos Hm. apply MapsTo_single in Hm as [-> ->].
    exists s4_C1. split; [now left | split; [reflexivity | split]].
    + intros p [<- | []]. concrete_geometry.
    + intros p q [<- | []] [<- | []] Hne. contradiction.
Qed.

Lemma s4_current_stable : stable_current [s4_C1; s4_C2] s4_current.
Proof.
  intros k infos c p Hm _ _ Hp. apply MapsTo_single in Hm as [-> ->].
  destruct Hp as [<- | []]. reflexivity.
Qed.

Lemma s4_items_valid : valid_items [s4_H] s4_current.
Proof.
  intros item [<- | []]. split.
  - concrete_geometry.
  - intros [H | []]. discriminate H.
Qed.

(** C1, as stated, fails.  This input meets the invariants asked of the
    input (unique ids, placements in bounds, of positive extent and
    pairwise non-overlapping), yet the only final placement, which is the
    current one returned as it is, hangs five units above the floor with
    nothing below it. *)
Lemma C1_unstable_current_placement_returned :
  valid_current [s1_C1] air_current /\
  valid_items [] air_current /\
  ~ all_stable [s1_C1]
      (PlacementOutput.placements
         (@suggest_placements_cpp StableStdSort [] [s1_C1] air_current)).
Proof.
  split; [exact air_current_valid | split; [intros item [] |]].
  intros H.
  destruct (H (PlacementResult.mk "X" "C1" (box 0 0 5 1 1 6))) as (c & _ & _ & Hst).
  - vm_compute. now left.
  - vm_compute in Hst. discriminate Hst.
Qed.

(** C1 at the stacking scenario. *)
Lemma C1_witness :
  (valid_current [s4_C1; s4_C2] s4_current /\ valid_items [s4_H] s4_current) /\
  let out := @suggest_placements_cpp StableStdSort [s4_H] [s4_C1; s4_C2] s4_current in
  no_overlap_within_containers (PlacementOutput.placements out) /\
  all_in_bounds [s4_C1; s4_C2] (PlacementOutput.placements out) /\
  (stable_current [s4_C1; s4_C2] s4_current ->
   all_stable [s4_C1; s4_C2] (PlacementOutput.placements out)).
Proof.
  split.
  - exact (conj s4_current_valid s4_items_valid).
  - exact (C1_output_placements_disjoint_in_bounds_stable StableStdSort
             [s4_H] [s4_C1; s4_C2] s4_current s4_current_valid s4_items_valid).
Defined.

(** ** No input validation *)

Lemma phase1_backlog_from_items containers_map container_ids items st :
  forall x, In x (snd (phase1 containers_map container_ids items st)) -> In x items.
Proof.
  unfold phase1.
  apply (fold_left_invariant (fun acc => forall x, In x (snd acc) -> In x items)).
  - intros x [].
  - intros [s p2] a Ha Hsub. simpl in Hsub.
    destruct (phase1_step_outcome containers_map container_ids s p2 a); simpl; auto.
    intros x Hx. apply in_app_or in Hx as [Hx | [<- | []]]; auto.
Qed.

Lemma phase3_failed_from_items containers_map container_ids items st output :
  (forall id, In id (PlacementOutput.failedItemIds output) ->
              In id (map ItemData.itemId items)) ->
  forall id,
    In id (PlacementOutput.failedItemIds
             (snd (phase3 containers_map container_ids items st output))) ->
    In id (map ItemData.itemId items).
Proof.
  intros H0. unfold phase3.
  apply (fold_left_invariant
           (fun acc => forall id, In id (PlacementOutput.failedItemIds (snd acc)) ->
                                  In id (map ItemData.itemId items))); [exact H0|].
  intros [s out] a Ha Hsub. simpl in Hsub.
  destruct (phase3_step_outcome containers_map container_ids s out a); simpl; auto.
  intros id Hid. apply in_app_or in Hid as [Hid | [<- | []]]; auto.
  now apply in_map.
Qed.

(** C5, as the code has it.  The engine validates nothing: whatever the
    input, valid or not, it runs its phases.  The failed ids are ids of
    incoming items, [success] is false exactly when there is a failed id,
    which is exactly when an error is present, and there is no
    rearrangement. *)
Theorem C5_failure_only_from_unplaced_items :
  forall (S : StdSort) items containers current,
    let out := suggest_placements_cpp items containers current in
    incl (PlacementOutput.failedItemIds out) (map ItemData.itemId items) /\
    (PlacementOutput.success out = false <-> PlacementOutput.failedItemIds out <> []) /\
    (PlacementOutput.success out = false <-> PlacementOutput.error out <> None) /\
    PlacementOutput.rearrangements out = [].
Proof.
  intros S items containers current. unfold suggest_placements_cpp.
  pose proof (phase1_backlog_from_items (make_containers_map containers)
                (make_container_ids containers) (sorted_incoming_items items)
                (mkSim current SSet.empty (seed_final_placements current))) as Hsub.
  destruct (phase1 _ _ _ _) as [st1 pass_2]. simpl in Hsub.
  pose proof (phase3_from_fresh_output (make_containers_map containers)
                (make_container_ids containers) (phase2 pass_2) st1) as Hcons.
  pose proof (phase3_failed_from_items (make_containers_map containers)
                (make_container_ids containers) (phase2 pass_2) st1
                (PlacementOutput.mk true None [] [] []) (fun id (H : In id []) => match H with end))
    as Hfailed.
  destruct (phase3 _ _ _ _ _) as [st3 output]. cbn [snd] in Hcons, Hfailed. cbv zeta.
  cbn [PlacementOutput.success PlacementOutput.error PlacementOutput.failedItemIds
       PlacementOutput.rearrangements].
  destruct Hcons as (Hr & _ & Hcases).
  split; [|split; [|split; [|exact Hr]]].
  - intros id Hid. apply Hfailed in Hid. unfold phase2 in Hid.
    apply in_map_iff in Hid as (x & <- & Hx). apply in_map.
    apply (Permutation_in _ (Permutation_sym (std_sort_permutation higher_priority_first items))).
    now apply Hsub.
  - destruct Hcases as [(Hf & Hs & He) | (Hf & Hs)]; rewrite Hs; [rewrite Hf|]; split; congruence.
  - unfold final_error.
    destruct Hcases as [(Hf & Hs & He) | (Hf & Hs)]; rewrite Hs.
    + rewrite Hf, He. split; congruence.
    + destruct (PlacementOutput.failedItemIds output); [congruence|]. split; congruence.
Qed.

(** C5, as stated, fails: an item of width zero is placed, and a current
    placement filed under a container that is not in the request is
    returned, both with [success] true and non-empty [placements]. *)
Lemma C5_invalid_input_not_rejected :
  (~ valid_items [flat_item] (SMap.empty _) /\
   let out := @suggest_placements_cpp StableStdSort [flat_item] [s1_C1] (SMap.empty _) in
   PlacementOutput.success out = true /\ PlacementOutput.error out = None /\
   PlacementOutput.placements out = [PlacementResult.mk "F" "C1" (box 0 9 0 0 10 1)] /\
   PlacementOutput.failedItemIds out = []) /\
  (~ valid_current [s1_C1] dangling_current /\
   let out := @suggest_placements_cpp StableStdSort [] [s1_C1] dangling_current in
   PlacementOutput.success out = true /\ PlacementOutput.error out = None /\
   PlacementOutput.placements out = [PlacementResult.mk "X" "C9" (box 0 0 0 1 1 1)]).
Proof.
  split; split.
  - intros H. destruct (H flat_item) as [(Hw & _) _]; [now left|].
    vm_compute in Hw. discriminate Hw.
  - vm_compute. repeat split.
  - intros (_ & _ & H).
    destruct (H "C9" [PlacementInfo.mk "X" "C9" (box 0 0 0 1 1 1) 50])
      as (c & [<- | []] & Hid & _).
    + apply SMapF.add_mapsto_iff. left. split; reflexivity.
    + discriminate Hid.
  - vm_compute. repeat split.
Qed.

(** ** The order in which the items are processed *)



Lemma subsequence_refl {A : Type} (l : list A) : subsequence l l.
Proof. induction l; constructor; assumption. Qed.










(** * Further properties of the code *)

(** ** Tolerance equality *)

Lemma Coordinates_eqb_true_iff (a b : Coordinates.t) :
  Coordinates_eqb a b = true <->
  Qabs (Coordinates.width a - Coordinates.width b) < COORD_TOLERANCE /\
  Qabs (Coordinates.depth a - Coordinates.depth b) < COORD_TOLERANCE /\
  Qabs (Coordinates.height a - Coordinates.height b) < COORD_TOLERANCE.
Proof.
  unfold Coordinates_eqb. rewrite !andb_true_iff, !ltb_lt. tauto.
Qed.

Lemma Qabs_diff_sym (x y : Q) : Qabs (x - y) == Qabs (y - x).
Proof.
  rewrite <- (Qabs_opp (y - x)). apply Qabs_wd. ring.
Qed.

Lemma Coordinates_eqb_sym (a b : Coordinates.t) : Coordinates_eqb a b = Coordinates_eqb b a.
Proof.
  apply eq_true_iff_eq. rewrite !Coordinates_eqb_true_iff.
  rewrite (Qabs_diff_sym (Coordinates.width a)), (Qabs_diff_sym (Coordinates.depth a)),
          (Qabs_diff_sym (Coordinates.height a)).
  tauto.
Qed.

Lemma Coordinates_eqb_refl (a : Coordinates.t) : Coordinates_eqb a a = true.
Proof.
  apply Coordinates_eqb_true_iff.
  assert (H : forall x : Q, Qabs (x - x) < COORD_TOLERANCE).
  { intros x. assert (E : x - x == 0) by ring. rewrite E. reflexivity. }
  auto.
Qed.

(** [operator==] on positions is reflexive and symmetric, [operator!=] is
    its negation, but it is not an equivalence: two positions can each
    equal a third without being equal to each other. *)
Theorem Position_eqb_reflexive_symmetric_not_transitive :
  (forall a, Position_eqb a a = true) /\
  (forall a b, Position_eqb a b = Position_eqb b a) /\
  (forall a b, Position_neqb a b = negb (Position_eqb a b)) /\
  (exists a b c, Position_eqb a b = true /\ Position_eqb b c = true /\
                 Position_eqb a c = false).
Proof.
  split; [|split; [|split]].
  - intros a. unfold Position_eqb. now rewrite !Coordinates_eqb_refl.
  - intros a b. unfold Position_eqb.
    now rewrite (Coordinates_eqb_sym (Position.startCoordinates a)),
                (Coordinates_eqb_sym (Position.endCoordinates a)).
  - reflexivity.
  - exists (box 0 0 0 1 1 1), (box (6 # 10000000) 0 0 1 1 1), (box (12 # 10000000) 0 0 1 1 1).
    repeat split; reflexivity.
Qed.

(** ** Overlap and stability *)

(** [boxes_overlap] does not depend on the order of its arguments, and a
    box overlaps itself exactly when it is thicker than the tolerance on
    every axis. *)
Theorem boxes_overlap_symmetric_and_self :
  (forall a b, boxes_overlap a b = boxes_overlap b a) /\
  (forall p, boxes_overlap p p = true <->
             sw p + COORD_TOLERANCE < ew p /\
             sd p + COORD_TOLERANCE < ed p /\
             sh p + COORD_TOLERANCE < eh p).
Proof.
  split; [exact boxes_overlap_sym|].
  intros p. rewrite boxes_overlap_true_iff. unfold wd_overlap, h_overlap. split.
  - intros [[Hw Hd] Hh]. repeat split; apply Qnot_le_lt; tauto.
  - intros (Hw & Hd & Hh). repeat split; intros [H|H]; lra.
Qed.

(** Stability only grows with the placements: a candidate that is stable
    against some placements is stable against any collection that holds
    them all, in any order and whatever the container argument. *)
Theorem is_stable_kept_by_more_placements :
  forall pos c c' (l1 l2 : list PlacementInfo.t),
    (forall q, In q l1 -> In q l2) ->
    is_stable pos c l1 = true -> is_stable pos c' l2 = true.
Proof. exact is_stable_mono. Qed.

Lemma is_stable_kept_by_more_placements_witness :
  (forall q, In q [s3_B] -> In q [s4_L; s3_B]) /\
  is_stable (box 0 0 1 2 2 2) s4_C1 [s3_B] = true /\
  is_stable (box 0 0 1 2 2 2) s4_C2 [s4_L; s3_B] = true.
Proof.
  assert (H : forall q, In q [s3_B] -> In q [s4_L; s3_B]).
  { intros q [<- | []]. right. now left. }
  split; [exact H | split; [reflexivity|]].
  apply (is_stable_kept_by_more_placements (box 0 0 1 2 2 2) s4_C1 s4_C2 [s3_B] [s4_L; s3_B] H).
  reflexivity.
Defined.

Lemma supports_centre_true_iff (pos : Position.t) (q : PlacementInfo.t) :
  supports_centre pos q = true <->
  Qabs (eh (PlacementInfo.position q) - sh pos) < COORD_TOLERANCE /\
  (sw (PlacementInfo.position q) - COORD_TOLERANCE <= sw pos + (ew pos - sw pos) / 2 /\
   sw pos + (ew pos - sw pos) / 2 <= ew (PlacementInfo.position q) + COORD_TOLERANCE) /\
  (sd (PlacementInfo.position q) - COORD_TOLERANCE <= sd pos + (ed pos - sd pos) / 2 /\
   sd pos + (ed pos - sd pos) / 2 <= ed (PlacementInfo.position q) + COORD_TOLERANCE).
Proof.
  unfold supports_centre.
  destruct (ltb (Qabs (eh (PlacementInfo.position q) - sh pos)) COORD_TOLERANCE) eqn:E.
  - apply ltb_lt in E. rewrite !andb_true_iff, !leb_le. tauto.
  - split; [discriminate|]. intros [H _]. apply ltb_lt in H. congruence.
Qed.

(** For a candidate wider and deeper than four tolerances, the first
    [is_stable] of the file (centre of the base within a footprint) is the
    stricter of the two: whatever it accepts, the later one accepts. *)
Theorem is_stable_centre_implies_is_stable :
  forall pos c (placed : list PlacementInfo.t),
    4 * COORD_TOLERANCE < ew pos - sw pos ->
    4 * COORD_TOLERANCE < ed pos - sd pos ->
    is_stable_centre pos c placed = true -> is_stable pos c placed = true.
Proof.
  intros pos c placed Hw Hd. unfold is_stable_centre, is_stable.
  destruct (ltb (Qabs (sh pos)) COORD_TOLERANCE); [reflexivity|].
  rewrite !existsb_exists. intros (q & Hin & Hq). exists q. split; [exact Hin|].
  apply supports_centre_true_iff in Hq as (Hnear & (Hw1 & Hw2) & (Hd1 & Hd2)).
  apply supports_true_iff. split; [exact Hnear|]. unfold wd_overlap.
  assert (Hhw : (ew pos - sw pos) / 2 == (ew pos - sw pos) * (1 # 2)) by reflexivity.
  assert (Hhd : (ed pos - sd pos) / 2 == (ed pos - sd pos) * (1 # 2)) by reflexivity.
  rewrite Hhw in Hw1, Hw2. rewrite Hhd in Hd1, Hd2.
  split; intros [H|H]; lra.
Qed.

Lemma is_stable_centre_implies_is_stable_witness :
  (4 * COORD_TOLERANCE < ew (box 0 0 1 2 2 2) - sw (box 0 0 1 2 2 2) /\
   4 * COORD_TOLERANCE < ed (box 0 0 1 2 2 2) - sd (box 0 0 1 2 2 2) /\
   is_stable_centre (box 0 0 1 2 2 2) s4_C1 [s3_B] = true) /\
  is_stable (box 0 0 1 2 2 2) s4_C1 [s3_B] = true.
Proof.
  assert (Hw : 4 * COORD_TOLERANCE < ew (box 0 0 1 2 2 2) - sw (box 0 0 1 2 2 2))
    by reflexivity.
  assert (Hd : 4 * COORD_TOLERANCE < ed (box 0 0 1 2 2 2) - sd (box 0 0 1 2 2 2))
    by reflexivity.
  assert (Hc : is_stable_centre (box 0 0 1 2 2 2) s4_C1 [s3_B] = true) by reflexivity.
  split; [exact (conj Hw (conj Hd Hc))|].
  exact (is_stable_centre_implies_is_stable (box 0 0 1 2 2 2) s4_C1 [s3_B] Hw Hd Hc).
Defined.

(** ** The search of the spot finder *)

Lemma first_some_ext {A B : Type} (f g : A -> option B) (l : list A) :
  (forall x, f x = g x) -> first_some f l = first_some g l.
Proof.
  intros H. induction l as [|x l IH]; simpl; [reflexivity|]. now rewrite H, IH.
Qed.

Lemma first_some_all_none {A B : Type} (body : A -> option B) (l : list A) :
  (forall x, In x l -> body x = None) -> first_some body l = None.
Proof.
  induction l as [|x l IH]; intros H; simpl; [reflexivity|].
  rewrite (H x) by now left. apply IH. intros y Hy. apply H. now right.
Qed.

Lemma first_some_not_none {A B : Type} (body : A -> option B) (l : list A) (x : A) :
  In x l -> body x <> None -> first_some body l <> None.
Proof.
  induction l as [|y l IH]; simpl; [intros []|].
  intros [-> | Hin] Hx.
  - destruct (body x); [discriminate | contradiction].
  - destruct (body y); [discriminate | now apply IH].
Qed.

Lemma find_spot_in_container_as_loops item container placed high :
  find_spot_in_container item container placed high =
  first_some (orientation_loop_body container placed high) (orientations item).
Proof.
  unfold find_spot_in_container. apply first_some_ext. intros [[iw id] ih]. reflexivity.
Qed.

Lemma check_candidate_orientation container placed ori cand pos ori' :
  check_candidate container placed ori cand = Some (pos, ori') -> ori' = ori.
Proof.
  unfold check_candidate.
  destruct (_ || _ || _); [discriminate|].
  destruct (existsb _ placed); [discriminate|].
  destruct (negb _); [discriminate|]. now intros [= _ <-].
Qed.

(** The contract of the spot finder.  A returned spot spans the returned
    orientation, which is one of the six of the item; it starts at a
    non-negative width and depth, on the floor or at the top of a placed
    item; it ends within the container up to the tolerance; it overlaps no
    placed item; and it is stable. *)
Theorem find_spot_in_container_contract :
  forall item container placed high pos iw id ih,
    find_spot_in_container item container placed high = Some (pos, (iw, id, ih)) ->
    In (iw, id, ih) (orientations item) /\
    (ew pos = sw pos + iw /\ ed pos = sd pos + id /\ eh pos = sh pos + ih) /\
    (0 <= sw pos /\ 0 <= sd pos /\
     (sh pos = 0 \/ exists p, In p placed /\ sh pos = eh (PlacementInfo.position p))) /\
    (ew pos <= ContainerData.width container + COORD_TOLERANCE /\
     ed pos <= ContainerData.depth container + COORD_TOLERANCE /\
     eh pos <= ContainerData.height container + COORD_TOLERANCE) /\
    (forall p, In p placed -> boxes_overlap pos (PlacementInfo.position p) = false) /\
    is_stable pos container placed = true.
Proof.
  intros item container placed high pos iw id ih H.
  rewrite find_spot_in_container_as_loops in H.
  apply first_some_found in H as ([[iw' id'] ih'] & Hori & H).
  unfold orientation_loop_body in H.
  destruct (_ || _ || _); [discriminate|].
  apply first_some_found in H as (start_h & Hh & H).
  destruct (ltb _ (start_h + ih')); [discriminate|].
  apply first_some_found in H as (d_idx & _ & H). cbv zeta in H.
  destruct (ltb _ (_ + id')); [discriminate|].
  apply first_some_found in H as (w_idx & _ & H). cbv zeta in H.
  destruct (ltb _ (_ + iw')); [discriminate|].
  pose proof (check_candidate_orientation _ _ _ _ _ _ H) as [= -> -> ->].
  apply check_candidate_sound in H as (-> & Hb & Hov & Hst).
  split; [exact Hori|]. split; [repeat split|].
  split; [|split; [exact Hb | split; [exact Hov | exact Hst]]].
  unfold candidate, sw, sd, sh. simpl.
  split; [apply std_max_zero_nonneg | split; [apply std_max_zero_nonneg |]].
  now apply In_base_heights.
Qed.

Lemma find_spot_in_container_contract_witness :
  find_spot_in_container s1_A s1_C1 [] false = Some (box 0 7 0 2 10 1, (2, 3, 1)) /\
  In (2, 3, 1) (orientations s1_A) /\
  (ew (box 0 7 0 2 10 1) = sw (box 0 7 0 2 10 1) + 2 /\
   ed (box 0 7 0 2 10 1) = sd (box 0 7 0 2 10 1) + 3 /\
   eh (box 0 7 0 2 10 1) = sh (box 0 7 0 2 10 1) + 1) /\
  (0 <= sw (box 0 7 0 2 10 1) /\ 0 <= sd (box 0 7 0 2 10 1) /\
   (sh (box 0 7 0 2 10 1) = 0 \/
    exists p, In p [] /\ sh (box 0 7 0 2 10 1) = eh (PlacementInfo.position p))) /\
  (ew (box 0 7 0 2 10 1) <= ContainerData.width s1_C1 + COORD_TOLERANCE /\
   ed (box 0 7 0 2 10 1) <= ContainerData.depth s1_C1 + COORD_TOLERANCE /\
   eh (box 0 7 0 2 10 1) <= ContainerData.height s1_C1 + COORD_TOLERANCE) /\
  (forall p, In p [] -> boxes_overlap (box 0 7 0 2 10 1) (PlacementInfo.position p) = false) /\
  is_stable (box 0 7 0 2 10 1) s1_C1 [] = true.
Proof.
  assert (H : find_spot_in_container s1_A s1_C1 [] false
              = Some (box 0 7 0 2 10 1, (2, 3, 1))) by (vm_compute; reflexivity).
  split; [exact H|].
  exact (find_spot_in_container_contract s1_A s1_C1 [] false (box 0 7 0 2 10 1) 2 3 1 H).
Defined.

Lemma orientation_loop_body_none_unfit container placed high orientation :
  ~ orientation_fits container orientation ->
  orientation_loop_body container placed high orientation = None.
Proof.
  destruct orientation as [[iw id] ih]. unfold orientation_fits, orientation_loop_body.
  intros Hn.
  destruct (ltb (ContainerData.width container + COORD_TOLERANCE) iw) eqn:Ew; [reflexivity|].
  destruct (ltb (ContainerData.depth container + COORD_TOLERANCE) id) eqn:Ed; [reflexivity|].
  destruct (ltb (ContainerData.height container + COORD_TOLERANCE) ih) eqn:Eh; [reflexivity|].
  apply ltb_ge in Ew, Ed, Eh. exfalso. apply Hn. auto.
Qed.

Lemma find_spot_none_unfit item container placed high :
  fits_nowhere_in item container ->
  find_spot_in_container item container placed high = None.
Proof.
  intros Hn. rewrite find_spot_in_container_as_loops.
  apply first_some_all_none. intros ori Hori.
  apply orientation_loop_body_none_unfit. now apply Hn.
Qed.

(** An item that exceeds the container on some axis in each of its six
    orientations gets no spot, whatever the container holds. *)
Theorem find_spot_in_container_none_when_nothing_fits :
  forall item container placed high,
    fits_nowhere_in item container ->
    find_spot_in_container item container placed high = None.
Proof. exact find_spot_none_unfit. Qed.

Lemma s5_A_fits_nowhere : fits_nowhere_in s5_A s5_C1.
Proof.
  intros ori Hori. unfold orientations in Hori. simpl in Hori.
  repeat (destruct Hori as [<- | Hori];
          [unfold orientation_fits, COORD_TOLERANCE; simpl; intros (H & _); lra|]).
  destruct Hori.
Qed.

Lemma find_spot_in_container_none_when_nothing_fits_witness :
  fits_nowhere_in s5_A s5_C1 /\ find_spot_in_container s5_A s5_C1 [s3_B] true = None.
Proof.
  split; [exact s5_A_fits_nowhere|].
  exact (find_spot_in_container_none_when_nothing_fits s5_A s5_C1 [s3_B] true
           s5_A_fits_nowhere).
Defined.

(** ** The search in an empty container *)

Lemma std_max_upper (a b : double) : b <= std_max a b.
Proof.
  unfold std_max. destruct (ltb a b) eqn:E; [apply Qle_refl | now apply ltb_ge in E].
Qed.

Lemma std_min_upper (a b : double) : std_min a b <= b.
Proof.
  unfold std_min. destruct (ltb b a) eqn:E; [apply Qle_refl | now apply ltb_ge in E].
Qed.

Lemma std_min_lower (a b : double) : std_min a b <= a.
Proof.
  unfold std_min. destruct (ltb b a) eqn:E; [|apply Qle_refl].
  apply ltb_lt in E. now apply Qlt_le_weak.
Qed.

Lemma to_int_nonneg (x : double) : 0 <= x -> (0 <= to_int x)%Z.
Proof.
  intros H. unfold to_int. apply Z.quot_pos; [|apply Pos2Z.is_pos].
  unfold Qle in H. simpl in H. lia.
Qed.

Lemma steps_at_least_one (c : double) :
  0 <= c -> Z.le 1 (Z.add (to_int (c / std_max (c / 25) (2 # 100))) 2).
Proof.
  intros H.
  assert (Hinc : 0 < std_max (c / 25) (2 # 100)).
  { eapply Qlt_le_trans; [|apply std_max_upper]. reflexivity. }
  assert (0 <= c / std_max (c / 25) (2 # 100)).
  { apply Qle_shift_div_l; [exact Hinc|]. lra. }
  pose proof (to_int_nonneg _ H0). lia.
Qed.

Lemma int_range_head (n : Z) : (1 <= n)%Z -> exists tl, int_range n = 0%Z :: tl.
Proof.
  intros H. unfold int_range. destruct (Z.to_nat n) as [|k] eqn:E; [lia|].
  simpl. eauto.
Qed.

(** The clamp of a start coordinate, [std::max(0.0, std::min(x, c - i))]. *)
Lemma clamp_within (x c i : double) :
  i <= c + COORD_TOLERANCE ->
  0 <= std_max 0 (std_min x (c - i)) /\
  std_max 0 (std_min x (c - i)) + i <= c + COORD_TOLERANCE.
Proof.
  intros Hi. split; [apply std_max_zero_nonneg|].
  pose proof (std_min_upper x (c - i)) as Hm. pose proof COORD_TOLERANCE_positive.
  unfold std_max. destruct (ltb 0 (std_min x (c - i))); lra.
Qed.

Lemma clamp_at_zero (inc c i : double) :
  std_max 0 (std_min (inject_Z 0 * inc) (c - i)) = 0.
Proof.
  pose proof (std_min_lower (inject_Z 0 * inc) (c - i)) as Hm.
  unfold std_max. destruct (ltb 0 (std_min (inject_Z 0 * inc) (c - i))) eqn:E; [|reflexivity].
  apply ltb_lt in E. exfalso.
  assert (Hz : inject_Z 0 * inc == 0) by ring. lra.
Qed.

(** In an empty container with non-negative width and depth, the body of
    the orientation loop returns at its very first candidate for an
    orientation that fits: base height 0, first depth, width 0. *)
Lemma orientation_loop_body_empty container high iw id ih :
  0 <= ContainerData.width container -> 0 <= ContainerData.depth container ->
  orientation_fits container (iw, id, ih) ->
  orientation_loop_body container [] high (iw, id, ih) =
  Some (candidate 0 (first_depth container id high) 0 iw id ih, (iw, id, ih)).
Proof.
  intros Hcw Hcd (Hw & Hd & Hh). pose proof COORD_TOLERANCE_positive as Heps.
  unfold orientation_loop_body.
  apply ltb_ge in Hw as Ew. apply ltb_ge in Hd as Ed. apply ltb_ge in Hh as Eh.
  rewrite Ew, Ed, Eh. cbn [orb].
  unfold height_loop. cbn [base_heights fold_left first_some].
  assert (Eh0 : ltb (ContainerData.height container + COORD_TOLERANCE) (0 + ih) = false)
    by (apply ltb_ge; lra).
  rewrite Eh0.
  unfold depth_loop.
  destruct (int_range_head _ (steps_at_least_one _ Hcd)) as (dtl & ->).
  cbn [first_some]. cbv zeta. fold (first_depth container id high).
  destruct (clamp_within
              (if high
               then inject_Z 0 * std_max (ContainerData.depth container / 25) (2 # 100)
               else ContainerData.depth container
                    - inject_Z (0 + 1) * std_max (ContainerData.depth container / 25) (2 # 100))
              (ContainerData.depth container) id Hd) as [Hd0 Hd1].
  fold (first_depth container id high) in Hd0, Hd1.
  apply ltb_ge in Hd1 as Ed1. rewrite Ed1.
  unfold width_loop.
  destruct (int_range_head _ (steps_at_least_one _ Hcw)) as (wtl & ->).
  cbn [first_some]. cbv zeta. rewrite clamp_at_zero.
  assert (Ew0 : ltb (ContainerData.width container + COORD_TOLERANCE) (0 + iw) = false)
    by (apply ltb_ge; lra).
  rewrite Ew0.
  unfold check_candidate, candidate, ew, ed, eh, is_stable, sh. cbn [Position.endCoordinates
    Position.startCoordinates Coordinates.width Coordinates.depth Coordinates.height existsb].
  rewrite Ew0, Ed1, Eh0. reflexivity.
Qed.

Lemma first_depth_high container item_d : first_depth container item_d true = 0.
Proof. unfold first_depth. apply clamp_at_zero. Qed.

Lemma first_depth_low container item_d :
  std_max (ContainerData.depth container / 25) (2 # 100) <= item_d ->
  item_d <= ContainerData.depth container ->
  first_depth container item_d false == ContainerData.depth container - item_d.
Proof.
  intros Hinc Hd. unfold first_depth.
  set (inc := std_max (ContainerData.depth container / 25) (2 # 100)) in *.
  assert (Hone : inject_Z (0 + 1) * inc == inc) by (simpl; ring).
  unfold std_max at 1, std_min.
  destruct (ltb (ContainerData.depth container - item_d)
                (ContainerData.depth container - inject_Z (0 + 1) * inc)) eqn:E1.
  - destruct (ltb 0 (ContainerData.depth container - item_d)) eqn:E2; [reflexivity|].
    apply ltb_ge in E2. lra.
  - apply ltb_ge in E1.
    destruct (ltb 0 (ContainerData.depth container - inject_Z (0 + 1) * inc)) eqn:E2.
    + lra.
    + apply ltb_ge in E2. lra.
Qed.

(** An empty container of non-negative width and depth has a spot for an
    item exactly when one of the six orientations of the item is within
    the container up to the tolerance; the spot is then on the floor. *)
Theorem find_spot_in_empty_container_iff_some_orientation_fits :
  forall item container high,
    0 <= ContainerData.width container ->
    0 <= ContainerData.depth container ->
    ((exists orientation, In orientation (orientations item) /\
                          orientation_fits container orientation) <->
     exists pos orientation,
       find_spot_in_container item container [] high = Some (pos, orientation) /\
       sh pos = 0).
Proof.
  intros item container high Hcw Hcd. split.
  - intros ([[iw id] ih] & Hin & Hfit).
    pose proof (orientation_loop_body_empty container high iw id ih Hcw Hcd Hfit) as Hbody.
    destruct (find_spot_in_container item container [] high) as [[pos ori]|] eqn:E.
    + exists pos, ori. split; [reflexivity|].
      destruct ori as [[iw' id'] ih'].
      apply find_spot_in_container_sound in E as ((_ & _ & Hh) & _).
      cbn [base_heights fold_left] in Hh. destruct Hh as [<- | []]. reflexivity.
    + exfalso. rewrite find_spot_in_container_as_loops in E.
      apply (first_some_not_none _ _ _ Hin) in E; [exact E|].
      rewrite Hbody. discriminate.
  - intros (pos & [[iw id] ih] & H & Hsh). exists (iw, id, ih).
    rewrite find_spot_in_container_as_loops in H.
    apply first_some_found in H as ([[iw' id'] ih'] & Hori & H).
    unfold orientation_loop_body in H.
    destruct (_ || _ || _) eqn:Eg; [discriminate|].
    assert (Eo : (iw, id, ih) = (iw', id', ih')).
    { unfold height_loop in H. apply first_some_found in H as (h0 & _ & H).
      destruct (ltb _ (h0 + ih')); [discriminate|].
      unfold depth_loop in H. apply first_some_found in H as (d0 & _ & H). cbv zeta in H.
      destruct (ltb _ (_ + id')); [discriminate|].
      unfold width_loop in H. apply first_some_found in H as (w0 & _ & H). cbv zeta in H.
      destruct (ltb _ (_ + iw')); [discriminate|].
      now apply check_candidate_orientation in H. }
    rewrite Eo. split; [exact Hori|].
    apply orb_false_iff in Eg as [Eg Eh]. apply orb_false_iff in Eg as [Ew Ed].
    apply ltb_ge in Ew, Ed, Eh. repeat split; assumption.
Qed.

Lemma find_spot_in_empty_container_iff_some_orientation_fits_witness :
  (0 <= ContainerData.width s1_C1 /\ 0 <= ContainerData.depth s1_C1) /\
  ((exists orientation, In orientation (orientations s1_A) /\
                        orientation_fits s1_C1 orientation) <->
   exists pos orientation,
     find_spot_in_container s1_A s1_C1 [] false = Some (pos, orientation) /\ sh pos = 0).
Proof.
  assert (Hw : 0 <= ContainerData.width s1_C1) by (simpl; lra).
  assert (Hd : 0 <= ContainerData.depth s1_C1) by (simpl; lra).
  split; [exact (conj Hw Hd)|].
  exact (find_spot_in_empty_container_iff_some_orientation_fits s1_A s1_C1 false Hw Hd).
Defined.

(** Where the first spot of an empty container is.  When the item fits
    as given (width, depth, height in that order), it is placed unrotated
    on the floor at width 0; at depth 0 when the priority is high; and,
    when the priority is not high and the item is at least one depth step
    deep and no deeper than the container, flush against the back wall. *)
Theorem find_spot_in_empty_container_front_or_back :
  forall item container high,
    0 <= ContainerData.width container ->
    0 <= ContainerData.depth container ->
    orientation_fits container
      (ItemData.width item, ItemData.depth item, ItemData.height item) ->
    exists pos,
      find_spot_in_container item container [] high =
        Some (pos, (ItemData.width item, ItemData.depth item, ItemData.height item)) /\
      sw pos = 0 /\ sh pos = 0 /\
      ew pos = 0 + ItemData.width item /\
      ed pos = sd pos + ItemData.depth item /\
      eh pos = 0 + ItemData.height item /\
      (high = true -> sd pos = 0) /\
      (high = false ->
       std_max (ContainerData.depth container / 25) (2 # 100) <= ItemData.depth item ->
       ItemData.depth item <= ContainerData.depth container ->
       ed pos == ContainerData.depth container).
Proof.
  intros item container high Hcw Hcd Hfit.
  exists (candidate 0 (first_depth container (ItemData.depth item) high) 0
                    (ItemData.width item) (ItemData.depth item) (ItemData.height item)).
  split.
  - rewrite find_spot_in_container_as_loops. unfold orientations. cbn [first_some].
    now rewrite (orientation_loop_body_empty container high _ _ _ Hcw Hcd Hfit).
  - unfold candidate, sw, sd, sh, ew, ed, eh. cbn.
    repeat split; try reflexivity.
    + intros ->. apply first_depth_high.
    + intros -> Hinc Hd. rewrite (first_depth_low _ _ Hinc Hd). ring.
Qed.

Lemma find_spot_in_empty_container_front_or_back_witness :
  (0 <= ContainerData.width s1_C1 /\ 0 <= ContainerData.depth s1_C1 /\
   orientation_fits s1_C1 (ItemData.width s1_A, ItemData.depth s1_A, ItemData.height s1_A)) /\
  exists pos,
    find_spot_in_container s1_A s1_C1 [] false =
      Some (pos, (ItemData.width s1_A, ItemData.depth s1_A, ItemData.height s1_A)) /\
    sw pos = 0 /\ sh pos = 0 /\
    ew pos = 0 + ItemData.width s1_A /\
    ed pos = sd pos + ItemData.depth s1_A /\
    eh pos = 0 + ItemData.height s1_A /\
    (false = true -> sd pos = 0) /\
    (false = false ->
     std_max (ContainerData.depth s1_C1 / 25) (2 # 100) <= ItemData.depth s1_A ->
     ItemData.depth s1_A <= ContainerData.depth s1_C1 ->
     ed pos == ContainerData.depth s1_C1).
Proof.
  assert (Hw : 0 <= ContainerData.width s1_C1) by (simpl; lra).
  assert (Hd : 0 <= ContainerData.depth s1_C1) by (simpl; lra).
  assert (Hf : orientation_fits s1_C1
                 (ItemData.width s1_A, ItemData.depth s1_A, ItemData.height s1_A)).
  { unfold orientation_fits, COORD_TOLERANCE. simpl. repeat split; lra. }
  split; [exact (conj Hw (conj Hd Hf))|].
  exact (find_spot_in_empty_container_front_or_back s1_A s1_C1 false Hw Hd Hf).
Defined.

(** ** The base heights *)

Lemma In_set_insert_keeps (x h : double) (s : list double) :
  In h s -> In h (set_insert x s).
Proof.
  induction s as [|y s IH]; simpl; [intros []|].
  destruct (ltb x y); [|destruct (ltb y x)]; simpl; intros [<-|H]; auto.
Qed.

Lemma In_set_insert_new (x : double) (s : list double) :
  exists h, In h (set_insert x s) /\ h == x.
Proof.
  induction s as [|y s IH]; simpl.
  - exists x. split; [now left | reflexivity].
  - destruct (ltb x y) eqn:E1; [|destruct (ltb y x) eqn:E2].
    + exists x. split; [now left | reflexivity].
    + destruct IH as (h & Hin & Hh). exists h. split; [now right | exact Hh].
    + exists y. split; [now left|]. apply ltb_ge in E1, E2. now apply Qle_antisym.
Qed.

Lemma Qabs_far (d t : Q) : ~ Qabs d < t -> d <= - t \/ t <= d.
Proof.
  intros H. apply Qnot_lt_le in H. revert H. apply Qabs_case; intros; lra.
Qed.

Lemma existsb_false_all {A : Type} (f : A -> bool) (l : list A) :
  existsb f l = false -> forall x, In x l -> f x = false.
Proof.
  intros H x Hx. destruct (f x) eqn:E; [|reflexivity].
  assert (existsb f l = true) by (apply existsb_exists; eauto). congruence.
Qed.

(** Ascending with a gap of at least ten tolerances between neighbours. *)
Definition well_spaced (s : list double) : Prop :=
  StronglySorted (fun a b => a + COORD_TOLERANCE * 10 <= b) s.

Lemma set_insert_well_spaced (x : double) (s : list double) :
  well_spaced s ->
  (forall y, In y s -> ~ Qabs (x - y) < COORD_TOLERANCE * 10) ->
  well_spaced (set_insert x s).
Proof.
  unfold well_spaced. induction 1 as [|y s Hs IH Hall]; intros Hfar; simpl.
  - repeat constructor.
  - assert (Hy : x - y <= - (COORD_TOLERANCE * 10) \/ COORD_TOLERANCE * 10 <= x - y)
      by (apply Qabs_far, Hfar; now left).
    assert (Hfar' : forall z, In z s -> ~ Qabs (x - z) < COORD_TOLERANCE * 10)
      by (intros z Hz; apply Hfar; now right).
    pose proof COORD_TOLERANCE_positive as Heps.
    destruct (ltb x y) eqn:E1; [|destruct (ltb y x) eqn:E2].
    + apply ltb_lt in E1. constructor; [now constructor|].
      constructor; [lra|]. eapply Forall_impl; [|exact Hall]. intros z Hz. cbv beta in Hz. lra.
    + apply ltb_lt in E2. constructor; [now apply IH|].
      apply Forall_forall. intros z Hz. apply In_set_insert in Hz as [-> | Hz]; [lra|].
      now apply (proj1 (Forall_forall _ _) Hall).
    + now constructor.
Qed.

(** The candidate base heights: the floor is always one of them; they are
    ascending and at least ten tolerances apart; each is the floor or the
    top of a placed item; and the top of every placed item is within ten
    tolerances of one of them. *)
Theorem base_heights_floor_tops_well_spaced :
  forall placed : list PlacementInfo.t,
    In 0 (base_heights placed) /\
    well_spaced (base_heights placed) /\
    (forall h, In h (base_heights placed) ->
               h = 0 \/ exists p, In p placed /\ h = eh (PlacementInfo.position p)) /\
    (forall p, In p placed ->
               exists h, In h (base_heights placed) /\
                         Qabs (eh (PlacementInfo.position p) - h) < COORD_TOLERANCE * 10).
Proof.
  intros placed.
  set (step := fun (s : list double) (placed_item : PlacementInfo.t) =>
                 if existsb (fun h => ltb (Qabs (eh (PlacementInfo.position placed_item) - h))
                                          (COORD_TOLERANCE * 10)) s
                 then s
                 else set_insert (eh (PlacementInfo.position placed_item)) s).
  assert (Hfold : base_heights placed = fold_left step placed [0]) by reflexivity.
  destruct (fold_left_covers
              (fun s => In 0 s /\ well_spaced s)
              (fun s p => exists h, In h s /\
                                    Qabs (eh (PlacementInfo.position p) - h)
                                    < COORD_TOLERANCE * 10)
              step) with (l := placed) (b := [0]) as ((H0 & Hsp) & Hcov & _).
  - intros s p [Hz Hs]. unfold step.
    destruct (existsb _ s) eqn:E; [now split|]. split.
    + now apply In_set_insert_keeps.
    + apply set_insert_well_spaced; [exact Hs|]. intros y Hy Hclose.
      apply (existsb_false_all _ _ E) in Hy. apply ltb_lt in Hclose. congruence.
  - intros s p _. unfold step. destruct (existsb _ s) eqn:E.
    + apply existsb_exists in E as (h & Hin & Hh). apply ltb_lt in Hh. eauto.
    + destruct (In_set_insert_new (eh (PlacementInfo.position p)) s) as (h & Hin & Hh).
      exists h. split; [exact Hin|]. rewrite Hh.
      assert (Ez : eh (PlacementInfo.position p) - eh (PlacementInfo.position p) == 0) by ring.
      rewrite Ez. reflexivity.
  - intros s p p' _ (h & Hin & Hh). exists h. split; [|exact Hh].
    unfold step. destruct (existsb _ s); [exact Hin | now apply In_set_insert_keeps].
  - split; [now left | repeat constructor].
  - rewrite Hfold. split; [exact H0|]. split; [exact Hsp|]. split; [|exact Hcov].
    rewrite <- Hfold. apply In_base_heights.
Qed.

(** ** First fit in the container loop *)

Lemma first_fit_ext eligible containers_map item container_ids m1 m2 :
  (forall k, placements_in k m1 = placements_in k m2) ->
  first_fit eligible containers_map item container_ids m1 =
  first_fit eligible containers_map item container_ids m2.
Proof.
  intros H. induction container_ids as [|cid rest IH]; simpl; [reflexivity|].
  now rewrite H, IH.
Qed.

Lemma place_in_containers_first_fit :
  forall eligible containers_map item container_ids st,
    let r := place_in_containers eligible containers_map item (is_high_prio item)
                                 container_ids st in
    match first_fit eligible containers_map item container_ids (simulation_placements st) with
    | Some (container_id, pos) =>
        fst r = true /\
        eligible (container_at container_id containers_map) = true /\
        In container_id container_ids /\
        final_placements_map (snd r) =
          SMap.add (ItemData.itemId item) (new_result item container_id pos)
                   (final_placements_map st) /\
        processed_item_ids (snd r) = SSet.add (ItemData.itemId item) (processed_item_ids st) /\
        placements_in container_id (simulation_placements (snd r)) =
          placements_in container_id (simulation_placements st)
          ++ [new_placement item container_id pos] /\
        (forall k, k <> container_id ->
                   placements_in k (simulation_placements (snd r)) =
                   placements_in k (simulation_placements st))
    | None => fst r = false /\ unchanged st (snd r)
    end.
Proof.
  intros eligible containers_map item container_ids.
  induction container_ids as [|cid rest IH]; intros st; cbv zeta; simpl.
  - repeat split.
  - destruct (eligible (container_at cid containers_map)) eqn:Eel.
    + pose proof (subscript_spec cid (simulation_placements st)) as [Hcur Hsim].
      destruct (subscript cid (simulation_placements st)) as [cur sim1]. simpl in Hcur, Hsim.
      subst cur.
      destruct (find_spot_in_container item (container_at cid containers_map)
                  (placements_in cid (simulation_placements st)) (is_high_prio item))
        as [[pos ori]|] eqn:Espot; simpl.
      * repeat split; auto.
        -- apply placements_in_add_same.
        -- intros k Hk. rewrite placements_in_add_other by congruence. apply Hsim.
      * specialize (IH (mkSim sim1 (processed_item_ids st) (final_placements_map st))).
        cbv zeta in IH. simpl in IH.
        rewrite (first_fit_ext _ _ _ _ sim1 (simulation_placements st) Hsim) in IH.
        destruct (first_fit eligible containers_map item rest (simulation_placements st))
          as [[c pos]|].
        -- destruct IH as (H1 & H2 & H3 & H4 & H5 & H6 & H7).
           repeat split; auto.
           ++ rewrite H6. now rewrite Hsim.
           ++ intros k Hk. rewrite H7 by exact Hk. apply Hsim.
        -- destruct IH as (H1 & H2 & H3 & H4). repeat split; auto.
           intros k. rewrite H4. apply Hsim.
    + specialize (IH st). cbv zeta in IH.
      destruct (first_fit eligible containers_map item rest (simulation_placements st))
        as [[c pos]|].
      * destruct IH as (H1 & H2 & H3 & H4 & H5 & H6 & H7). repeat split; auto.
      * exact IH.
Qed.

(** The container loop is a first fit.  Containers are tried in the order
    of the request; the item is committed to the first eligible container
    in which the finder has a spot, at that spot, and the other containers
    keep their placements; when no eligible container has a spot, nothing
    is placed and the state keeps its placements, processed ids and final
    map. *)
Theorem place_in_containers_is_first_fit :
  forall eligible containers_map item container_ids st,
    let r := place_in_containers eligible containers_map item (is_high_prio item)
                                 container_ids st in
    match first_fit eligible containers_map item container_ids (simulation_placements st) with
    | Some (container_id, pos) =>
        fst r = true /\
        eligible (container_at container_id containers_map) = true /\
        In container_id container_ids /\
        final_placements_map (snd r) =
          SMap.add (ItemData.itemId item) (new_result item container_id pos)
                   (final_placements_map st) /\
        processed_item_ids (snd r) = SSet.add (ItemData.itemId item) (processed_item_ids st) /\
        placements_in container_id (simulation_placements (snd r)) =
          placements_in container_id (simulation_placements st)
          ++ [new_placement item container_id pos] /\
        (forall k, k <> container_id ->
                   placements_in k (simulation_placements (snd r)) =
                   placements_in k (simulation_placements st))
    | None => fst r = false /\ unchanged st (snd r)
    end.
Proof. exact place_in_containers_first_fit. Qed.

(** ** Order and uniqueness of the output *)

Lemma StronglySorted_filter {A : Type} (R : A -> A -> Prop) (f : A -> bool) (l : list A) :
  StronglySorted R l -> StronglySorted R (filter f l).
Proof.
  induction 1 as [|x l Hs IH Hall]; simpl; [constructor|].
  destruct (f x); [|exact IH]. constructor; [exact IH|].
  apply Forall_forall. intros y Hy. apply filter_In in Hy as [Hy _].
  now apply (proj1 (Forall_forall _ _) Hall).
Qed.

Lemma StronglySorted_map_in {A B : Type} (R : A -> A -> Prop) (R' : B -> B -> Prop)
    (f : A -> B) (l : list A) :
  (forall x y, In x l -> In y l -> R x y -> R' (f x) (f y)) ->
  StronglySorted R l -> StronglySorted R' (map f l).
Proof.
  intros H Hs. induction Hs as [|x l Hs IH Hall]; simpl; [constructor|].
  constructor.
  - apply IH. intros a b Ha Hb. apply H; now right.
  - apply Forall_forall. intros y Hy. apply in_map_iff in Hy as (a & <- & Ha).
    apply H; [now left | now right |]. now apply (proj1 (Forall_forall _ _) Hall).
Qed.

Lemma elements_strongly_sorted {V : Type} (m : SMap.t V) :
  StronglySorted (fun p q : string * V => String_as_OT.lt (fst p) (fst q)) (SMap.elements m).
Proof.
  apply Sorted_StronglySorted.
  - intros x y z. apply String_as_OT.lt_trans.
  - exact (SMap.elements_3 m).
Qed.

Lemma collect_placements_sorted final failed :
  key_ok final ->
  StronglySorted
    (fun r1 r2 => String_as_OT.lt (PlacementResult.itemId r1) (PlacementResult.itemId r2))
    (collect_placements final failed).
Proof.
  intros Hok. unfold collect_placements.
  eapply StronglySorted_map_in; [|apply StronglySorted_filter, elements_strongly_sorted].
  intros [k1 v1] [k2 v2] H1 H2 Hlt. simpl in *.
  apply filter_In in H1 as [H1 _]. apply filter_In in H2 as [H2 _].
  apply elements_In_MapsTo in H1, H2.
  pose proof (Hok _ _ H1) as E1. pose proof (Hok _ _ H2) as E2.
  rewrite E1, E2. exact Hlt.
Qed.

Lemma StronglySorted_lt_NoDup (l : list string) :
  StronglySorted String_as_OT.lt l -> NoDup l.
Proof.
  induction 1 as [|x l Hs IH Hall]; constructor; [|exact IH].
  intros Hin. apply (proj1 (Forall_forall _ _) Hall) in Hin.
  apply String_as_OT.lt_not_eq in Hin. apply Hin. reflexivity.
Qed.

Lemma final_map_key_ok `{StdSort} items containers current :
  key_ok (final_placements_map
            (fst (phase3 (make_containers_map containers) (make_container_ids containers)
                    (phase2 (snd (phase1 (make_containers_map containers)
                                    (make_container_ids containers)
                                    (sorted_incoming_items items)
                                    (mkSim current SSet.empty
                                           (seed_final_placements current)))))
                    (fst (phase1 (make_containers_map containers)
                            (make_container_ids containers)
                            (sorted_incoming_items items)
                            (mkSim current SSet.empty (seed_final_placements current))))
                    (PlacementOutput.mk true None [] [] [])))).
Proof.
  pose proof (phase1_covers (make_containers_map containers) (make_container_ids containers)
                (sorted_incoming_items items) _ (accounted_initial current)) as [Hacc1 _].
  destruct (phase1 _ _ _ _) as [st1 pass_2]. simpl in *.
  pose proof (phase3_covers (make_containers_map containers) (make_container_ids containers)
                (phase2 pass_2) st1 (PlacementOutput.mk true None [] [] []) Hacc1)
    as (Hacc3 & _).
  destruct (phase3 _ _ _ _ _) as [st3 output]. simpl in *. apply Hacc3.
Qed.

(** The placements of the output come in strictly ascending order of item
    id (the byte-wise order of [std::string]); so no item id occurs twice
    among them; and none of them carries a failed id, whether the id came
    with the request or with a current placement. *)
Theorem output_placements_ascending_unique_not_failed :
  forall (S : StdSort) items containers current,
    let out := suggest_placements_cpp items containers current in
    StronglySorted
      (fun r1 r2 => String_as_OT.lt (PlacementResult.itemId r1) (PlacementResult.itemId r2))
      (PlacementOutput.placements out) /\
    NoDup (map PlacementResult.itemId (PlacementOutput.placements out)) /\
    (forall r, In r (PlacementOutput.placements out) ->
               ~ In (PlacementResult.itemId r) (PlacementOutput.failedItemIds out)).
Proof.
  intros S items containers current.
  pose proof (final_map_key_ok items containers current) as Hok.
  unfold suggest_placements_cpp.
  destruct (phase1 _ _ _ _) as [st1 pass_2]. simpl in Hok.
  destruct (phase3 _ _ _ _ _) as [st3 output]. simpl in Hok.
  cbv zeta. cbn [PlacementOutput.placements PlacementOutput.failedItemIds].
  pose proof (collect_placements_sorted _ (PlacementOutput.failedItemIds output) Hok) as Hs.
  split; [exact Hs|]. split.
  - apply StronglySorted_lt_NoDup.
    eapply StronglySorted_map_in; [|exact Hs]. auto.
  - intros r Hr. apply In_collect_placements in Hr as (k & Hm & Hf).
    pose proof (Hok _ _ Hm) as E. now rewrite E.
Qed.

(** ** Failed ids *)

Lemma phase3_failed_nodup containers_map container_ids items st output :
  NoDup (PlacementOutput.failedItemIds output) ->
  (forall id, In id (PlacementOutput.failedItemIds output) ->
              SSet.In id (processed_item_ids st)) ->
  NoDup (PlacementOutput.failedItemIds
           (snd (phase3 containers_map container_ids items st output))).
Proof.
  intros Hnd Hsub. unfold phase3.
  apply (fold_left_invariant
           (fun acc => NoDup (PlacementOutput.failedItemIds (snd acc)) /\
                       forall id, In id (PlacementOutput.failedItemIds (snd acc)) ->
                                  SSet.In id (processed_item_ids (fst acc)))); [auto|].
  intros [s out] a _ [Hn Hs]. simpl in Hn, Hs.
  destruct (phase3_step_outcome containers_map container_ids s out a)
    as [Hin | s' Hnp Ho | s' Hnp Ho]; simpl.
  - auto.
  - split; [exact Hn|]. intros id Hid.
    destruct Ho as (c & pos & ori & _ & _ & Hp & _). rewrite Hp.
    apply SSetF.add_iff. right. now apply Hs.
  - destruct Ho as (Hp & _). split.
    + apply NoDup_app; [exact Hn | apply NoDup_single |].
      intros id Hid [<- | []]. apply Hnp. now apply Hs.
    + intros id Hid. rewrite Hp. apply SSetF.add_iff.
      apply in_app_or in Hid as [Hid | [<- | []]]; [right; now apply Hs | now left].
Qed.

(** No item id is reported failed twice, whatever the input, also when
    the request repeats an id. *)
Theorem failed_item_ids_without_duplicates :
  forall (S : StdSort) items containers current,
    NoDup (PlacementOutput.failedItemIds (suggest_placements_cpp items containers current)).
Proof.
  intros S items containers current. unfold suggest_placements_cpp.
  destruct (phase1 _ _ _ _) as [st1 pass_2].
  pose proof (phase3_failed_nodup (make_containers_map containers)
                (make_container_ids containers) (phase2 pass_2) st1
                (PlacementOutput.mk true None [] [] []) (NoDup_nil _)
                (fun id (H : In id []) => match H with end)) as Hnd.
  destruct (phase3 _ _ _ _ _) as [st3 output]. exact Hnd.
Qed.

(** ** What becomes of the current placements *)

Lemma committed_keeps_other_entries containers_map item container_ids st st' k v :
  committed containers_map item container_ids st st' ->
  k <> ItemData.itemId item ->
  SMap.MapsTo k v (final_placements_map st) -> SMap.MapsTo k v (final_placements_map st').
Proof.
  intros (c & pos & ori & _ & _ & _ & Hf & _) Hne Hm. rewrite Hf.
  apply SMapF.add_mapsto_iff. right. split; [congruence | exact Hm].
Qed.

Lemma live_entries_kept_phase1 containers_map container_ids items st (r : PlacementResult.t) :
  (forall a, In a items -> ItemData.itemId a <> PlacementResult.itemId r) ->
  SMap.MapsTo (PlacementResult.itemId r) r (final_placements_map st) ->
  SMap.MapsTo (PlacementResult.itemId r) r
    (final_placements_map (fst (phase1 containers_map container_ids items st))).
Proof.
  intros Hne Hm. unfold phase1.
  apply (fold_left_invariant
           (fun acc => SMap.MapsTo (PlacementResult.itemId r) r
                                   (final_placements_map (fst acc)))); [exact Hm|].
  intros [s p2] a Ha Hacc. simpl in Hacc.
  destruct (phase1_step_outcome containers_map container_ids s p2 a)
    as [Hin | s' Hn Ho | s' Hn Ho]; simpl.
  - exact Hacc.
  - eapply committed_keeps_other_entries; eauto. intros E. now apply (Hne a Ha).
  - destruct Ho as (_ & Hf & _). now rewrite Hf.
Qed.

Lemma live_entries_kept_phase3 containers_map container_ids items st output
    (r : PlacementResult.t) :
  (forall a, In a items -> ItemData.itemId a <> PlacementResult.itemId r) ->
  SMap.MapsTo (PlacementResult.itemId r) r (final_placements_map st) ->
  SMap.MapsTo (PlacementResult.itemId r) r
    (final_placements_map (fst (phase3 containers_map container_ids items st output))).
Proof.
  intros Hne Hm. unfold phase3.
  apply (fold_left_invariant
           (fun acc => SMap.MapsTo (PlacementResult.itemId r) r
                                   (final_placements_map (fst acc)))); [exact Hm|].
  intros [s out] a Ha Hacc. simpl in Hacc.
  destruct (phase3_step_outcome containers_map container_ids s out a)
    as [Hin | s' Hn Ho | s' Hn Ho]; simpl.
  - exact Hacc.
  - eapply committed_keeps_other_entries; eauto. intros E. now apply (Hne a Ha).
  - destruct Ho as (_ & Hf & _). now rewrite Hf.
Qed.

(** The engine never moves or drops a current placement.  When the item
    ids of the current placements are pairwise distinct and no incoming
    item reuses one of them, every current placement is in the output with
    its item id, container id and position unchanged. *)
Theorem current_placements_are_returned_unchanged :
  forall (S : StdSort) items containers current,
    NoDup (live_item_ids current) ->
    (forall item, In item items -> ~ In (ItemData.itemId item) (live_item_ids current)) ->
    incl (live_results current)
         (PlacementOutput.placements (suggest_placements_cpp items containers current)).
Proof.
  intros S items containers current Hnd Hfresh r Hr.
  assert (Hne : forall a, In a (sorted_incoming_items items) ->
                          ItemData.itemId a <> PlacementResult.itemId r).
  { intros a Ha E. apply (Hfresh a).
    - apply (Permutation_in _ (Permutation_sym
                                 (std_sort_permutation higher_priority_first items))).
      exact Ha.
    - rewrite E. unfold live_item_ids. now apply in_map. }
  assert (Hseed : SMap.MapsTo (PlacementResult.itemId r) r (seed_final_placements current))
    by (apply MapsTo_seed; auto).
  unfold suggest_placements_cpp.
  pose proof (live_entries_kept_phase1 (make_containers_map containers)
                (make_container_ids containers) (sorted_incoming_items items)
                (mkSim current SSet.empty (seed_final_placements current)) r Hne Hseed) as H1.
  pose proof (phase1_backlog_from_items (make_containers_map containers)
                (make_container_ids containers) (sorted_incoming_items items)
                (mkSim current SSet.empty (seed_final_placements current))) as Hsub.
  destruct (phase1 _ _ _ _) as [st1 pass_2]. simpl in H1, Hsub.
  pose proof (live_entries_kept_phase3 (make_containers_map containers)
                (make_container_ids containers) (phase2 pass_2) st1
                (PlacementOutput.mk true None [] [] []) r
                (fun a Ha => Hne a (Hsub a Ha)) H1) as H3.
  pose proof (phase3_failed_from_items (make_containers_map containers)
                (make_container_ids containers) (phase2 pass_2) st1
                (PlacementOutput.mk true None [] [] [])
                (fun id (H : In id []) => match H with end)) as Hfailed.
  destruct (phase3 _ _ _ _ _) as [st3 output]. simpl in H3, Hfailed.
  cbn [PlacementOutput.placements]. apply In_collect_placements.
  exists (PlacementResult.itemId r). split; [exact H3|].
  intros Hf. apply Hfailed in Hf. apply in_map_iff in Hf as (a & Ea & Ha).
  exact (Hne a (Hsub a Ha) Ea).
Qed.

Lemma current_placements_are_returned_unchanged_witness :
  (NoDup (live_item_ids s4_current) /\
   (forall item, In item [s4_H] -> ~ In (ItemData.itemId item) (live_item_ids s4_current))) /\
  incl (live_results s4_current)
       (PlacementOutput.placements
          (@suggest_placements_cpp StableStdSort [s4_H] [s4_C1; s4_C2] s4_current)).
Proof.
  assert (Hnd : NoDup (live_item_ids s4_current)) by apply NoDup_single.
  assert (Hfresh : forall item, In item [s4_H] ->
                                ~ In (ItemData.itemId item) (live_item_ids s4_current)).
  { intros item Hitem. exact (proj2 (s4_items_valid item Hitem)). }
  split; [exact (conj Hnd Hfresh)|].
  exact (current_placements_are_returned_unchanged StableStdSort [s4_H] [s4_C1; s4_C2]
           s4_current Hnd Hfresh).
Defined.

(** ** Where the placements of the output come from *)

Lemma MapsTo_fold_add_from {V : Type} (key : V -> string) (l : list V) :
  forall m k v,
    SMap.MapsTo k v (fold_left (fun m r => SMap.add (key r) r m) l m) ->
    SMap.MapsTo k v m \/ In v l.
Proof.
  induction l as [|r l IH]; intros m k v H; simpl in *; [now left|].
  apply IH in H as [H | H]; [|auto].
  apply SMapF.add_mapsto_iff in H as [[_ <-] | [_ H]]; auto.
Qed.

Lemma committed_entry_placed_by_engine items containers item st st' k r :
  In item items ->
  committed (make_containers_map containers) item (make_container_ids containers) st st' ->
  SMap.MapsTo k r (final_placements_map st') ->
  SMap.MapsTo k r (final_placements_map st) \/ placed_by_engine items containers r.
Proof.
  intros Hitem (c & pos & ori & Hc & Hspot & _ & Hf & _) Hm. rewrite Hf in Hm.
  apply SMapF.add_mapsto_iff in Hm as [[_ <-] | [_ Hm]]; [right | now left].
  apply find_spot_in_container_sound in Hspot
    as (_ & (iw & id & ih & Hori & Hew & Hed & Heh) & _).
  exists item, iw, id, ih. simpl. repeat split; assumption.
Qed.

Lemma output_placements_origin :
  forall (S : StdSort) items containers current,
    Forall (fun r => In r (live_results current) \/ placed_by_engine items containers r)
           (PlacementOutput.placements (suggest_placements_cpp items containers current)).
Proof.
  intros S items containers current.
  set (origin := fun (final : SMap.t PlacementResult.t) =>
                   forall k r, SMap.MapsTo k r final ->
                               In r (live_results current) \/
                               placed_by_engine items containers r).
  assert (Hitems : forall a, In a (sorted_incoming_items items) -> In a items).
  { intros a Ha.
    apply (Permutation_in _ (Permutation_sym
                               (std_sort_permutation higher_priority_first items))).
    exact Ha. }
  assert (Hseed : origin (seed_final_placements current)).
  { intros k r Hm. left. rewrite seed_final_placements_flat in Hm. unfold add_result in Hm.
    apply MapsTo_fold_add_from in Hm as [Hm | Hm]; [|exact Hm].
    now apply SMapF.empty_mapsto_iff in Hm. }
  unfold suggest_placements_cpp.
  assert (H1 : origin (final_placements_map
                         (fst (phase1 (make_containers_map containers)
                                 (make_container_ids containers) (sorted_incoming_items items)
                                 (mkSim current SSet.empty
                                        (seed_final_placements current)))))).
  { unfold phase1.
    apply (fold_left_invariant (fun acc => origin (final_placements_map (fst acc))));
      [exact Hseed|].
    intros [s p2] a Ha Hacc. simpl in Hacc.
    destruct (phase1_step_outcome (make_containers_map containers)
                (make_container_ids containers) s p2 a) as [Hin | s' Hn Ho | s' Hn Ho]; simpl.
    - exact Hacc.
    - intros k r Hm.
      destruct (committed_entry_placed_by_engine items containers a s s' k r
                  (Hitems a Ha) Ho Hm) as [Hold | Hnew]; [now apply (Hacc k) | now right].
    - destruct Ho as (_ & Hf & _). now rewrite Hf. }
  pose proof (phase1_backlog_from_items (make_containers_map containers)
                (make_container_ids containers) (sorted_incoming_items items)
                (mkSim current SSet.empty (seed_final_placements current))) as Hsub.
  destruct (phase1 _ _ _ _) as [st1 pass_2]. simpl in H1, Hsub.
  assert (H3 : origin (final_placements_map
                         (fst (phase3 (make_containers_map containers)
                                 (make_container_ids containers) (phase2 pass_2) st1
                                 (PlacementOutput.mk true None [] [] []))))).
  { unfold phase3.
    apply (fold_left_invariant (fun acc => origin (final_placements_map (fst acc))));
      [exact H1|].
    intros [s out] a Ha Hacc. simpl in Hacc.
    destruct (phase3_step_outcome (make_containers_map containers)
                (make_container_ids containers) s out a) as [Hin | s' Hn Ho | s' Hn Ho]; simpl.
    - exact Hacc.
    - intros k r Hm.
      destruct (committed_entry_placed_by_engine items containers a s s' k r
                  (Hitems a (Hsub a Ha)) Ho Hm) as [Hold | Hnew];
        [now apply (Hacc k) | now right].
    - destruct Ho as (_ & Hf & _). now rewrite Hf. }
  destruct (phase3 _ _ _ _ _) as [st3 output]. simpl in H3.
  cbn [PlacementOutput.placements]. apply Forall_forall. intros r Hr.
  apply In_collect_placements in Hr as (k & Hm & _). exact (H3 k r Hm).
Qed.

(** Every placement of the output is either a current placement, with its
    id, container and position as they came in, or a placement the engine
    made for an incoming item: under that item's id, in a container of
    the request, spanning one of the six orientations of the item.  The
    engine invents no placement and resizes no item. *)
Theorem output_placements_are_current_or_placed_by_engine :
  forall (S : StdSort) items containers current,
    Forall (fun r => In r (live_results current) \/ placed_by_engine items containers r)
           (PlacementOutput.placements (suggest_placements_cpp items containers current)).
Proof. exact output_placements_origin. Qed.

(** ** Items that fit nowhere *)

Lemma fold_left_covers_in {A B : Type} (P : B -> Prop) (C : B -> A -> Prop)
    (f : B -> A -> B) (l : list A) :
  (forall b a, In a l -> P b -> P (f b a)) ->
  (forall b a, In a l -> P b -> C (f b a) a) ->
  (forall b a a', In a l -> P b -> C b a' -> C (f b a) a') ->
  forall b, P b ->
    P (fold_left f l b) /\
    (forall a, In a l -> C (fold_left f l b) a) /\
    (forall a, C b a -> C (fold_left f l b) a).
Proof.
  induction l as [|x l IH]; intros HP Hnew Hkeep b Hb; simpl.
  - split; [exact Hb|]. split; [intros a [] | auto].
  - assert (Hx : In x (x :: l)) by now left.
    destruct (IH (fun b a Ha => HP b a (or_intror Ha))
                 (fun b a Ha => Hnew b a (or_intror Ha))
                 (fun b a a' Ha => Hkeep b a a' (or_intror Ha))
                 (f b x) (HP b x Hx Hb)) as (H1 & H2 & H3).
    split; [exact H1|]. split.
    + intros a [<-|Ha]; [apply H3, Hnew; assumption | now apply H2].
    + intros a Ha. apply H3. now apply Hkeep.
Qed.

Lemma container_at_in containers k :
  In k (make_container_ids containers) ->
  In (container_at k (make_containers_map containers)) containers.
Proof.
  intros Hk. apply containers_map_has_ids in Hk as [c Hm].
  unfold container_at. rewrite (proj1 (SMapF.find_mapsto_iff _ _ _) Hm).
  unfold make_containers_map in Hm.
  apply MapsTo_fold_add_from in Hm as [Hm | Hm]; [|exact Hm].
  now apply SMapF.empty_mapsto_iff in Hm.
Qed.

Lemma not_committed_when_nothing_fits containers item st st' :
  (forall c, In c containers -> fits_nowhere_in item c) ->
  ~ committed (make_containers_map containers) item (make_container_ids containers) st st'.
Proof.
  intros Hunfit (k & pos & ori & Hk & Hspot & _).
  rewrite find_spot_none_unfit in Hspot; [discriminate|].
  apply Hunfit. now apply container_at_in.
Qed.

(** When every item of [items] that carries the id [x] fits no container,
    an item with that id in the list handed to Phase 1 ends in the failed
    ids. *)
Lemma unplaceable_id_fails containers items st1_items x :
  (forall a, In a items -> ItemData.itemId a = x ->
             forall c, In c containers -> fits_nowhere_in a c) ->
  (forall a, In a st1_items -> In a items) ->
  (exists a, In a st1_items /\ ItemData.itemId a = x) ->
  forall st,
    ~ SSet.In x (processed_item_ids st) ->
    let r1 := phase1 (make_containers_map containers) (make_container_ids containers)
                     st1_items st in
    let r3 := phase3 (make_containers_map containers) (make_container_ids containers)
                     (phase2 (snd r1)) (fst r1) (PlacementOutput.mk true None [] [] []) in
    In x (PlacementOutput.failedItemIds (snd r3)).
Proof.
  intros Hunfit Hsub (a0 & Ha0 & Hx0) st Hst. cbv zeta.
  destruct (fold_left_covers_in
              (fun acc : Sim * list ItemData.t => ~ SSet.In x (processed_item_ids (fst acc)))
              (fun acc a => ItemData.itemId a = x -> In a (snd acc))
              (phase1_step (make_containers_map containers) (make_container_ids containers))
              st1_items) with (b := (st, @nil ItemData.t)) as (HP1 & HC1 & _).
  - intros [s p2] a Ha Hp. simpl in Hp.
    destruct (phase1_step_outcome (make_containers_map containers)
                (make_container_ids containers) s p2 a) as [Hin | s' Hn Ho | s' Hn Ho]; simpl.
    + exact Hp.
    + pose proof Ho as (c & pos & ori & _ & _ & Hpr & _). rewrite Hpr.
      intros Hin. apply SSetF.add_iff in Hin as [E | Hin]; [|contradiction].
      apply (not_committed_when_nothing_fits containers a s s'); [|exact Ho].
      apply Hunfit; [now apply Hsub | exact E].
    + destruct Ho as (Hpr & _). now rewrite Hpr.
  - intros [s p2] a Ha Hp E. simpl in Hp.
    destruct (phase1_step_outcome (make_containers_map containers)
                (make_container_ids containers) s p2 a) as [Hin | s' Hn Ho | s' Hn Ho]; simpl.
    + rewrite E in Hin. contradiction.
    + exfalso. apply (not_committed_when_nothing_fits containers a s s'); [|exact Ho].
      apply Hunfit; [now apply Hsub | exact E].
    + apply in_or_app. right. now left.
  - intros [s p2] a a' Ha Hp Hc E. specialize (Hc E). simpl in Hc.
    destruct (phase1_step_outcome (make_containers_map containers)
                (make_container_ids containers) s p2 a); simpl; auto.
    apply in_or_app. now left.
  - exact Hst.
  - fold (phase1 (make_containers_map containers) (make_container_ids containers)
                 st1_items st) in HP1, HC1.
    pose proof (phase1_backlog_from_items (make_containers_map containers)
                  (make_container_ids containers) st1_items st) as Hback.
    destruct (phase1 _ _ _ _) as [st1 pass_2]. simpl in HP1, HC1, Hback |- *.
    destruct (fold_left_covers_in
                (fun acc : Sim * PlacementOutput.t =>
                   SSet.In x (processed_item_ids (fst acc)) ->
                   In x (PlacementOutput.failedItemIds (snd acc)))
                (fun acc a => ItemData.itemId a = x ->
                              In x (PlacementOutput.failedItemIds (snd acc)))
                (phase3_step (make_containers_map containers) (make_container_ids containers))
                (phase2 pass_2)) with (b := (st1, PlacementOutput.mk true None [] [] []))
      as (_ & HC3 & _).
    + intros [s out] a Ha Hp. simpl in Hp.
      destruct (phase3_step_outcome (make_containers_map containers)
                  (make_container_ids containers) s out a) as [Hin | s' Hn Ho | s' Hn Ho];
        simpl.
      * exact Hp.
      * pose proof Ho as (c & pos & ori & _ & _ & Hpr & _). rewrite Hpr.
        intros Hin. apply SSetF.add_iff in Hin as [E | Hin]; [|now apply Hp].
        exfalso. apply (not_committed_when_nothing_fits containers a s s'); [|exact Ho].
        apply Hunfit; [apply Hsub; now apply Hback | exact E].
      * destruct Ho as (Hpr & _). rewrite Hpr. intros Hin.
        apply in_or_app. apply SSetF.add_iff in Hin as [E | Hin]; [right; now left | left; auto].
    + intros [s out] a Ha Hp E. simpl in Hp.
      destruct (phase3_step_outcome (make_containers_map containers)
                  (make_container_ids containers) s out a) as [Hin | s' Hn Ho | s' Hn Ho];
        simpl.
      * apply Hp. now rewrite <- E.
      * exfalso. apply (not_committed_when_nothing_fits containers a s s'); [|exact Ho].
        apply Hunfit; [apply Hsub; now apply Hback | exact E].
      * apply in_or_app. right. now left.
    + intros [s out] a a' Ha Hp Hc E. specialize (Hc E). simpl in Hc.
      destruct (phase3_step_outcome (make_containers_map containers)
                  (make_container_ids containers) s out a); simpl; auto.
      apply in_or_app. now left.
    + simpl. intros Hin. contradiction.
    + apply (HC3 a0); [|exact Hx0]. unfold phase2. now apply HC1.
Qed.

(** An incoming item that fits no container of the request, in none of
    its orientations, is reported failed, provided the same holds of any
    other incoming item that carries its id.  It is then absent from the
    placements, and so is a current placement under the same id. *)
Theorem unplaceable_item_is_reported_failed :
  forall (S : StdSort) items containers current item,
    In item items ->
    (forall a, In a items -> ItemData.itemId a = ItemData.itemId item ->
               forall c, In c containers -> fits_nowhere_in a c) ->
    let out := suggest_placements_cpp items containers current in
    In (ItemData.itemId item) (PlacementOutput.failedItemIds out) /\
    ~ In (ItemData.itemId item)
         (map PlacementResult.itemId (PlacementOutput.placements out)).
Proof.
  intros S items containers current item Hitem Hunfit.
  assert (Hsub : forall a, In a (sorted_incoming_items items) -> In a items).
  { intros a Ha.
    apply (Permutation_in _ (Permutation_sym
                               (std_sort_permutation higher_priority_first items))).
    exact Ha. }
  assert (Hex : exists a, In a (sorted_incoming_items items) /\
                          ItemData.itemId a = ItemData.itemId item).
  { exists item. split; [|reflexivity].
    now apply (Permutation_in _ (std_sort_permutation higher_priority_first items)). }
  pose proof (unplaceable_id_fails containers items (sorted_incoming_items items)
                (ItemData.itemId item) Hunfit Hsub Hex
                (mkSim current SSet.empty (seed_final_placements current))
                (fun H => proj1 (SSetF.empty_iff _) H)) as Hfail.
  pose proof (final_map_key_ok items containers current) as Hok.
  cbv zeta in Hfail. unfold suggest_placements_cpp.
  destruct (phase1 _ _ _ _) as [st1 pass_2]. simpl in Hfail, Hok.
  destruct (phase3 _ _ _ _ _) as [st3 output]. simpl in Hfail, Hok.
  cbv zeta. cbn [PlacementOutput.placements PlacementOutput.failedItemIds].
  split; [exact Hfail|].
  rewrite (In_itemIds_collect _ _ _ Hok). tauto.
Qed.

Lemma unplaceable_item_is_reported_failed_witness :
  (In s5_A [s5_A] /\
   (forall a, In a [s5_A] -> ItemData.itemId a = ItemData.itemId s5_A ->
              forall c, In c [s5_C1] -> fits_nowhere_in a c)) /\
  let out := @suggest_placements_cpp StableStdSort [s5_A] [s5_C1] (SMap.empty _) in
  In (ItemData.itemId s5_A) (PlacementOutput.failedItemIds out) /\
  ~ In (ItemData.itemId s5_A)
       (map PlacementResult.itemId (PlacementOutput.placements out)).
Proof.
  assert (Hin : In s5_A [s5_A]) by now left.
  assert (Hun : forall a, In a [s5_A] -> ItemData.itemId a = ItemData.itemId s5_A ->
                          forall c, In c [s5_C1] -> fits_nowhere_in a c).
  { intros a [<- | []] _ c [<- | []]. exact s5_A_fits_nowhere. }
  split; [exact (conj Hin Hun)|].
  exact (unplaceable_item_is_reported_failed StableStdSort [s5_A] [s5_C1] (SMap.empty _)
           s5_A Hin Hun).
Defined.

(** With no container in the request nothing is placed: every incoming
    item id is reported failed, [success] is true only for an empty
    request, and the placements are current placements. *)
Theorem no_container_every_item_fails :
  forall (S : StdSort) items current,
    let out := suggest_placements_cpp items [] current in
    Forall (fun item => In (ItemData.itemId item) (PlacementOutput.failedItemIds out)) items /\
    PlacementOutput.success out = match items with [] => true | _ :: _ => false end /\
    incl (PlacementOutput.placements out) (live_results current).
Proof.
  intros S items current.
  assert (Hsub : forall a, In a (sorted_incoming_items items) -> In a items).
  { intros a Ha.
    apply (Permutation_in _ (Permutation_sym
                               (std_sort_permutation higher_priority_first items))).
    exact Ha. }
  assert (Hall : forall item, In item items ->
            In (ItemData.itemId item)
               (PlacementOutput.failedItemIds (suggest_placements_cpp items [] current))).
  { intros item Hitem.
    assert (Hex : exists a, In a (sorted_incoming_items items) /\
                            ItemData.itemId a = ItemData.itemId item).
    { exists item. split; [|reflexivity].
      now apply (Permutation_in _ (std_sort_permutation higher_priority_first items)). }
    pose proof (unplaceable_id_fails [] items (sorted_incoming_items items)
                  (ItemData.itemId item) (fun a _ _ c (Hc : In c []) => match Hc with end)
                  Hsub Hex (mkSim current SSet.empty (seed_final_placements current))
                  (fun H => proj1 (SSetF.empty_iff _) H)) as Hfail.
    cbv zeta in Hfail. unfold suggest_placements_cpp.
    destruct (phase1 _ _ _ _) as [st1 pass_2]. simpl in Hfail.
    destruct (phase3 _ _ _ _ _) as [st3 output]. exact Hfail. }
  cbv zeta. split; [now apply Forall_forall|]. split.
  - revert Hall. unfold suggest_placements_cpp.
    pose proof (phase1_backlog_from_items (make_containers_map []) (make_container_ids [])
                  (sorted_incoming_items items)
                  (mkSim current SSet.empty (seed_final_placements current))) as Hback.
    destruct (phase1 _ _ _ _) as [st1 pass_2]. simpl in Hback.
    pose proof (phase3_from_fresh_output (make_containers_map []) (make_container_ids [])
                  (phase2 pass_2) st1) as Hcons.
    pose proof (phase3_failed_from_items (make_containers_map []) (make_container_ids [])
                  (phase2 pass_2) st1 (PlacementOutput.mk true None [] [] [])
                  (fun id (H : In id []) => match H with end)) as Hfailed.
    destruct (phase3 _ _ _ _ _) as [st3 output]. cbn [snd] in Hcons, Hfailed.
    cbn [PlacementOutput.success PlacementOutput.failedItemIds]. intros Hall.
    destruct Hcons as (_ & _ & [(Hf & Hs & _) | (Hf & Hs)]); rewrite Hs.
    + destruct items as [|item items]; [reflexivity|].
      specialize (Hall item (or_introl eq_refl)). rewrite Hf in Hall. destruct Hall.
    + destruct items as [|item items]; [|reflexivity]. exfalso.
      destruct (PlacementOutput.failedItemIds output) as [|id rest]; [congruence|].
      specialize (Hfailed id (or_introl eq_refl)). unfold phase2 in Hfailed.
      apply in_map_iff in Hfailed as (a & _ & Ha). exact (Hsub a (Hback a Ha)).
  - pose proof (output_placements_origin S items [] current)
      as Horigin.
    intros r Hr. destruct (proj1 (Forall_forall _ _) Horigin r Hr) as [H | H]; [exact H|].
    destruct H as (_ & _ & _ & _ & _ & _ & [] & _).
Qed.

(** ** The connection string *)

(** The settings present in the environment, as [key=value], in the order
    the worker reads them. *)
Definition setting (key : string) (value : option string) : list string :=
  match value with Some v => [String.append key v] | None => [] end.

Definition settings (env : Env.t) : list string :=
  setting "host=" (Env.DB_HOST env) ++ setting "port=" (Env.DB_PORT env)
  ++ setting "dbname=" (Env.DB_NAME env) ++ setting "user=" (Env.DB_USER env)
  ++ setting "password=" (Env.DB_PASSWORD env).

(** Each setting followed by a space. *)
Fixpoint spaced (l : list string) : string :=
  match l with
  | [] => ""
  | kv :: l' => String.append (String.append kv " ") (spaced l')
  end.

Lemma spaced_app (l1 l2 : list string) :
  spaced (l1 ++ l2) = String.append (spaced l1) (spaced l2).
Proof.
  induction l1 as [|kv l1 IH]; simpl; [reflexivity|].
  rewrite IH. symmetry. apply string_append_assoc.
Qed.

Lemma append_setting_spaced key value (l : list string) :
  append_setting key value (spaced l) = spaced (l ++ setting key value).
Proof.
  destruct value as [v|]; simpl.
  - rewrite spaced_app. simpl. now rewrite string_append_empty_r.
  - now rewrite app_nil_r.
Qed.

Lemma string_pop_back_append (a b : string) :
  b <> "" -> string_pop_back (String.append a b) = String.append a (string_pop_back b).
Proof.
  intros Hb. induction a as [|c a IH]; simpl; [reflexivity|].
  rewrite IH. destruct (String.append a b) eqn:E; [|reflexivity].
  destruct a; simpl in E; [contradiction | discriminate].
Qed.

Lemma string_back_append (a b : string) :
  b <> "" -> string_back (String.append a b) = string_back b.
Proof.
  intros Hb. induction a as [|c a IH]; simpl; [reflexivity|].
  rewrite IH. destruct (String.append a b) eqn:E; [|reflexivity].
  destruct a; simpl in E; [contradiction | discriminate].
Qed.

Lemma spaced_nonempty kv l : spaced (kv :: l) <> "".
Proof. simpl. destruct kv; discriminate. Qed.

Lemma spaced_back kv l : string_back (spaced (kv :: l)) = Some " "%char.
Proof.
  revert kv. induction l as [|kv' l IH]; intros kv.
  - simpl. rewrite string_append_empty_r. now rewrite string_back_append.
  - change (spaced (kv :: kv' :: l))
      with (String.append (String.append kv " ") (spaced (kv' :: l))).
    rewrite string_back_append by apply spaced_nonempty. apply IH.
Qed.

Lemma spaced_pop_back kv l : string_pop_back (spaced (kv :: l)) = String.concat " " (kv :: l).
Proof.
  revert kv. induction l as [|kv' l IH]; intros kv.
  - simpl. rewrite string_append_empty_r. rewrite string_pop_back_append by discriminate.
    simpl. apply string_append_empty_r.
  - change (spaced (kv :: kv' :: l))
      with (String.append (String.append kv " ") (spaced (kv' :: l))).
    rewrite string_pop_back_append by apply spaced_nonempty. rewrite IH.
    change (String.concat " " (kv :: kv' :: l))
      with (String.append kv (String.append " " (String.concat " " (kv' :: l)))).
    now rewrite string_append_assoc.
Qed.

Lemma connection_string_built (env : Env.t) :
  append_setting "password=" (Env.DB_PASSWORD env)
    (append_setting "user=" (Env.DB_USER env)
       (append_setting "dbname=" (Env.DB_NAME env)
          (append_setting "port=" (Env.DB_PORT env)
             (append_setting "host=" (Env.DB_HOST env) ""))))
  = spaced (settings env).
Proof.
  transitivity
    (append_setting "password=" (Env.DB_PASSWORD env)
       (append_setting "user=" (Env.DB_USER env)
          (append_setting "dbname=" (Env.DB_NAME env)
             (append_setting "port=" (Env.DB_PORT env)
                (append_setting "host=" (Env.DB_HOST env) (spaced [])))))); [reflexivity|].
  rewrite !append_setting_spaced. unfold settings. now rewrite <- !app_assoc.
Qed.

(** When none of the five variables is set, the connection string is the
    fallback.  As soon as one is set (an empty value counts as set), it is
    the settings that are present, as [key=value] in the order host, port,
    dbname, user, password, with one space between them and none added at
    the end: a variable that is not set is left out, not defaulted. *)
Theorem get_db_connection_string_settings_or_default :
  forall env : Env.t,
    get_db_connection_string env =
    match settings env with
    | [] => default_connection_string
    | kv :: l => String.concat " " (kv :: l)
    end /\
    (settings env = [] <->
     Env.DB_HOST env = None /\ Env.DB_PORT env = None /\ Env.DB_NAME env = None /\
     Env.DB_USER env = None /\ Env.DB_PASSWORD env = None).
Proof.
  intros env. split.
  - unfold get_db_connection_string. cbv zeta.
    rewrite connection_string_built.
    destruct (settings env) as [|kv l] eqn:E.
    + reflexivity.
    + assert (He : string_empty (spaced (kv :: l)) = false).
      { pose proof (spaced_nonempty kv l). destruct (spaced (kv :: l)); [contradiction|].
        reflexivity. }
      rewrite He, spaced_back. cbn [negb andb Ascii.eqb]. simpl Ascii.eqb.
      apply spaced_pop_back.
  - unfold settings.
    destruct (Env.DB_HOST env), (Env.DB_PORT env), (Env.DB_NAME env), (Env.DB_USER env),
             (Env.DB_PASSWORD env); simpl; split;
      first [discriminate | intros (? & ? & ? & ? & ?); discriminate | auto].
Qed.

(** ** The current placements read from the database *)

Lemma container_id_list_joined quote (cs : list ContainerData.t) :
  container_id_list quote cs =
  String.concat "," (map (fun c => quote (ContainerData.containerId c)) cs).
Proof.
  induction cs as [|c rest IH]; [reflexivity|].
  cbn [container_id_list map String.concat]. rewrite IH. destruct rest as [|c' rest].
  - cbn [map String.concat]. now rewrite !string_append_empty_r.
  - cbn [map]. now rewrite string_append_assoc.
Qed.

Lemma group_rows_from (rows : list PlacementRow.t) :
  forall (m : SMap.t (list PlacementInfo.t)) k,
    placements_in k
      (fold_left
         (fun current_placements row =>
            let container_id := PlacementRow.containerId_fk row in
            let '(v, m) := subscript container_id current_placements in
            SMap.add container_id (v ++ [info_of_row row]) m)
         rows m)
    = placements_in k m
      ++ map info_of_row
             (filter (fun row => String.eqb (PlacementRow.containerId_fk row) k) rows).
Proof.
  induction rows as [|row rows IH]; intros m k; simpl; [now rewrite app_nil_r|].
  rewrite IH.
  pose proof (subscript_spec (PlacementRow.containerId_fk row) m) as [Hcur Hsim].
  destruct (subscript (PlacementRow.containerId_fk row) m) as [v m1]. simpl in Hcur, Hsim.
  destruct (String.eqb_spec (PlacementRow.containerId_fk row) k) as [E | E].
  - rewrite E, placements_in_add_same, Hcur, E. simpl. now rewrite <- app_assoc.
  - rewrite placements_in_add_other by exact E. now rewrite Hsim.
Qed.

(** The current placements the worker hands to the engine.  With no
    container in the request nothing is read.  Otherwise the query names
    the quoted container ids separated by commas, and each container id
    holds the placements of the rows of that container, in the order of
    the rows, each with its [containerId] field equal to the id it is
    filed under. *)
Theorem fetch_current_placements_groups_rows_by_container :
  forall quote exec (relevant_containers : list ContainerData.t) k,
    placements_in k (fetch_current_placements quote exec relevant_containers) =
      match relevant_containers with
      | [] => []
      | _ :: _ =>
          map info_of_row
              (filter (fun row => String.eqb (PlacementRow.containerId_fk row) k)
                      (exec (fetch_sql quote relevant_containers)))
      end /\
    fetch_sql quote relevant_containers =
      String.append fetch_sql_head
        (String.append
           (String.concat ","
              (map (fun c => quote (ContainerData.containerId c)) relevant_containers))
           fetch_sql_tail) /\
    (forall p, In p (placements_in k (fetch_current_placements quote exec relevant_containers)) ->
               PlacementInfo.containerId p = k).
Proof.
  intros quote exec cs k.
  assert (H : placements_in k (fetch_current_placements quote exec cs) =
              match cs with
              | [] => []
              | _ :: _ =>
                  map info_of_row
                      (filter (fun row => String.eqb (PlacementRow.containerId_fk row) k)
                              (exec (fetch_sql quote cs)))
              end).
  { unfold fetch_current_placements. destruct cs as [|c cs]; [reflexivity|].
    unfold group_rows. rewrite group_rows_from. reflexivity. }
  split; [exact H|]. split.
  - unfold fetch_sql. now rewrite container_id_list_joined.
  - rewrite H. destruct cs as [|c cs]; [intros p []|].
    intros p Hp. apply in_map_iff in Hp as (row & <- & Hrow).
    apply filter_In in Hrow as [_ Hrow]. now apply String.eqb_eq in Hrow.
Qed.

(** ** What the worker writes for a job *)

(** The calls that insert the placement rows of a job: none for no
    placement, else the statement prepared once and executed per
    placement, in order. *)
Definition placement_calls (job_id : string) (placements : list PlacementResult.t)
    : list TxnCall :=
  match placements with
  | [] => []
  | _ :: _ =>
      prepare "insert_placement" insert_placements_sql
      :: map (fun p => exec_prepared "insert_placement" (placement_params job_id p)) placements
  end.

(** A call that prepares or executes the insertion of a rearrangement row. *)
Definition inserts_rearrangement (call : TxnCall) : bool :=
  match call with
  | prepare name _ | exec_prepared name _ => String.eqb name "insert_rearrangement"
  | _ => false
  end.

(** The shape of every output of the engine: no rearrangement; and either
    no failed id, [success] and no error, or some failed id, no [success]
    and the error message that lists the failed ids. *)
Lemma engine_output_shape `{StdSort} items containers current :
  let out := suggest_placements_cpp items containers current in
  PlacementOutput.rearrangements out = [] /\
  ((PlacementOutput.failedItemIds out = [] /\ PlacementOutput.success out = true /\
    PlacementOutput.error out = None) \/
   (PlacementOutput.failedItemIds out <> [] /\ PlacementOutput.success out = false /\
    PlacementOutput.error out =
      Some (String.append "Placement incomplete. Failed items: "
                          (joined (PlacementOutput.failedItemIds out) ", ")))).
Proof.
  unfold suggest_placements_cpp.
  destruct (phase1 _ _ _ _) as [st1 pass_2].
  pose proof (phase3_from_fresh_output (make_containers_map containers)
                (make_container_ids containers) (phase2 pass_2) st1) as Hc.
  destruct (phase3 _ _ _ _ _) as [st3 output]. cbn [snd] in Hc. cbv zeta.
  cbn [PlacementOutput.success PlacementOutput.error PlacementOutput.failedItemIds
       PlacementOutput.rearrangements].
  destruct Hc as (Hr & _ & [(Hf & Hs & He) | (Hf & Hs)]); (split; [exact Hr|]).
  - left. unfold final_error. rewrite Hf. auto.
  - right. unfold final_error.
    destruct (PlacementOutput.failedItemIds output) as [|id rest] eqn:E; [congruence|].
    repeat split; [discriminate | exact Hs |]. now rewrite append_failed_ids_joined.
Qed.

(** Storing an output of the engine never touches the rearrangement rows
    beyond deleting those of the job: the calls are the two deletions for
    the job, then the insertion of the placements, one row per placement in
    the order of the output, and no rearrangement row is ever inserted. *)
Theorem store_of_engine_output_inserts_no_rearrangement :
  forall (S : StdSort) quote job_id items containers current,
    let out := suggest_placements_cpp items containers current in
    store_placement_results quote job_id out =
      [ exec0 (String.append "DELETE FROM job_results_placements WHERE job_id = "
                             (quote job_id));
        exec0 (String.append "DELETE FROM job_results_rearrangements WHERE job_id = "
                             (quote job_id)) ]
      ++ placement_calls job_id (PlacementOutput.placements out) /\
    forallb (fun call => negb (inserts_rearrangement call))
            (store_placement_results quote job_id out) = true.
Proof.
  intros S quote job_id items containers current out.
  pose proof (engine_output_shape items containers current) as [Hr _]. fold out in Hr.
  assert (E : store_placement_results quote job_id out =
              [ exec0 (String.append "DELETE FROM job_results_placements WHERE job_id = "
                                     (quote job_id));
                exec0 (String.append "DELETE FROM job_results_rearrangements WHERE job_id = "
                                     (quote job_id)) ]
              ++ placement_calls job_id (PlacementOutput.placements out)).
  { unfold store_placement_results. rewrite Hr. unfold placement_calls.
    now rewrite app_nil_r. }
  split; [exact E|]. rewrite E. unfold placement_calls.
  destruct (PlacementOutput.placements out) as [|p ps]; [reflexivity|].
  cbn [app forallb inserts_rearrangement negb andb]. simpl String.eqb.
  cbn [negb andb]. rewrite forallb_forall. intros call Hcall.
  apply in_map_iff in Hcall as (q & <- & _). reflexivity.
Qed.

(** The processing of one job, on the path where nothing throws.  The
    worker queries the current placements (unless the request has no
    container), runs the engine on them, deletes the earlier rows of the
    job, inserts the placements, marks the job COMPLETED with no error
    message when no item failed and FAILED with the list of failed ids
    otherwise, and commits. *)
Theorem process_job_calls_and_status :
  forall (S : StdSort) quote exec job_id items containers,
    let out :=
      suggest_placements_cpp items containers
        (fetch_current_placements quote exec containers) in
    process_job quote exec job_id items containers =
      (fetch_calls quote containers
       ++ [ exec0 (String.append "DELETE FROM job_results_placements WHERE job_id = "
                                 (quote job_id));
            exec0 (String.append "DELETE FROM job_results_rearrangements WHERE job_id = "
                                 (quote job_id)) ]
       ++ placement_calls job_id (PlacementOutput.placements out)
       ++ [ exec_params update_sql
              [ PString (match PlacementOutput.failedItemIds out with
                         | [] => "COMPLETED"
                         | _ :: _ => "FAILED"
                         end);
                POptString (match PlacementOutput.failedItemIds out with
                            | [] => None
                            | _ :: _ =>
                                Some (String.append "Placement incomplete. Failed items: "
                                        (joined (PlacementOutput.failedItemIds out) ", "))
                            end);
                PString job_id ];
            commit ],
       out).
Proof.
  intros S quote exec job_id items containers out.
  pose proof (engine_output_shape items containers
                (fetch_current_placements quote exec containers)) as [Hr Hcases].
  fold out in Hr, Hcases.
  unfold process_job. cbv zeta. fold out. f_equal. f_equal.
  unfold store_placement_results, final_status. rewrite Hr.
  fold (placement_calls job_id (PlacementOutput.placements out)).
  rewrite app_nil_r, <- app_assoc. f_equal. f_equal.
  destruct Hcases as [(Hf & Hs & He) | (Hf & Hs & He)]; rewrite Hs, He.
  - now rewrite Hf.
  - destruct (PlacementOutput.failedItemIds out); [congruence | reflexivity].
Qed.

(** ** The size of the search grid *)

Lemma to_int_upper (x : double) (n : Z) : x <= inject_Z n -> Z.le (to_int x) n.
Proof.
  intros H. unfold to_int. unfold Qle in H. cbn [inject_Z Qnum Qden] in H.
  replace n with (Z.quot (Z.mul n (Zpos (Qden x))) (Zpos (Qden x)))
    by (apply Z.quot_mul; discriminate).
  apply Z.quot_le_mono; [reflexivity | lia].
Qed.

(** The width and depth grids of a search have at most 27 steps each, and
    at least 2 for a container of non-negative size; so a search examines
    at most 27 x 27 candidates per orientation and base height. *)
Theorem search_grid_has_at_most_27_steps :
  forall c : double,
    let num_steps := Z.add (to_int (c / std_max (c / 25) (2 # 100))) 2 in
    Z.le num_steps 27 /\
    (0 <= c -> Z.le 2 num_steps) /\
    (length (int_range num_steps) <= 27)%nat.
Proof.
  intros c. cbv zeta.
  assert (Hinc : 0 < std_max (c / 25) (2 # 100)).
  { eapply Qlt_le_trans; [|apply std_max_upper]. reflexivity. }
  assert (Hx : c / std_max (c / 25) (2 # 100) <= 25).
  { apply Qle_shift_div_r; [exact Hinc|].
    pose proof (std_max_lower (c / 25) (2 # 100)) as Hl.
    assert (E : c / 25 == c * (1 # 25)) by reflexivity.
    assert (Hl' : c * (1 # 25) <= std_max (c / 25) (2 # 100)).
    { eapply Qle_trans; [|exact Hl]. rewrite E. apply Qle_refl. }
    lra. }
  assert (Hint : Z.le (to_int (c / std_max (c / 25) (2 # 100))) 25).
  { apply (to_int_upper _ 25). exact Hx. }
  split; [lia|]. split.
  - intros Hc. pose proof (steps_at_least_one c Hc).
    assert (0 <= c / std_max (c / 25) (2 # 100)).
    { apply Qle_shift_div_l; [exact Hinc | lra]. }
    pose proof (to_int_nonneg _ H0). lia.
  - unfold int_range. rewrite length_map, length_seq. lia.
Qed.

(** ** A request with a single item *)

(** The spot a single incoming item gets: the first fit among the
    containers of its preferred zone, if it has one and one of them has a
    spot; else the first fit among all containers. *)
Definition chosen_spot (containers_map : SMap.t ContainerData.t) (container_ids : list string)
    (item : ItemData.t) (simulation : SMap.t (list PlacementInfo.t))
    : option (string * Position.t) :=
  match (match ItemData.preferredZone item with
         | Some pref_zone =>
             first_fit (fun container => String.eqb (ContainerData.zone container) pref_zone)
                       containers_map item container_ids simulation
         | None => None
         end) with
  | Some spot => Some spot
  | None => first_fit (fun _ => true) containers_map item container_ids simulation
  end.

(** A request with one item.  The item goes to the first container of its
    preferred zone that has a spot for it; failing that (or without a
    preferred zone) to the first container of the request that has one;
    the output then has no failed id and holds the current placements and
    the new one (which replaces a current placement of the same id).
    When no container has a spot, the item is the only failed id, the
    error names it, and the placements are the current ones without that
    id. *)
Theorem single_item_request_first_fit_preferred_zone_first :
  forall (S : StdSort) item containers current,
    let out := suggest_placements_cpp [item] containers current in
    match chosen_spot (make_containers_map containers) (make_container_ids containers)
                      item current with
    | Some (container_id, pos) =>
        PlacementOutput.success out = true /\
        PlacementOutput.error out = None /\
        PlacementOutput.failedItemIds out = [] /\
        PlacementOutput.placements out =
          collect_placements
            (SMap.add (ItemData.itemId item) (new_result item container_id pos)
                      (seed_final_placements current)) []
    | None =>
        PlacementOutput.success out = false /\
        PlacementOutput.error out =
          Some (String.append "Placement incomplete. Failed items: " (ItemData.itemId item)) /\
        PlacementOutput.failedItemIds out = [ItemData.itemId item] /\
        PlacementOutput.placements out =
          collect_placements (seed_final_placements current) [ItemData.itemId item]
    end.
Proof.
  intros S item containers current. cbv zeta.
  unfold suggest_placements_cpp. rewrite sorted_incoming_items_singleton.
  set (cm := make_containers_map containers). set (cids := make_container_ids containers).
  set (st0 := mkSim current SSet.empty (seed_final_placements current)).
  assert (Hphase3 : forall st1,
            unchanged st0 st1 ->
            let r := phase3 cm cids [item] st1 (PlacementOutput.mk true None [] [] []) in
            match first_fit (fun _ => true) cm item cids current with
            | Some (container_id, pos) =>
                snd r = PlacementOutput.mk true None [] [] [] /\
                final_placements_map (fst r) =
                  SMap.add (ItemData.itemId item) (new_result item container_id pos)
                           (seed_final_placements current)
            | None =>
                snd r = failed_output (PlacementOutput.mk true None [] [] []) item /\
                final_placements_map (fst r) = seed_final_placements current
            end).
  { intros st1 (Hp & Hf & Hs). cbv zeta. unfold phase3. cbn [fold_left]. unfold phase3_step.
    rewrite Hp. cbn [processed_item_ids st0]. rewrite SSetF.empty_b.
    pose proof (place_in_containers_first_fit (fun _ => true) cm item cids st1) as Hff.
    cbv zeta in Hff.
    rewrite (first_fit_ext _ _ _ _ (simulation_placements st1) current Hs) in Hff.
    destruct (place_in_containers (fun _ => true) cm item (is_high_prio item) cids st1)
      as [b st']. cbn [fst snd] in Hff.
    destruct (first_fit (fun _ => true) cm item cids current) as [[c pos]|].
    - destruct Hff as (-> & _ & _ & Hfin & _). cbn [fst snd]. split; [reflexivity|].
      rewrite Hfin, Hf. reflexivity.
    - destruct Hff as (-> & _ & Hfin & _). cbn [fst snd final_placements_map].
      split; [reflexivity|]. rewrite Hfin, Hf. reflexivity. }
  assert (Hdone : forall container_id pos st' ,
            final_placements_map st' =
              SMap.add (ItemData.itemId item) (new_result item container_id pos)
                       (seed_final_placements current) ->
            PlacementOutput.success (PlacementOutput.mk true None [] [] []) = true /\
            final_error (PlacementOutput.mk true None [] [] []) = None /\
            PlacementOutput.failedItemIds (PlacementOutput.mk true None [] [] []) = [] /\
            collect_placements (final_placements_map st') [] =
              collect_placements
                (SMap.add (ItemData.itemId item) (new_result item container_id pos)
                          (seed_final_placements current)) []).
  { intros c pos st' ->. repeat split. }
  assert (Hlate : forall st1 pass_2,
            unchanged st0 st1 -> pass_2 = [item] ->
            match first_fit (fun _ => true) cm item cids current with
            | Some (container_id, pos) =>
                let '(st3, output) := phase3 cm cids (phase2 pass_2) st1
                                             (PlacementOutput.mk true None [] [] []) in
                PlacementOutput.success output = true /\
                final_error output = None /\
                PlacementOutput.failedItemIds output = [] /\
                collect_placements (final_placements_map st3)
                                   (PlacementOutput.failedItemIds output) =
                  collect_placements
                    (SMap.add (ItemData.itemId item) (new_result item container_id pos)
                              (seed_final_placements current)) []
            | None =>
                let '(st3, output) := phase3 cm cids (phase2 pass_2) st1
                                             (PlacementOutput.mk true None [] [] []) in
                PlacementOutput.success output = false /\
                final_error output =
                  Some (String.append "Placement incomplete. Failed items: "
                                      (ItemData.itemId item)) /\
                PlacementOutput.failedItemIds output = [ItemData.itemId item] /\
                collect_placements (final_placements_map st3)
                                   (PlacementOutput.failedItemIds output) =
                  collect_placements (seed_final_placements current) [ItemData.itemId item]
            end).
  { intros st1 pass_2 Hun ->. unfold phase2. specialize (Hphase3 st1 Hun). cbv zeta in Hphase3.
    destruct (phase3 cm cids [item] st1 (PlacementOutput.mk true None [] [] []))
      as [st3 output]. cbn [fst snd] in Hphase3.
    destruct (first_fit (fun _ => true) cm item cids current) as [[c pos]|].
    - destruct Hphase3 as [-> Hfin]. now apply Hdone.
    - destruct Hphase3 as [-> Hfin]. rewrite Hfin.
      unfold failed_output, final_error.
      cbn [PlacementOutput.success PlacementOutput.failedItemIds PlacementOutput.error app
           append_failed_ids].
      rewrite !string_append_empty_r. repeat split. }
  unfold phase1. cbn [fold_left]. unfold phase1_step.
  cbn [processed_item_ids st0]. rewrite SSetF.empty_b. unfold chosen_spot.
  fold cm. fold cids.
  destruct (ItemData.preferredZone item) as [pref_zone|]; cbv beta iota.
  - pose proof (place_in_containers_first_fit
                  (fun container => String.eqb (ContainerData.zone container) pref_zone)
                  cm item cids st0) as Hff.
    cbv zeta in Hff. change (simulation_placements st0) with current in Hff.
    destruct (place_in_containers _ cm item (is_high_prio item) cids st0) as [b st1].
    cbn [fst snd] in Hff.
    set (preferred := first_fit (fun container =>
                                   String.eqb (ContainerData.zone container) pref_zone)
                                cm item cids current) in *.
    clearbody preferred.
    destruct preferred as [[c pos]|].
    + destruct Hff as (-> & _ & _ & Hfin & _). cbn [app].
      unfold phase2, phase3. cbn [fold_left].
      cbn [PlacementOutput.success PlacementOutput.error PlacementOutput.failedItemIds
           PlacementOutput.placements PlacementOutput.rearrangements].
      now apply Hdone.
    + destruct Hff as (-> & Hun). cbn [app].
      specialize (Hlate st1 [item] Hun eq_refl).
      destruct (first_fit (fun _ => true) cm item cids current) as [[c pos]|];
        destruct (phase3 cm cids (phase2 [item]) st1 (PlacementOutput.mk true None [] [] []))
          as [st3 output];
        cbn [PlacementOutput.success PlacementOutput.error PlacementOutput.failedItemIds
             PlacementOutput.placements PlacementOutput.rearrangements]; exact Hlate.
  - cbn [app].
    assert (Hun : unchanged st0 st0) by (repeat split).
    specialize (Hlate st0 [item] Hun eq_refl).
    destruct (first_fit (fun _ => true) cm item cids current) as [[c pos]|];
      destruct (phase3 cm cids (phase2 [item]) st0 (PlacementOutput.mk true None [] [] []))
        as [st3 output];
      cbn [PlacementOutput.success PlacementOutput.error PlacementOutput.failedItemIds
           PlacementOutput.placements PlacementOutput.rearrangements]; exact Hlate.
Qed.
